(** * ITOP quiz backend: grading cascade, test assembly and wrong-answer tracking

    A shallow embedding of the parts of the ITOP backend that carry logic:

    - [app/services/answer_comparison.py]: the grading cascade
      [evaluate_answer] with its text helpers,
    - [app/routers/api.py]: the local [evaluate_answer], the endpoints
      [evaluate_user_answer], [create_custom_test], [create_standard_test],
      [submit_test] and [create_personalized_test],
    - [app/models/models.py]: the rows [Question], [User], [UserWrongAnswer].

    Python values are modelled as the interpreter has them: [str] is a
    sequence of Unicode code points, [int] is [Z], [float] is an IEEE
    binary64 number (Rocq's primitive floats), a raised exception is an
    explicit outcome, and the process-wide random generator is the sequence
    of draws it will deliver. *)

From Stdlib Require Import ZArith NArith List Bool Lia String Ascii Permutation.
From Stdlib Require Import Floats.PrimFloat Floats.SpecFloat Floats.FloatOps
  Floats.FloatAxioms.
Import ListNotations.

Set Warnings "-inexact-float".
Set Implicit Arguments.

(** ** Python strings *)

Module PyStr.

(** A character is a Unicode code point; a [str] is a list of them. *)
Definition char := N.
Definition str := list char.

(** Source literals are written as UTF-8 text and decoded to code points. *)
Fixpoint utf8_decode (bs : list N) : str :=
  match bs with
  | [] => []
  | b0 :: r0 =>
      if (b0 <? 128)%N then b0 :: utf8_decode r0
      else if (b0 <? 224)%N then
        match r0 with
        | b1 :: r1 => ((b0 - 192) * 64 + (b1 - 128))%N :: utf8_decode r1
        | _ => []
        end
      else if (b0 <? 240)%N then
        match r0 with
        | b1 :: b2 :: r2 =>
            ((b0 - 224) * 4096 + (b1 - 128) * 64 + (b2 - 128))%N :: utf8_decode r2
        | _ => []
        end
      else
        match r0 with
        | b1 :: b2 :: b3 :: r3 =>
            ((b0 - 240) * 262144 + (b1 - 128) * 4096 + (b2 - 128) * 64 + (b3 - 128))%N
              :: utf8_decode r3
        | _ => []
        end
  end.

Definition lit (s : string) : str :=
  utf8_decode (map N_of_ascii (list_ascii_of_string s)).

Definition chr (s : string) : char := hd 0%N (lit s).

(** [s1 == s2] *)
Fixpoint str_eqb (s1 s2 : str) : bool :=
  match s1, s2 with
  | [], [] => true
  | c1 :: r1, c2 :: r2 => (c1 =? c2)%N && str_eqb r1 r2
  | _, _ => false
  end.

(** Truthiness of a string: [if text] holds for the non-empty ones. *)
Definition truthy (s : str) : bool :=
  match s with [] => false | _ => true end.

(** [str.isspace()] on one character, which is also what [\s] matches in a
    [str] pattern and what [strip()] and [split()] remove: the code points
    with bidirectional type WS, B or S or category Zs. *)
Definition isspace (c : char) : bool :=
  ((9 <=? c) && (c <=? 13) || (28 <=? c) && (c <=? 32) || (c =? 133) || (c =? 160)
   || (c =? 5760) || (8192 <=? c) && (c <=? 8202) || (c =? 8232) || (c =? 8233)
   || (c =? 8239) || (c =? 8287) || (c =? 12288))%N.

(** The character class [[A-Z]]. *)
Definition is_AZ (c : char) : bool := ((65 <=? c) && (c <=? 90))%N.

(** [string.punctuation], the 32 ASCII punctuation characters. *)
Definition is_punctuation (c : char) : bool :=
  ((33 <=? c) && (c <=? 47) || (58 <=? c) && (c <=? 64)
   || (91 <=? c) && (c <=? 96) || (123 <=? c) && (c <=? 126))%N.

Fixpoint dropwhile (p : char -> bool) (s : str) : str :=
  match s with
  | [] => []
  | c :: r => if p c then dropwhile p r else s
  end.

Fixpoint takewhile (p : char -> bool) (s : str) : str :=
  match s with
  | [] => []
  | c :: r => if p c then c :: takewhile p r else []
  end.

Definition lstrip (s : str) : str := dropwhile isspace s.
Definition rstrip (s : str) : str := rev (dropwhile isspace (rev s)).

(** [s.strip()] *)
Definition strip (s : str) : str := rstrip (lstrip s).

Fixpoint is_prefix (p s : str) : bool :=
  match p, s with
  | [], _ => true
  | c :: p', d :: s' => (c =? d)%N && is_prefix p' s'
  | _ :: _, [] => false
  end.

(** [sub in s] *)
Fixpoint contains (sub s : str) : bool :=
  is_prefix sub s ||
  match s with
  | [] => false
  | _ :: r => contains sub r
  end.

(** Splitting at every character of a class, empty pieces kept:
    [s.split(c)] for a one-character [c], [re.split('[...]', s)] for a
    class. *)
Fixpoint split_at (sep : char -> bool) (s : str) : list str :=
  match s with
  | [] => [[]]
  | c :: r =>
      if sep c then [] :: split_at sep r
      else match split_at sep r with
           | [] => [[c]]
           | piece :: rest => (c :: piece) :: rest
           end
  end.

(** [s.split()]: the maximal runs of non-space characters. *)
Fixpoint words_from (cur : str) (s : str) : list str :=
  match s with
  | [] => match cur with [] => [] | _ => [rev cur] end
  | c :: r =>
      if isspace c
      then match cur with [] => words_from [] r | _ => rev cur :: words_from [] r end
      else words_from (c :: cur) r
  end.

Definition split (s : str) : list str := words_from [] s.

(** [re.sub(r'\s+', ' ', s)]: every maximal run of spaces becomes one
    U+0020. [in_run] tells that the previous character was a space. *)
Fixpoint collapse_from (in_run : bool) (s : str) : str :=
  match s with
  | [] => []
  | c :: r =>
      if isspace c
      then (if in_run then collapse_from true r else 32%N :: collapse_from true r)
      else c :: collapse_from false r
  end.

Definition collapse_spaces (s : str) : str := collapse_from false s.

End PyStr.

Import PyStr.

(** ** Python numbers *)

Module PyNum.

(** [float(n)] for an [int]: the nearest binary64 number, ties to even.
    (An [int] beyond the binary64 range raises [OverflowError] in Python;
    no quantity of this program gets there.) *)
Definition float_of_int (n : Z) : float :=
  SF2Prim (binary_normalize prec emax n 0 false).

(** [int(x)]: truncation towards zero; [ValueError] on a NaN and
    [OverflowError] on an infinity, both rendered as [None]. *)
Definition int_of_float (x : float) : option Z :=
  match Prim2SF x with
  | S754_zero _ => Some 0%Z
  | S754_finite sign m e =>
      let mag := if (0 <=? e)%Z then (Z.pos m * 2 ^ e)%Z
                 else (Z.pos m / 2 ^ (- e))%Z in
      Some (if sign then (- mag)%Z else mag)
  | S754_infinity _ | S754_nan => None
  end.

(** [round(x)] with one argument: the nearest [int], ties to even. *)
Definition round (x : float) : option Z :=
  match Prim2SF x with
  | S754_zero _ => Some 0%Z
  | S754_finite sign m e =>
      let mag :=
        if (0 <=? e)%Z then (Z.pos m * 2 ^ e)%Z
        else
          let d := (2 ^ (- e))%Z in
          let q := (Z.pos m / d)%Z in
          let r := (Z.pos m mod d)%Z in
          if (d <? 2 * r)%Z then (q + 1)%Z
          else if (2 * r =? d)%Z then (if Z.even q then q else (q + 1)%Z)
          else q in
      Some (if sign then (- mag)%Z else mag)
  | S754_infinity _ | S754_nan => None
  end.

(** [a / b] on two [int]s, for a non-zero [b]: both operands are exactly
    representable wherever this program divides (lengths and counts), so
    the correctly rounded quotient is the quotient of the conversions. *)
Definition int_truediv (a b : Z) : float :=
  (float_of_int a / float_of_int b)%float.

(** [x >= y] on floats. *)
Definition ge (x y : float) : bool := PrimFloat.leb y x.

End PyNum.

(** ** [difflib.SequenceMatcher(None, a, b).ratio()]

    The standard library's matcher, as [evaluate_answer] calls it: no junk
    predicate, [autojunk] left on. Indices are positions in [a] and [b]. *)

Module Difflib.

Definition count (c : char) (b : str) : nat :=
  List.length (filter (N.eqb c) b).

(** [__chain_b]: in a [b] of 200 elements or more, an element occurring
    more than [len(b) // 100 + 1] times is popular and leaves [b2j]. *)
Definition popular (b : str) (c : char) : bool :=
  (200 <=? List.length b) && (List.length b / 100 + 1 <? count c b).

Fixpoint indices_from (c : char) (b : str) (j : nat) : list nat :=
  match b with
  | [] => []
  | d :: r =>
      if (c =? d)%N then j :: indices_from c r (S j) else indices_from c r (S j)
  end.

(** [b2j.get(c, nothing)]: the increasing positions of [c] in [b]. *)
Definition b2j (b : str) (c : char) : list nat :=
  if popular b c then [] else indices_from c b 0.

(** [j2len.get(j, 0)] on a dict kept as an association list. *)
Fixpoint j2len_get (j2len : list (nat * nat)) (j : nat) : nat :=
  match j2len with
  | [] => 0
  | (j', k) :: r => if j' =? j then k else j2len_get r j
  end.

Definition Match := (nat * nat * nat)%type.

(** The inner loop of [find_longest_match] over the positions [js] of
    [a[i]] in [b]; returns [newj2len] and the best match so far. *)
Fixpoint scan_js (i blo bhi : nat) (js : list nat) (j2len : list (nat * nat))
    (best : Match) : list (nat * nat) * Match :=
  match js with
  | [] => ([], best)
  | j :: js' =>
      if j <? blo then scan_js i blo bhi js' j2len best
      else if bhi <=? j then ([], best)
      else
        let k := (match j with 0 => 0 | S j' => j2len_get j2len j' end) + 1 in
        let '(_, _, bestsize) := best in
        let best' := if bestsize <? k then (i + 1 - k, j + 1 - k, k) else best in
        let '(new, best'') := scan_js i blo bhi js' j2len best' in
        ((j, k) :: new, best'')
  end.

(** The outer loop: [for i in range(alo, ahi)], over the elements
    [a[alo:ahi]] still to visit. *)
Fixpoint scan_is (b : str) (blo bhi : nat) (i : nat) (a_rest : str)
    (j2len : list (nat * nat)) (best : Match) : Match :=
  match a_rest with
  | [] => best
  | c :: r =>
      let '(new, best') := scan_js i blo bhi (b2j b c) j2len best in
      scan_is b blo bhi (S i) r new best'
  end.

(** First [while]: extend the match to the left. *)
Fixpoint extend_left (fuel : nat) (a b : str) (alo blo : nat) (m : Match) : Match :=
  match fuel with
  | 0 => m
  | S f =>
      let '(besti, bestj, bestsize) := m in
      if (alo <? besti) && (blo <? bestj)
         && (nth (besti - 1) a 0 =? nth (bestj - 1) b 0)%N
      then extend_left f a b alo blo (besti - 1, bestj - 1, bestsize + 1)
      else m
  end.

(** Second [while]: extend the match to the right. *)
Fixpoint extend_right (fuel : nat) (a b : str) (ahi bhi : nat) (m : Match) : Match :=
  match fuel with
  | 0 => m
  | S f =>
      let '(besti, bestj, bestsize) := m in
      if (besti + bestsize <? ahi) && (bestj + bestsize <? bhi)
         && (nth (besti + bestsize) a 0 =? nth (bestj + bestsize) b 0)%N
      then extend_right f a b ahi bhi (besti, bestj, bestsize + 1)
      else m
  end.

(** [find_longest_match(alo, ahi, blo, bhi)]. The two last [while] loops
    of the source absorb junk elements; with no junk predicate [bjunk] is
    empty and they do not run. The fuel of each extension is the length of
    [a], an upper bound on its iterations. *)
Definition find_longest_match (a b : str) (alo ahi blo bhi : nat) : Match :=
  let m0 := scan_is b blo bhi alo (skipn alo (firstn ahi a)) [] (alo, blo, 0) in
  let m1 := extend_left (List.length a) a b alo blo m0 in
  extend_right (List.length a) a b ahi bhi m1.

(** [sum(triple[-1] for triple in get_matching_blocks())]: the sizes of the
    blocks found on the region and, recursively, to the left and to the
    right of the longest one. The source keeps the regions in a work list;
    the sum does not depend on the order they are taken in. Each nested
    region has fewer elements of [a], so [S (length a)] is fuel enough. *)
Fixpoint matched (fuel : nat) (a b : str) (alo ahi blo bhi : nat) : nat :=
  match fuel with
  | 0 => 0
  | S f =>
      let '(i, j, k) := find_longest_match a b alo ahi blo bhi in
      if k =? 0 then 0
      else
        k + (if (alo <? i) && (blo <? j) then matched f a b alo i blo j else 0)
          + (if (i + k <? ahi) && (j + k <? bhi)
             then matched f a b (i + k) ahi (j + k) bhi else 0)
  end.

Definition matches (a b : str) : nat :=
  matched (S (List.length a)) a b 0 (List.length a) 0 (List.length b).

(** [_calculate_ratio(matches, length)] *)
Definition calculate_ratio (m length : nat) : float :=
  if length =? 0 then 1.0%float
  else (2.0 * PyNum.float_of_int (Z.of_nat m) / PyNum.float_of_int (Z.of_nat length))%float.

Definition ratio (a b : str) : float :=
  calculate_ratio (matches a b) (List.length a + List.length b).

End Difflib.

(** ** What the interpreter and the remote services supply *)

(** The four values [evaluate_answer] interpolates into its prompt. *)
Record Prompt := {
  prompt_question : str;
  prompt_example : str;          (* the example block, or "" without one *)
  prompt_correct_answer : str;
  prompt_user_answer : str
}.

(** The JSON object of a chat completion, after [json.loads]:
    [reply_score] is [float(result_json.get("score", 0))]. *)
Record Reply := {
  reply_score : float;
  reply_is_correct : bool;
  reply_feedback : str;
  reply_missing_points : list str;
  reply_incorrect_points : list str
}.

(** Collaborators that are not code of this repository. [py_lower] is
    [str.lower()] and [re_digit] the class [\d], both read off the
    interpreter's Unicode database; [openai_chat] is the remote grader,
    [None] when the call, the JSON parsing or the score conversion raises;
    [sql_like] is the storage engine's [column LIKE pattern]. *)
Record Runtime := {
  py_lower : str -> str;
  re_digit : char -> bool;
  openai_chat : Prompt -> option Reply;
  sql_like : str -> str -> bool
}.

(** ** [app/services/answer_comparison.py] *)

Module AnswerComparison.

Section Grading.

Variable rt : Runtime.

(** [preprocess_text]: lower case, punctuation removed, spaces
    normalised. *)
Definition preprocess_text (text : str) : str :=
  if negb (truthy text) then []
  else
    let text := py_lower rt text in
    let text := filter (fun c => negb (is_punctuation c)) text in
    strip (collapse_spaces text).

(** The [question_data] dict; [None] is an absent key. *)
Record QuestionData := {
  qd_question : option str;
  qd_answer : option str;
  qd_example : option str
}.

(** The dict [evaluate_answer] returns; [None] is an absent key or a
    [None] value. *)
Record Verdict := {
  is_correct : bool;
  score : float;
  feedback : str;
  missing_points : list str;
  incorrect_points : list str;
  correct_answer : option str;
  example : option str
}.

Definition msg_no_data : str := lit "답변 또는 문제 데이터가 없습니다.".
Definition msg_correct : str := lit "정답입니다!".
Definition msg_partial : str :=
  lit "부분적으로 정답이지만, 좀 더 정확한 답변이 필요합니다.".
Definition msg_wrong : str := lit "틀렸습니다. 정답을 다시 확인해보세요.".
Definition msg_abbreviation : str := lit "영문 약어로 작성해야 합니다.".
Definition point_abbreviation : str := lit "영문 약어 형식".

(** [example if example else None] *)
Definition example_or_none (example : option str) : option str :=
  match example with
  | Some e => if truthy e then Some e else None
  | None => None
  end.

(** [re.search(r'[A-Z]{2,}', s)] as a truth value. *)
Fixpoint has_abbreviation (s : str) : bool :=
  match s with
  | c :: ((d :: _) as r) => is_AZ c && is_AZ d || has_abbreviation r
  | _ => false
  end.

(** [re.match] of the option pattern, with its two groups: a run of
    digits, a dot, optional spaces, then the rest of the line (the dot of
    the pattern stops at a line feed). *)
Definition match_option (line : str) : option (str * str) :=
  match takewhile (re_digit rt) line with
  | [] => None
  | num =>
      match dropwhile (re_digit rt) line with
      | c :: rest =>
          if (c =? 46)%N
          then Some (num, takewhile (fun c => negb (c =? 10)%N) (dropwhile isspace rest))
          else None
      | [] => None
      end
  end.

Definition accepted (correct_answer : str) (example : option str) : Verdict :=
  {| is_correct := true; score := 1.0; feedback := msg_correct;
     missing_points := []; incorrect_points := [];
     correct_answer := Some correct_answer; example := example |}.

(** Stage 1: the exact match. *)
Definition stage_exact (user_answer correct_answer : str) : option Verdict :=
  if str_eqb (strip user_answer) correct_answer
  then Some (accepted correct_answer None)
  else None.

(** The body of the loop of stage 2 for one line of the example block:
    [Some] is a [return]. *)
Definition option_line (user_answer correct_answer example line : str)
    : option Verdict :=
  match match_option (strip line) with
  | None => None
  | Some (option_num, option_text) =>
      let option_text := strip option_text in
      let user_hit :=
        str_eqb (strip user_answer) option_num
        || str_eqb (preprocess_text user_answer) (preprocess_text option_text) in
      if str_eqb correct_answer option_num then
        if user_hit then Some (accepted correct_answer (Some example)) else None
      else if str_eqb (preprocess_text correct_answer) (preprocess_text option_text) then
        if user_hit then Some (accepted correct_answer (Some example)) else None
      else None
  end.

Fixpoint option_lines (user_answer correct_answer example : str) (options : list str)
    : option Verdict :=
  match options with
  | [] => None
  | line :: rest =>
      match option_line user_answer correct_answer example line with
      | Some v => Some v
      | None => option_lines user_answer correct_answer example rest
      end
  end.

(** The separator of [example.split('\n')]. *)
Definition is_newline (c : char) : bool := (c =? 10)%N.

(** Stage 2: the enumerated options of the example block. *)
Definition stage_options (user_answer correct_answer : str) (example : option str)
    : option Verdict :=
  match example with
  | Some e =>
      if truthy e
      then option_lines user_answer correct_answer e (split_at is_newline e)
      else None
  | None => None
  end.

Definition demands_abbreviation (question : str) : bool :=
  contains (lit "영문 약어") question || contains (lit "영문약어") question.

(** Stage 3: the format constraint. *)
Definition stage_format (user_answer correct_answer question : str)
    (example : option str) : option Verdict :=
  if demands_abbreviation question && has_abbreviation correct_answer then
    if negb (has_abbreviation user_answer) then
      Some {| is_correct := false; score := 0.1; feedback := msg_abbreviation;
              missing_points := [point_abbreviation]; incorrect_points := [];
              correct_answer := Some correct_answer;
              example := example_or_none example |}
    else None
  else None.

Definition is_comma (c : char) : bool := (c =? 44)%N || (c =? 65292)%N.

(** [all(preprocess_text(c) == preprocess_text(u) for c, u in zip(cs, us))] *)
Fixpoint all_items_equal (cs us : list str) : bool :=
  match cs, us with
  | c :: cs', u :: us' =>
      str_eqb (preprocess_text c) (preprocess_text u) && all_items_equal cs' us'
  | _, _ => true
  end.

Definition items (s : str) : list str := map strip (split_at is_comma s).

(** Stage 4: the ordered list. *)
Definition stage_list (user_answer correct_answer : str) (example : option str)
    : option Verdict :=
  if existsb is_comma correct_answer then
    let correct_items := items correct_answer in
    let user_items := items user_answer in
    if (List.length correct_items =? List.length user_items)
       && all_items_equal correct_items user_items
    then Some (accepted correct_answer (example_or_none example))
    else None
  else None.

(** Stage 5: the remote grader; [None] when the call raised and the
    function goes on to stage 6. *)
Definition stage_remote (user_answer correct_answer question : str)
    (example : option str) : option Verdict :=
  let p := {| prompt_question := question;
              prompt_example := match example_or_none example with
                                | Some e => e | None => [] end;
              prompt_correct_answer := correct_answer;
              prompt_user_answer := user_answer |} in
  match openai_chat rt p with
  | Some r =>
      Some {| is_correct := reply_is_correct r;
              score := (reply_score r / 100)%float;
              feedback := reply_feedback r;
              missing_points := reply_missing_points r;
              incorrect_points := reply_incorrect_points r;
              correct_answer := Some correct_answer;
              example := example_or_none example |}
  | None => None
  end.

(** [len(set(correct_words).intersection(set(user_words)))] *)
Fixpoint common_count (seen correct_words user_words : list str) : nat :=
  match correct_words with
  | [] => 0
  | w :: r =>
      if existsb (str_eqb w) seen then common_count seen r user_words
      else (if existsb (str_eqb w) user_words then 1 else 0)
           + common_count (w :: seen) r user_words
  end.

Definition final_score (user_answer correct_answer : str) : float :=
  let similarity :=
    Difflib.ratio (preprocess_text user_answer) (preprocess_text correct_answer) in
  let correct_words := split (preprocess_text correct_answer) in
  let user_words := split (preprocess_text user_answer) in
  let keyword_match_ratio :=
    match correct_words with
    | [] => 0.0%float
    | _ => PyNum.int_truediv (Z.of_nat (common_count [] correct_words user_words))
                             (Z.of_nat (List.length correct_words))
    end in
  (0.4 * similarity + 0.6 * keyword_match_ratio)%float.

(** Stage 6: the lexical score. *)
Definition stage_lexical (user_answer correct_answer : str) (example : option str)
    : Verdict :=
  let final := final_score user_answer correct_answer in
  let correct := PyNum.ge final 0.7 in
  {| is_correct := correct;
     score := final;
     feedback := if correct then msg_correct
                 else if PyNum.ge final 0.5 then msg_partial else msg_wrong;
     missing_points := []; incorrect_points := [];
     correct_answer := Some correct_answer;
     example := example_or_none example |}.

Definition or_else {A} (x : option A) (y : option A) : option A :=
  match x with Some _ => x | None => y end.

(** [evaluate_answer(user_answer, question_data, use_advanced)]: the first
    stage that returns decides. *)
Definition evaluate_answer (user_answer : str) (question_data : QuestionData)
    (use_advanced : bool) : Verdict :=
  match qd_answer question_data with
  | None =>
      {| is_correct := false; score := 0.0; feedback := msg_no_data;
         missing_points := []; incorrect_points := [];
         correct_answer := None; example := None |}
  | Some answer =>
      if negb (truthy user_answer) then
        {| is_correct := false; score := 0.0; feedback := msg_no_data;
           missing_points := []; incorrect_points := [];
           correct_answer := None; example := None |}
      else
        let correct_answer := strip answer in
        let question := match qd_question question_data with
                        | Some q => q | None => [] end in
        let example := qd_example question_data in
        match
          or_else (stage_exact user_answer correct_answer)
          (or_else (stage_options user_answer correct_answer example)
          (or_else (stage_format user_answer correct_answer question example)
          (or_else (stage_list user_answer correct_answer example)
                   (if use_advanced
                    then stage_remote user_answer correct_answer question example
                    else None))))
        with
        | Some v => v
        | None => stage_lexical user_answer correct_answer example
        end
  end.

(** *** The comparison without stages *)

(** [calculate_similarity(text1, text2)] *)
Definition calculate_similarity (text1 text2 : str) : float :=
  Difflib.ratio (preprocess_text text1) (preprocess_text text2).

Definition stopwords : list str :=
  [ lit "the"; lit "그"; lit "이"; lit "그리고"; lit "또한"; lit "a"; lit "an";
    lit "of"; lit "to"; lit "in"; lit "for"; lit "on"; lit "at" ].

(** [get_keywords_from_text(text)] *)
Definition get_keywords_from_text (text : str) : list str :=
  filter (fun word => negb (existsb (str_eqb word) stopwords)
                      && (1 <? List.length word))
         (split (preprocess_text text)).

(** [len(set(words))] *)
Fixpoint set_size (seen words : list str) : nat :=
  match words with
  | [] => 0
  | w :: r =>
      if existsb (str_eqb w) seen then set_size seen r
      else S (set_size (w :: seen) r)
  end.

(** [compare_answers_simple(user_answer, correct_answer)] *)
Definition compare_answers_simple (user_answer correct_answer : str)
    : bool * float * str :=
  let similarity := calculate_similarity user_answer correct_answer in
  let correct_keywords := get_keywords_from_text correct_answer in
  let user_keywords := get_keywords_from_text user_answer in
  let keyword_match_ratio :=
    match correct_keywords with
    | [] => 0.0%float
    | _ => PyNum.int_truediv
             (Z.of_nat (common_count [] correct_keywords user_keywords))
             (Z.of_nat (set_size [] correct_keywords))
    end in
  let final_score := (0.3 * similarity + 0.7 * keyword_match_ratio)%float in
  let is_correct := PyNum.ge final_score 0.7 in
  (is_correct, final_score,
   if is_correct then msg_correct
   else if PyNum.ge final_score 0.5 then msg_partial else msg_wrong).

End Grading.

End AnswerComparison.

(** ** A runtime to run the model on

    The remote grader is unreachable, [lower()] and [\d] are given on
    ASCII, and [LIKE] is case-sensitive with its two wildcards. On strings
    made of ASCII characters and Hangul syllables (which have no case and
    are not digits) this is what CPython computes. *)

Module Offline.

Definition lower (s : str) : str :=
  map (fun c => if is_AZ c then (c + 32)%N else c) s.

Definition digit (c : char) : bool := ((48 <=? c) && (c <=? 57))%N.

Fixpoint like (pattern : str) : str -> bool :=
  match pattern with
  | [] => fun s => match s with [] => true | _ => false end
  | c :: p =>
      if (c =? 37)%N then
        fix any (s : str) : bool :=
          like p s || match s with [] => false | _ :: r => any r end
      else
        fun s => match s with
                 | [] => false
                 | d :: r => ((c =? 95) || (c =? d))%N && like p r
                 end
  end.

Definition runtime : Runtime :=
  {| py_lower := lower; re_digit := digit;
     openai_chat := fun _ => None; sql_like := like |}.

End Offline.

(** ** [app/models/models.py] *)

Module Models.

(** The nine question tables, one class each, in the order of
    [QUESTION_TYPE_MAPPING]. *)
Inductive Category :=
  | os | db | network | algorithm | program
  | app_test | app_defect | base_sql | hard_sql.

Definition Category_eqb (c1 c2 : Category) : bool :=
  match c1, c2 with
  | os, os | db, db | network, network | algorithm, algorithm
  | program, program | app_test, app_test | app_defect, app_defect
  | base_sql, base_sql | hard_sql, hard_sql => true
  | _, _ => false
  end.

(** A row of any of the nine question tables. *)
Record Question := {
  id : str;
  question : str;
  answer : str;
  example : option str;
  difficulty : Z;
  keywords : option str
}.

(** A question object together with the class it is an instance of. *)
Definition Row : Type := Category * Question.

Record User := {
  user_pk : str;                 (* User.id *)
  username : str;
  email : str
}.

(** [UserWrongAnswer]; the fields carry a prefix where [Question] has a
    column of the same name. *)
Record UserWrongAnswer := {
  wa_id : Z;
  user_id : str;
  question_id : str;
  question_category : str;
  user_answer : option str;
  created_at : Z;
  attempt_count : Z;
  wa_keywords : option str
}.

(** The database behind a [Session]. A table that is [None] cannot be
    read: every query on it raises. [now] is the value of [func.now()]. *)
Record Session := {
  questions_of : Category -> option (list Question);
  users : option (list User);
  user_wrong_answers : option (list UserWrongAnswer);
  now : Z
}.

End Models.

Import Models.

(** ** Requests: exceptions, the database session and the random generator *)

Inductive Exception :=
  | HTTPException (status_code : Z)
  | SQLAlchemyError
  | KeyError
  | ValueError.

Inductive Outcome (A : Type) :=
  | Return (a : A)
  | Raise (e : Exception).
Arguments Return {A} a.
Arguments Raise {A} e.

(** What a request handler works on: the session, and the draws the
    process-wide generator will deliver from the state in which
    [random.seed(datetime.now().timestamp())] puts it. *)
Record World := {
  session : Session;
  draws : list nat
}.

Definition M (A : Type) : Type := World -> Outcome A * World.

Definition ret {A} (a : A) : M A := fun w => (Return a, w).

Definition bind {A B} (m : M A) (k : A -> M B) : M B :=
  fun w =>
    match m w with
    | (Return a, w') => k a w'
    | (Raise e, w') => (Raise e, w')
    end.

Definition raise {A} (e : Exception) : M A := fun w => (Raise e, w).

(** [try: body  except Exception as e: handler] *)
Definition try_except {A} (body : M A) (handler : Exception -> M A) : M A :=
  fun w =>
    match body w with
    | (Return a, w') => (Return a, w')
    | (Raise e, w') => handler e w'
    end.

Declare Scope py_scope.
Delimit Scope py_scope with py.
Notation "x <- m ;; k" := (bind m (fun x => k))
  (at level 61, m at next level, right associativity) : py_scope.
Notation "m ;;; k" := (bind m (fun _ => k))
  (at level 61, right associativity) : py_scope.
Open Scope py_scope.

Definition lift_option {A} (e : Exception) (o : option A) : M A :=
  match o with Some a => ret a | None => raise e end.

(** *** The [random] module *)

Module Random.

Definition next_draw (ds : list nat) : nat * list nat :=
  match ds with
  | [] => (0, [])
  | d :: r => (d, r)
  end.

(** The element at position [i] and the list without it. *)
Fixpoint take_nth {A} (i : nat) (l : list A) : option (A * list A) :=
  match l, i with
  | [], _ => None
  | x :: r, 0 => Some (x, r)
  | x :: r, S i' =>
      match take_nth i' r with
      | Some (y, r') => Some (y, x :: r')
      | None => None
      end
  end.

(** [k] elements at distinct positions of [pool], each position chosen by
    one draw among those left. *)
Fixpoint choose {A} (k : nat) (pool : list A) (ds : list nat) : list A * list nat :=
  match k with
  | 0 => ([], ds)
  | S k' =>
      let '(d, ds') := next_draw ds in
      match take_nth (d mod List.length pool) pool with
      | Some (x, pool') =>
          let '(xs, ds'') := choose k' pool' ds' in (x :: xs, ds'')
      | None => ([], ds')
      end
  end.

(** [random.sample(population, k)]; [ValueError] for a [k] that is
    negative or larger than the population. *)
Definition sample {A} (population : list A) (k : Z) : M (list A) :=
  fun w =>
    if (k <? 0)%Z || (Z.of_nat (List.length population) <? k)%Z
    then (Raise ValueError, w)
    else
      let '(xs, ds) := choose (Z.to_nat k) population (draws w) in
      (Return xs, {| session := session w; draws := ds |}).

(** [random.shuffle(x)], returning the shuffled list. *)
Definition shuffle {A} (x : list A) : M (list A) :=
  fun w =>
    let '(xs, ds) := choose (List.length x) x (draws w) in
    (Return xs, {| session := session w; draws := ds |}).

End Random.

(** *** Queries *)

Module Query.

(** [db.query(model).all()] *)
Definition all (c : Category) : M (list Question) :=
  fun w =>
    match questions_of (session w) c with
    | Some rows => (Return rows, w)
    | None => (Raise SQLAlchemyError, w)
    end.

Fixpoint first_with_id (qid : str) (rows : list Question) : option Question :=
  match rows with
  | [] => None
  | q :: r => if str_eqb (id q) qid then Some q else first_with_id qid r
  end.

(** [db.query(model).filter(model.id == qid).first()] *)
Definition first_by_id (c : Category) (qid : str) : M (option Question) :=
  rows <- all c ;; ret (first_with_id qid rows).

Definition id_in (ids : list str) (q : Question) : bool :=
  existsb (str_eqb (id q)) ids.

(** [db.query(model).filter(model.id.in_(ids)).all()] *)
Definition with_id_in (c : Category) (ids : list str) : M (list Question) :=
  rows <- all c ;; ret (filter (id_in ids) rows).

(** [db.query(model).filter(~model.id.in_(ids)).all()] *)
Definition with_id_not_in (c : Category) (ids : list str) : M (list Question) :=
  rows <- all c ;; ret (filter (fun q => negb (id_in ids q)) rows).

(** [db.query(User).filter(User.id == uid).first()] *)
Definition user_by_id (uid : str) : M (option User) :=
  fun w =>
    match users (session w) with
    | Some us => (Return (find (fun u => str_eqb (user_pk u) uid) us), w)
    | None => (Raise SQLAlchemyError, w)
    end.

(** [db.query(UserWrongAnswer).all()] *)
Definition wrong_answers : M (list UserWrongAnswer) :=
  fun w =>
    match user_wrong_answers (session w) with
    | Some rows => (Return rows, w)
    | None => (Raise SQLAlchemyError, w)
    end.

(** Writing the wrong-answer table back at [db.commit()]. *)
Definition commit_wrong_answers (rows : list UserWrongAnswer) : M unit :=
  fun w =>
    let s := session w in
    (Return tt,
     {| session := {| questions_of := questions_of s; users := users s;
                      user_wrong_answers := Some rows; now := now s |};
        draws := draws w |}).

Definition current_time : M Z := fun w => (Return (now (session w)), w).

End Query.

(** ** [app/routers/api.py] *)

Module Api.

Section Handlers.

Variable rt : Runtime.

(** [QUESTION_TYPE_MAPPING], in insertion order. *)
Definition QUESTION_TYPE_MAPPING : list (str * Category) :=
  [ (lit "os", os); (lit "db", db); (lit "network", network);
    (lit "algorithm", algorithm); (lit "program", program);
    (lit "app_test", app_test); (lit "app_defect", app_defect);
    (lit "base_sql", base_sql); (lit "hard_sql", hard_sql) ].

Fixpoint mapping_get (m : list (str * Category)) (key : str) : option Category :=
  match m with
  | [] => None
  | (k, c) :: r => if str_eqb k key then Some c else mapping_get r key
  end.

(** [key in QUESTION_TYPE_MAPPING] *)
Definition is_category (key : str) : bool :=
  match mapping_get QUESTION_TYPE_MAPPING key with Some _ => true | None => false end.

(** [qid.split('-')[0] if '-' in qid else None] *)
Definition category_prefix (qid : str) : option str :=
  if existsb (N.eqb 45) qid
  then Some (takewhile (fun c => negb (c =? 45)%N) qid)
  else None.

(** Truthiness of a name that may be [None]. *)
Definition named (category : option str) : bool :=
  match category with Some c => truthy c | None => false end.

(** The verdict of the router's own [evaluate_answer]. *)
Record Evaluation := {
  is_correct : bool;
  score : float;
  feedback : str;
  correct_answer : str;
  example : option str
}.

Definition msg_correct : str := lit "정답입니다!".
Definition msg_wrong : str := lit "틀렸습니다.".

(** [evaluate_answer(user_answer, question_data)] of [api.py], written
    there in place of the one of [answer_comparison]. *)
Definition evaluate_answer (user_answer : str) (answer : str) (example : option str)
    : Evaluation :=
  let correct := str_eqb (strip (py_lower rt user_answer)) (strip (py_lower rt answer)) in
  {| is_correct := correct;
     score := if correct then 1.0 else 0.0;
     feedback := if correct then msg_correct else msg_wrong;
     correct_answer := answer;
     example := example |}.

Record AnswerRequest := {
  request_question_id : str;
  request_answer : str
}.

Record AnswerResponse := {
  response_is_correct : bool;
  response_score : float;
  response_feedback : str;
  response_correct_answer : str;
  response_missing_points : list str;
  response_incorrect_points : list str;
  response_example : option str
}.

(** The loop [for model_type, model in QUESTION_TYPE_MAPPING.items()]
    that looks for an id in every table: the first table holding it. *)
Fixpoint scan_models (qid : str) (models : list (str * Category))
    : M (option (str * Question)) :=
  match models with
  | [] => ret None
  | (model_type, model) :: rest =>
      found <- Query.first_by_id model qid ;;
      match found with
      | Some q => ret (Some (model_type, q))
      | None => scan_models qid rest
      end
  end.

(** [round(x * 100) / 100] *)
Definition two_decimals (x : float) : M float :=
  n <- lift_option ValueError (PyNum.round (x * 100)%float) ;;
  ret (PyNum.int_truediv n 100).

(** [POST /api/evaluate] *)
Definition evaluate_user_answer (request : AnswerRequest) : M AnswerResponse :=
  try_except
    (let qid := request_question_id request in
     let category := category_prefix qid in
     category <-
       (if negb (named category)
           || negb (match category with Some c => is_category c | None => false end)
        then
          found <- scan_models qid QUESTION_TYPE_MAPPING ;;
          let category := match found with
                          | Some (model_type, _) => Some model_type
                          | None => category
                          end in
          if negb (named category) then raise (HTTPException 404) else ret category
        else ret category) ;;
     model <- lift_option KeyError
                (match category with
                 | Some c => mapping_get QUESTION_TYPE_MAPPING c
                 | None => None
                 end) ;;
     found <- Query.first_by_id model qid ;;
     match found with
     | None => raise (HTTPException 404)
     | Some q =>
         let evaluation_result :=
           evaluate_answer (request_answer request) (answer q) (Models.example q) in
         rounded <- two_decimals (score evaluation_result) ;;
         ret {| response_is_correct := is_correct evaluation_result;
                response_score := rounded;
                response_feedback := feedback evaluation_result;
                response_correct_answer := correct_answer evaluation_result;
                response_missing_points := [];
                response_incorrect_points := [];
                response_example := example evaluation_result |}
     end)
    (fun _ => raise (HTTPException 500)).

(** *** Quota mode *)

Record TestConfigRequest := {
  os_count : Z;
  network_count : Z;
  db_count : Z;
  sql_count : Z;
  basic_sql_ratio : float;
  program_count : Z;
  app_count : Z;
  app_test_ratio : float
}.

(** The block [create_custom_test] repeats for every table: the ids of the
    table, then a sample of [count] of them when there are enough, the
    whole table otherwise. *)
Definition draw_from (model : Category) (count : Z) : M (list Row) :=
  all_ids <- (rows <- Query.all model ;; ret (map id rows)) ;;
  questions <-
    (if (count <=? Z.of_nat (List.length all_ids))%Z then
       selected_ids <- Random.sample all_ids count ;;
       Query.with_id_in model selected_ids
     else Query.all model) ;;
  ret (map (pair model) questions).

(** [if count > 0: ...; result.extend(questions)] *)
Definition extend_from (result : list Row) (model : Category) (count : Z)
    : M (list Row) :=
  if (0 <? count)%Z
  then (questions <- draw_from model count ;; ret (result ++ questions))
  else ret result.

(** [int(count * ratio)] *)
Definition share (count : Z) (ratio : float) : M Z :=
  lift_option ValueError
    (PyNum.int_of_float (PyNum.float_of_int count * ratio)%float).

(** The [try] block of [create_custom_test]. *)
Definition custom_test_body (config : TestConfigRequest) : M (list Row) :=
  let result := [] in
  result <- extend_from result os (os_count config) ;;
  result <- extend_from result network (network_count config) ;;
  result <- extend_from result db (db_count config) ;;
  result <-
    (if (0 <? sql_count config)%Z then
       basic_sql_count <- share (sql_count config) (basic_sql_ratio config) ;;
       let hard_sql_count := (sql_count config - basic_sql_count)%Z in
       result <- extend_from result base_sql basic_sql_count ;;
       extend_from result hard_sql hard_sql_count
     else ret result) ;;
  result <- extend_from result program (program_count config) ;;
  result <-
    (if (0 <? app_count config)%Z then
       app_test_count <- share (app_count config) (app_test_ratio config) ;;
       let app_defect_count := (app_count config - app_test_count)%Z in
       result <- extend_from result app_test app_test_count ;;
       extend_from result app_defect app_defect_count
     else ret result) ;;
  Random.shuffle result.

(** [POST /api/custom-test]: on any exception, the empty list. *)
Definition create_custom_test (config : TestConfigRequest) : M (list Row) :=
  try_except (custom_test_body config) (fun _ => ret []).

(** [GET /api/standard-test] *)
Definition standard_config : TestConfigRequest :=
  {| os_count := 3; network_count := 3; db_count := 3; sql_count := 4;
     basic_sql_ratio := 0.5; program_count := 6; app_count := 1;
     app_test_ratio := 0.5 |}.

Definition create_standard_test : M (list Row) :=
  create_custom_test standard_config.

(** *** Submitting a test *)

(** One entry of [submission.answers]; [None] is an absent key. *)
Record AnswerData := {
  data_question_id : option str;
  data_answer : option str
}.

Record TestSubmission := {
  answers : list AnswerData;
  submission_user_id : option str
}.

Record Detail := {
  detail_question_id : str;
  detail_is_correct : bool;
  detail_points : Z;
  detail_user_answer : str;
  detail_correct_answer : str;
  detail_feedback : str
}.

Record TestResult := {
  correct_count : Z;
  total_questions : Z;
  total_score : Z;
  result_details : list Detail;
  is_passed : bool
}.

(** The filter of the existence check: same user, same question. *)
Definition same_pair (uid qid : str) (wa : UserWrongAnswer) : bool :=
  str_eqb (user_id wa) uid && str_eqb (question_id wa) qid.

(** The repeat branch, on the first row the filter finds. *)
Fixpoint update_first (uid qid user_answer : str) (time : Z)
    (rows : list UserWrongAnswer) : list UserWrongAnswer :=
  match rows with
  | [] => []
  | wa :: r =>
      if same_pair uid qid wa then
        {| wa_id := wa_id wa; user_id := user_id wa; question_id := question_id wa;
           question_category := question_category wa;
           user_answer := Some user_answer;
           created_at := time;
           attempt_count := (attempt_count wa + 1)%Z;
           wa_keywords := wa_keywords wa |} :: r
      else wa :: update_first uid qid user_answer time r
  end.

(** The primary key an autoincrement column gives the next row. *)
Definition next_id (rows : list UserWrongAnswer) : Z :=
  (fold_right Z.max 0 (map wa_id rows) + 1)%Z.

(** Lines 573 to 598: what [submit_test] does to the wrong-answer table
    for one missed question of an identified user. *)
Definition record_miss (uid qid category user_answer : str) (keywords : option str)
    (time : Z) (rows : list UserWrongAnswer) : list UserWrongAnswer :=
  match find (same_pair uid qid) rows with
  | Some _ => update_first uid qid user_answer time rows
  | None =>
      rows ++ [ {| wa_id := next_id rows; user_id := uid; question_id := qid;
                   question_category := category;
                   user_answer := Some user_answer;
                   created_at := time; attempt_count := 1;
                   wa_keywords := keywords |} ]
  end.

Definition store_miss (user : User) (qid category user_answer : str)
    (keywords : option str) : M unit :=
  rows <- Query.wrong_answers ;;
  time <- Query.current_time ;;
  Query.commit_wrong_answers
    (record_miss (user_pk user) qid category user_answer keywords time rows).

Definition msg_unknown : str := lit "알 수 없음".
Definition msg_not_found : str := lit "문제를 찾을 수 없습니다.".

(** The body of the loop over [submission.answers]; the state of the loop
    is [correct_count] and [result_details]. *)
Definition grade_one (user : option User) (acc : Z * list Detail)
    (answer_data : AnswerData) : M (Z * list Detail) :=
  let '(correct_count, result_details) := acc in
  let user_answer :=
    strip (match data_answer answer_data with Some a => a | None => [] end) in
  match data_question_id answer_data with
  | None => ret acc
  | Some qid =>
      if negb (truthy qid) then ret acc
      else
        let category := category_prefix qid in
        located <-
          (match category with
           | Some c =>
               if truthy c && is_category c then
                 model <- lift_option KeyError (mapping_get QUESTION_TYPE_MAPPING c) ;;
                 found <- Query.first_by_id model qid ;;
                 ret (match found with Some q => Some (c, q) | None => None end)
               else scan_models qid QUESTION_TYPE_MAPPING
           | None => scan_models qid QUESTION_TYPE_MAPPING
           end) ;;
        match located with
        | None =>
            ret (correct_count,
                 result_details ++
                 [ {| detail_question_id := qid; detail_is_correct := false;
                      detail_points := 0; detail_user_answer := user_answer;
                      detail_correct_answer := msg_unknown;
                      detail_feedback := msg_not_found |} ])
        | Some (category, q) =>
            let correct :=
              str_eqb (py_lower rt user_answer) (py_lower rt (answer q)) in
            (match user with
             | Some u =>
                 if negb correct
                 then store_miss u qid category user_answer (keywords q)
                 else ret tt
             | None => ret tt
             end) ;;;
            ret ((if correct then correct_count + 1 else correct_count)%Z,
                 result_details ++
                 [ {| detail_question_id := qid; detail_is_correct := correct;
                      detail_points := if correct then 5 else 0;
                      detail_user_answer := user_answer;
                      detail_correct_answer := answer q;
                      detail_feedback := if correct then msg_correct else msg_wrong |} ])
        end
  end.

Fixpoint grade_all (user : option User) (acc : Z * list Detail)
    (answers : list AnswerData) : M (Z * list Detail) :=
  match answers with
  | [] => ret acc
  | answer_data :: rest =>
      acc' <- grade_one user acc answer_data ;;
      grade_all user acc' rest
  end.

(** [POST /api/submit-test] *)
Definition submit_test (submission : TestSubmission) : M TestResult :=
  try_except
    (user <-
       (match submission_user_id submission with
        | Some uid => if truthy uid then Query.user_by_id uid else ret None
        | None => ret None
        end) ;;
     graded <- grade_all user (0%Z, []) (answers submission) ;;
     let '(correct_count, result_details) := graded in
     let total_score := (correct_count * 5)%Z in
     ret {| correct_count := correct_count;
            total_questions := Z.of_nat (List.length (answers submission));
            total_score := total_score;
            result_details := result_details;
            is_passed := (60 <=? total_score)%Z |})
    (fun _ => raise (HTTPException 500)).

(** *** Personalized mode *)

(** [freq[keyword] = freq.get(keyword, 0) + 1] on a dict kept in insertion
    order. *)
Fixpoint count_keyword (keyword : str) (freq : list (str * Z)) : list (str * Z) :=
  match freq with
  | [] => [(keyword, 1%Z)]
  | (k, v) :: r =>
      if str_eqb k keyword then (k, (v + 1)%Z) :: r
      else (k, v) :: count_keyword keyword r
  end.

(** The two loops that fill [keyword_frequency]. *)
Definition count_keywords (freq : list (str * Z)) (wa : UserWrongAnswer)
    : list (str * Z) :=
  match wa_keywords wa with
  | Some ks =>
      if truthy ks then
        fold_left
          (fun freq keyword =>
             let keyword := strip keyword in
             if truthy keyword then count_keyword keyword freq else freq)
          (split_at (fun c => (c =? 44)%N) ks) freq
      else freq
  | None => freq
  end.

Definition keyword_frequency_of (wrong_answers : list UserWrongAnswer)
    : list (str * Z) :=
  fold_left count_keywords wrong_answers [].

(** [sorted(items, key=lambda x: x[1], reverse=True)]: a stable sort, so
    an item goes behind those whose weight is not smaller. *)
Fixpoint insert_by_weight (x : str * float) (sorted : list (str * float))
    : list (str * float) :=
  match sorted with
  | [] => [x]
  | y :: r =>
      if PrimFloat.ltb (snd y) (snd x) then x :: sorted
      else y :: insert_by_weight x r
  end.

Definition sorted_by_weight (items : list (str * float)) : list (str * float) :=
  fold_left (fun sorted x => insert_by_weight x sorted) items [].

(** [l[:n]], also for a negative [n]. *)
Definition slice_to {A} (l : list A) (n : Z) : list A :=
  if (0 <=? n)%Z then firstn (Z.to_nat n) l
  else firstn (Z.to_nat (Z.of_nat (List.length l) + n)) l.

(** [db.query(model).filter(model.keywords.like(pattern)).limit(n).all()] *)
Definition keywords_like (model : Category) (pattern : str) (n : Z)
    : M (list Question) :=
  rows <- Query.all model ;;
  ret (firstn (Z.to_nat n)
         (filter (fun q => match keywords q with
                           | Some ks => sql_like rt pattern ks
                           | None => false
                           end) rows)).

(** The inner loop of step 3, over the keywords by decreasing weight. *)
Fixpoint search_keywords (total_questions : Z) (wrong_ratio : float)
    (model : Category) (weights : list (str * float))
    (keyword_questions : list Row) : M (list Row) :=
  match weights with
  | [] => ret keyword_questions
  | (keyword, weight) :: rest =>
      n <- lift_option ValueError
             (PyNum.int_of_float
                (PyNum.float_of_int total_questions * wrong_ratio * weight
                 * PyNum.float_of_int 2)%float) ;;
      let search_limit := Z.max 1 n in
      let keyword_like := (lit "%" ++ keyword ++ lit "%")%list in
      keyword_matches <- keywords_like model keyword_like search_limit ;;
      search_keywords total_questions wrong_ratio model rest
        (keyword_questions ++ map (pair model) keyword_matches)
  end.

(** The outer loop of step 3, over the tables. *)
Fixpoint search_models (total_questions : Z) (wrong_ratio : float)
    (models : list (str * Category)) (weights : list (str * float))
    (keyword_questions : list Row) : M (list Row) :=
  match models with
  | [] => ret keyword_questions
  | (_, model) :: rest =>
      keyword_questions <-
        search_keywords total_questions wrong_ratio model weights keyword_questions ;;
      search_models total_questions wrong_ratio rest weights keyword_questions
  end.

(** The loop of step 5 over the shuffled categories. *)
Fixpoint fill_randomly (categories : list (str * Category))
    (questions_per_category remaining : Z) (selected_ids : list str)
    (result : list Row) : M (list Row) :=
  match categories with
  | [] => ret result
  | (_, model) :: rest =>
      if (remaining <=? 0)%Z then ret result
      else
        let category_count := Z.min questions_per_category remaining in
        random_questions <- Query.with_id_not_in model selected_ids ;;
        match random_questions with
        | [] => fill_randomly rest questions_per_category remaining selected_ids result
        | _ =>
            selected <-
              (if (category_count <? Z.of_nat (List.length random_questions))%Z
               then Random.sample random_questions category_count
               else ret random_questions) ;;
            fill_randomly rest questions_per_category
              (remaining - Z.of_nat (List.length selected))%Z
              (selected_ids ++ map id selected)
              (result ++ map (pair model) selected)
        end
  end.

(** Step 7: the first occurrence of every id, [total_questions] rows at
    most. *)
Fixpoint unique_upto (total_questions : Z) (unique_ids : list str)
    (unique_questions : list Row) (result : list Row) : list Row :=
  match result with
  | [] => unique_questions
  | q :: rest =>
      if negb (existsb (str_eqb (id (snd q))) unique_ids)
         && (Z.of_nat (List.length unique_questions) <? total_questions)%Z
      then unique_upto total_questions (id (snd q) :: unique_ids)
             (unique_questions ++ [q]) rest
      else unique_upto total_questions unique_ids unique_questions rest
  end.

(** The [try] block of [create_personalized_test]. *)
Definition personalized_test_body (uid : str) (wrong_ratio : float)
    (total_questions : Z) : M (list Row) :=
  user <- Query.user_by_id uid ;;
  match user with
  | None => raise (HTTPException 404)
  | Some _ =>
      all_wrong <- Query.wrong_answers ;;
      let wrong_answers := filter (fun wa => str_eqb (user_id wa) uid) all_wrong in
      let keyword_frequency := keyword_frequency_of wrong_answers in
      keyword_questions <-
        (match keyword_frequency with
         | [] => ret []
         | _ =>
             let total_frequency := fold_right Z.add 0%Z (map snd keyword_frequency) in
             let keyword_weights :=
               map (fun kv => (fst kv, PyNum.int_truediv (snd kv) total_frequency))
                   keyword_frequency in
             search_models total_questions wrong_ratio QUESTION_TYPE_MAPPING
               (sorted_by_weight keyword_weights) []
         end) ;;
      wanted <- share total_questions wrong_ratio ;;
      let wrong_questions_count :=
        Z.min (Z.of_nat (List.length keyword_questions)) wanted in
      let remaining_count := (total_questions - wrong_questions_count)%Z in
      let result := slice_to keyword_questions wrong_questions_count in
      let selected_ids := map (fun q => id (snd q)) result in
      result <-
        (if (0 <? remaining_count)%Z then
           categories <- Random.shuffle QUESTION_TYPE_MAPPING ;;
           let questions_per_category :=
             Z.max 1 (remaining_count / Z.of_nat (List.length categories)) in
           fill_randomly categories questions_per_category remaining_count
             selected_ids result
         else ret result) ;;
      result <- Random.shuffle result ;;
      ret (unique_upto total_questions [] [] result)
  end.

(** [GET /api/users/{user_id}/personalized-test]: on any exception, an
    [HTTPException] with status 500. *)
Definition create_personalized_test (uid : str) (wrong_ratio : float)
    (total_questions : Z) : M (list Row) :=
  try_except (personalized_test_body uid wrong_ratio total_questions)
    (fun _ => raise (HTTPException 500)).

(** *** Reading the bank *)

(** [GET /api/categories]: [list(QUESTION_TYPE_MAPPING.keys())] *)
Definition get_categories : list str := map fst QUESTION_TYPE_MAPPING.

(** [if difficulty: query = query.filter(model.difficulty == difficulty)]:
    no filter for [None] and for 0. *)
Definition of_difficulty (wanted : option Z) (rows : list Question) : list Question :=
  match wanted with
  | Some d =>
      if (d =? 0)%Z then rows
      else filter (fun q => (difficulty q =? d)%Z) rows
  | None => rows
  end.

(** [query.all()] and [query.count()] on the filtered query. *)
Definition query_all (model : Category) (wanted : option Z) : M (list Question) :=
  rows <- Query.all model ;; ret (of_difficulty wanted rows).

Definition query_count (model : Category) (wanted : option Z) : M Z :=
  rows <- Query.all model ;; ret (Z.of_nat (List.length (of_difficulty wanted rows))).

(** [l[n:]], also for a negative [n]. *)
Definition slice_from {A} (l : list A) (n : Z) : list A :=
  if (0 <=? n)%Z then skipn (Z.to_nat n) l
  else skipn (Z.to_nat (Z.of_nat (List.length l) + n)) l.

(** [random.choice(seq)] on a sequence that is not empty, given by its
    first element and the others: one draw. *)
Definition random_choice {A} (first : A) (others : list A) : M A :=
  fun w =>
    let '(d, ds) := Random.next_draw (draws w) in
    (Return (nth (d mod S (List.length others)) (first :: others) first),
     {| session := session w; draws := ds |}).

(** [d[key]] and [d[key] = value] on a dict kept in insertion order. *)
Fixpoint dict_get (d : list (str * Z)) (key : str) : option Z :=
  match d with
  | [] => None
  | (k, v) :: r => if str_eqb k key then Some v else dict_get r key
  end.

Fixpoint dict_set (d : list (str * Z)) (key : str) (value : Z) : list (str * Z) :=
  match d with
  | [] => [(key, value)]
  | (k, v) :: r =>
      if str_eqb k key then (k, value) :: r else (k, v) :: dict_set r key value
  end.

(** The first loop of [get_questions] over the shuffled categories, of
    which there are [n]; its state is [category_limits] and
    [total_needed]. *)
Fixpoint base_limits (n : Z) (categories : list str)
    (category_limits : list (str * Z)) (total_needed : Z) : list (str * Z) * Z :=
  match categories with
  | [] => (category_limits, total_needed)
  | cat :: rest =>
      if (total_needed <=? 0)%Z then (category_limits, total_needed)
      else
        let cat_limit := Z.max 1 (total_needed / n) in
        base_limits n rest (dict_set category_limits cat cat_limit)
          (total_needed - cat_limit)%Z
  end.

(** The second loop, which hands out what is left one by one; [None] is
    the [KeyError] of [category_limits[cat] += 1]. *)
Fixpoint spread_rest (categories : list str) (category_limits : list (str * Z))
    (total_needed : Z) : option (list (str * Z)) :=
  match categories with
  | [] => Some category_limits
  | cat :: rest =>
      if (total_needed <=? 0)%Z then Some category_limits
      else
        match dict_get category_limits cat with
        | Some v =>
            spread_rest rest (dict_set category_limits cat (v + 1)%Z)
              (total_needed - 1)%Z
        | None => None
        end
  end.

(** The third loop, over [category_limits.items()]. *)
Fixpoint collect_limited (wanted : option Z) (category_limits : list (str * Z))
    (result : list Row) : M (list Row) :=
  match category_limits with
  | [] => ret result
  | (cat, cat_limit) :: rest =>
      model <- lift_option KeyError (mapping_get QUESTION_TYPE_MAPPING cat) ;;
      total_count <- query_count model wanted ;;
      if (0 <? total_count)%Z then
        all_ids <- (rows <- query_all model wanted ;; ret (map id rows)) ;;
        selected_ids <-
          (if (total_count <=? cat_limit)%Z then ret all_ids
           else Random.sample all_ids cat_limit) ;;
        questions <- Query.with_id_in model selected_ids ;;
        collect_limited wanted rest (result ++ map (pair model) questions)
      else collect_limited wanted rest result
  end.

(** [GET /api/questions]; [limit] and [offset] arrive validated
    (1 to 100, and 0 or more). On any exception, the empty list. *)
Definition get_questions (category : option str) (wanted : option Z)
    (limit offset : Z) : M (list Row) :=
  try_except
    (if negb (named category) then
       let total_needed := limit in
       categories <- Random.shuffle (map fst QUESTION_TYPE_MAPPING) ;;
       let '(category_limits, total_needed) :=
         base_limits (Z.of_nat (List.length categories)) categories [] total_needed in
       category_limits <-
         lift_option KeyError (spread_rest categories category_limits total_needed) ;;
       result <- collect_limited wanted category_limits [] ;;
       result <- Random.shuffle result ;;
       ret (slice_to result limit)
     else
       let category := match category with Some c => c | None => [] end in
       if negb (is_category category) then raise (HTTPException 404)
       else
         model <- lift_option KeyError (mapping_get QUESTION_TYPE_MAPPING category) ;;
         total_count <- query_count model wanted ;;
         if (total_count =? 0)%Z then ret []
         else
           all_ids <- (rows <- query_all model wanted ;; ret (map id rows)) ;;
           let actual_limit := Z.min limit total_count in
           if (total_count <=? offset)%Z then ret []
           else
             let remaining_ids := slice_from all_ids offset in
             selected_ids <-
               (if (Z.of_nat (List.length remaining_ids) <=? actual_limit)%Z
                then ret remaining_ids
                else Random.sample remaining_ids actual_limit) ;;
             questions <- Query.with_id_in model selected_ids ;;
             questions <- Random.shuffle questions ;;
             ret (map (pair model) questions))
    (fun _ => ret []).

(** [GET /api/questions/{question_id}]: every exception of the [try]
    block, the 404 included, leaves as a 500. *)
Definition get_question (qid : str) : M Question :=
  try_except
    (let category := category_prefix qid in
     if negb (named category)
        || negb (match category with Some c => is_category c | None => false end)
     then
       found <- scan_models qid QUESTION_TYPE_MAPPING ;;
       match found with
       | Some (_, q) => ret q
       | None => raise (HTTPException 404)
       end
     else
       model <- lift_option KeyError
                  (match category with
                   | Some c => mapping_get QUESTION_TYPE_MAPPING c
                   | None => None
                   end) ;;
       found <- Query.first_by_id model qid ;;
       match found with
       | Some q => ret q
       | None => raise (HTTPException 404)
       end)
    (fun _ => raise (HTTPException 500)).

(** The loop of [get_random_question] over the shuffled categories: one
    question of every table that has one. An element is what [first()]
    returned. *)
Fixpoint one_of_each (wanted : option Z) (categories : list str)
    (all_questions : list (option Question)) : M (list (option Question)) :=
  match categories with
  | [] => ret all_questions
  | cat :: rest =>
      model <- lift_option KeyError (mapping_get QUESTION_TYPE_MAPPING cat) ;;
      question_ids <- (rows <- query_all model wanted ;; ret (map id rows)) ;;
      match question_ids with
      | [] => one_of_each wanted rest all_questions
      | first :: others =>
          selected_id <- random_choice first others ;;
          question <- Query.first_by_id model selected_id ;;
          one_of_each wanted rest (all_questions ++ [question])
      end
  end.

(** [GET /api/random]; the result is what [first()] returned. *)
Definition get_random_question (category : option str) (wanted : option Z)
    : M (option Question) :=
  try_except
    (let chosen := match category with Some c => c | None => [] end in
     if named category && negb (is_category chosen) then raise (HTTPException 404)
     else if named category then
       model <- lift_option KeyError (mapping_get QUESTION_TYPE_MAPPING chosen) ;;
       all_question_ids <- (rows <- query_all model wanted ;; ret (map id rows)) ;;
       match all_question_ids with
       | [] => raise (HTTPException 404)
       | first :: others =>
           selected_id <- random_choice first others ;;
           Query.first_by_id model selected_id
       end
     else
       categories <- Random.shuffle (map fst QUESTION_TYPE_MAPPING) ;;
       all_questions <- one_of_each wanted categories [] ;;
       match all_questions with
       | [] => raise (HTTPException 404)
       | first :: others => random_choice first others
       end)
    (fun _ => raise (HTTPException 500)).

(** *** The wrong answers of a user *)

Record WrongAnswerResponse := {
  war_id : Z;
  war_question_id : str;
  war_question_text : str;
  war_user_answer : option str;
  war_correct_answer : str;
  war_question_category : str;
  war_keywords : option str;
  war_attempt_count : Z;
  war_created_at : Z
}.

(** [order_by(UserWrongAnswer.created_at.desc())]: the latest first; rows
    of the same time are left in the order of the table, where the
    database is free. *)
Fixpoint insert_by_time (wa : UserWrongAnswer) (sorted : list UserWrongAnswer)
    : list UserWrongAnswer :=
  match sorted with
  | [] => [wa]
  | x :: r =>
      if (created_at x <? created_at wa)%Z then wa :: sorted
      else x :: insert_by_time wa r
  end.

Definition latest_first (rows : list UserWrongAnswer) : list UserWrongAnswer :=
  fold_left (fun sorted wa => insert_by_time wa sorted) rows [].

(** The loop over the page of wrong answers: a row whose question is not
    found gives no entry. *)
Fixpoint describe_wrong_answers (wrong_answers : list UserWrongAnswer)
    (result : list WrongAnswerResponse) : M (list WrongAnswerResponse) :=
  match wrong_answers with
  | [] => ret result
  | wa :: rest =>
      question <-
        (if is_category (question_category wa) then
           model <- lift_option KeyError
                      (mapping_get QUESTION_TYPE_MAPPING (question_category wa)) ;;
           Query.first_by_id model (question_id wa)
         else ret None) ;;
      match question with
      | Some q =>
          describe_wrong_answers rest
            (result ++
             [ {| war_id := wa_id wa;
                  war_question_id := question_id wa;
                  war_question_text := Models.question q;
                  war_user_answer := user_answer wa;
                  war_correct_answer := answer q;
                  war_question_category := question_category wa;
                  war_keywords := wa_keywords wa;
                  war_attempt_count := attempt_count wa;
                  war_created_at := created_at wa |} ])
      | None => describe_wrong_answers rest result
      end
  end.

(** [GET /api/users/{user_id}/wrong-answers]; [limit] and [offset] arrive
    validated (1 to 100, and 0 or more). *)
Definition get_user_wrong_answers (uid : str) (limit offset : Z)
    : M (list WrongAnswerResponse) :=
  try_except
    (user <- Query.user_by_id uid ;;
     match user with
     | None => raise (HTTPException 404)
     | Some _ =>
         all_wrong <- Query.wrong_answers ;;
         let wrong_answers :=
           firstn (Z.to_nat limit)
             (skipn (Z.to_nat offset)
                (latest_first (filter (fun wa => str_eqb (user_id wa) uid) all_wrong))) in
         describe_wrong_answers wrong_answers []
     end)
    (fun _ => raise (HTTPException 500)).

End Handlers.

End Api.

(** ** [app/routers/questions.py]: the two routes that look one question
    up. The user the routes depend on has been authenticated before the
    body runs. *)

Module Questions.

Section Routes.

Variable rt : Runtime.

(** The [QUESTION_TYPE_MAPPING] of this router. *)
Definition QUESTION_TYPE_MAPPING : list (str * Category) :=
  [ (lit "os", os); (lit "db", db); (lit "network", network);
    (lit "algorithm", algorithm); (lit "program", program);
    (lit "app_test", app_test); (lit "app_defect", app_defect);
    (lit "base_sql", base_sql); (lit "hard_sql", hard_sql) ].

(** [GET /questions/{question_type}/{question_id}] *)
Definition get_question (question_type question_id : str) : M Question :=
  match Api.mapping_get QUESTION_TYPE_MAPPING question_type with
  | None => raise (HTTPException 404)
  | Some model =>
      question <- Query.first_by_id model question_id ;;
      match question with
      | None => raise (HTTPException 404)
      | Some q => ret q
      end
  end.

(** The dict [evaluate_answer_endpoint] returns. *)
Record Evaluation := {
  is_correct : bool;
  correct_answer : str;
  feedback : str;
  example : option str
}.

Definition msg_correct : str := lit "정답입니다!".
Definition msg_retry : str := lit "틀렸습니다. 다시 시도해보세요.".

(** [POST /questions/evaluate-answer]; [submission_answer] is
    [submission.answer]. The branch of [use_advanced] is a [pass]. *)
Definition evaluate_answer_endpoint (submission_answer question_id question_type : str)
    (use_advanced : bool) : M Evaluation :=
  match Api.mapping_get QUESTION_TYPE_MAPPING question_type with
  | None => raise (HTTPException 400)
  | Some question_model =>
      question <- Query.first_by_id question_model question_id ;;
      match question with
      | None => raise (HTTPException 404)
      | Some q =>
          let is_correct := false in
          let feedback := [] in
          let '(is_correct, feedback) :=
            if use_advanced then (is_correct, feedback)
            else
              let is_correct :=
                str_eqb (py_lower rt (strip submission_answer))
                        (py_lower rt (strip (answer q))) in
              (is_correct, if is_correct then msg_correct else msg_retry) in
          ret {| is_correct := is_correct;
                 correct_answer := answer q;
                 feedback := feedback;
                 example := Models.example q |}
      end
  end.

End Routes.

End Questions.

(** ** Vocabulary of the statements *)

(** Two adjacent upper-case letters somewhere in the string. *)
Definition abbreviation_at (s : str) : Prop :=
  exists l1 c d l2, s = l1 ++ c :: d :: l2 /\ is_AZ c = true /\ is_AZ d = true.

(** A correct verdict with score 1.0, which is what every accepting stage
    returns. *)
Definition full_marks (v : AnswerComparison.Verdict) : Prop :=
  AnswerComparison.is_correct v = true /\ AnswerComparison.score v = 1.0%float.

(** ** Sample data *)

Module Sample.

Import AnswerComparison.

Definition newline : str := [10%N].

Definition ask (question answer : str) (example : option str) : QuestionData :=
  {| qd_question := Some question; qd_answer := Some answer; qd_example := example |}.

(** A question that asks for an English abbreviation. *)
Definition abbreviation_question : QuestionData :=
  ask (lit "전송 계층의 연결형 프로토콜을 영문 약어로 쓰시오.") (lit "TCP") None.

(** The same question with its options listed. *)
Definition abbreviation_options : QuestionData :=
  ask (lit "전송 계층의 연결형 프로토콜을 영문 약어로 쓰시오.") (lit "TCP")
      (Some (lit "1. TCP" ++ newline ++ lit "2. UDP")).

(** A list question. *)
Definition list_question : QuestionData :=
  ask (lit "OSI 하위 3계층을 순서대로 나열하시오.") (lit "A, B, C") None.


(** An enumerated-option question answered by number. *)
Definition snmp_question : QuestionData :=
  ask (lit "네트워크 관리 프로토콜을 고르시오.") (lit "2")
      (Some (lit "1. SMTP" ++ newline ++ lit "2. SNMP" ++ newline ++ lit "3. SSH")).


(** Grading with the defaults, the remote grader being unreachable. *)
Definition grade (user : str) (qd : QuestionData) : Verdict :=
  evaluate_answer Offline.runtime user qd true.

End Sample.

(** ** Sample database *)

Module Bank.

Definition row (qid text ans : str) (options : option str) (kw : option str) : Question :=
  {| id := qid; question := text; answer := ans; example := options;
     difficulty := 1; keywords := kw |}.

(** [n] rows with the ids prefix-1 to prefix-n, for [n] up to 9. *)
Definition numbered (prefix : str) (n : nat) : list Question :=
  map (fun i => row (prefix ++ lit "-" ++ [(48 + N.of_nat i)%N])
                    (lit "문제") (lit "정답") None None)
      (seq 1 n).

Definition list_row : Question :=
  row (lit "os-1") (lit "OSI 하위 3계층을 순서대로 나열하시오.") (lit "A, B, C") None None.

Definition abbreviation_row : Question :=
  row (lit "network-1") (lit "전송 계층의 연결형 프로토콜을 영문 약어로 쓰시오.")
      (lit "TCP") None None.

(** A database with two questions and one user. *)
Definition small : Session :=
  {| questions_of := fun c => match c with
                              | os => Some [list_row]
                              | network => Some [abbreviation_row]
                              | _ => Some []
                              end;
     users := Some [ {| user_pk := lit "u-1"; username := lit "kim";
                        email := lit "kim@example.com" |} ];
     user_wrong_answers := Some [];
     now := 1700000000 |}.

Definition name_of (c : Category) : str :=
  match c with
  | os => lit "os" | db => lit "db" | network => lit "network"
  | algorithm => lit "algorithm" | program => lit "program"
  | app_test => lit "app_test" | app_defect => lit "app_defect"
  | base_sql => lit "base_sql" | hard_sql => lit "hard_sql"
  end.

(** A database with six questions in every table, one user and no
    wrong-answer row. *)
Definition full : Session :=
  {| questions_of := fun c => Some (numbered (name_of c) 6);
     users := Some [ {| user_pk := lit "u-1"; username := lit "kim";
                        email := lit "kim@example.com" |} ];
     user_wrong_answers := Some [];
     now := 1700000000 |}.

(** The same database with the wrong-answer table out of reach. *)
Definition broken : Session :=
  {| questions_of := fun c => match c with
                              | db => None
                              | _ => Some (numbered (name_of c) 6)
                              end;
     users := Some [ {| user_pk := lit "u-1"; username := lit "kim";
                        email := lit "kim@example.com" |} ];
     user_wrong_answers := None;
     now := 1700000000 |}.

Definition world (s : Session) (ds : list nat) : World :=
  {| session := s; draws := ds |}.

Definition some_draws : list nat :=
  [17; 4; 23; 8; 15; 16; 42; 3; 9; 27; 1; 0; 6; 31; 12; 5; 2; 19; 7; 11;
   13; 29; 37; 41; 43; 47; 53; 59; 61; 67; 71; 73; 79; 83; 89; 97; 10; 14; 18; 20].

End Bank.

(** The [question_data] dict [evaluate_user_answer] builds from a row. *)
Definition question_data (q : Question) : AnswerComparison.QuestionData :=
  {| AnswerComparison.qd_question := Some (question q);
     AnswerComparison.qd_answer := Some (answer q);
     AnswerComparison.qd_example := Models.example q |}.

(** The correctness flag of the response of a handler, when it returns. *)
Definition endpoint_accepts (r : Outcome Api.AnswerResponse * World) : option bool :=
  match fst r with
  | Return resp => Some (Api.response_is_correct resp)
  | Raise _ => None
  end.

(** The invariant of the wrong-answer table: at most one row for every
    (user, question) pair. *)
Definition at_most_one_row (rows : list UserWrongAnswer) : Prop :=
  forall uid qid : str, List.length (filter (Api.same_pair uid qid) rows) <= 1.

(** The invariant on the table a handler leaves behind; nothing is asked
    of a table that cannot be read. *)
Definition table_invariant (w : World) : Prop :=
  match user_wrong_answers (session w) with
  | Some rows => at_most_one_row rows
  | None => True
  end.

(** A computation keeps a property of the world, also when it raises. *)
Definition keeps {A} (P : World -> Prop) (m : M A) : Prop :=
  forall w, P w -> P (snd (m w)).


(** The number of questions of one table in a generated test. *)
Definition count_of (c : Category) (result : list Row) : nat :=
  List.length (filter (fun r => Category_eqb (fst r) c) result).

(** The primary key of a question table: no id twice. *)
Definition primary_key (rows : list Question) : Prop := NoDup (map id rows).

(** The table of [c] can be read, has a primary key and holds at least
    [n] questions. *)
Definition holds (s : Session) (c : Category) (n : nat) : Prop :=
  exists rows,
    questions_of s c = Some rows /\ primary_key rows /\ n <= List.length rows.

(** The user has no row in the wrong-answer table. *)
Definition no_history (s : Session) (uid : str) : Prop :=
  forall rows, user_wrong_answers s = Some rows ->
               filter (fun wa => str_eqb (user_id wa) uid) rows = [].

(** [int(total_questions * wrong_ratio)] is defined and not negative, as
    the handler needs it to be for the number of keyword-sourced
    questions. *)
Definition share_defined (total_questions : Z) (wrong_ratio : float) : Prop :=
  exists k, PyNum.int_of_float (PyNum.float_of_int total_questions * wrong_ratio)%float
            = Some k /\ (0 <= k)%Z.

(** What is left of personalized mode without keyword-sourced questions:
    an even split of [total_questions] over the shuffled categories. *)
Definition even_split (total_questions : Z) : M (list Row) :=
  result <-
    (if (0 <? total_questions)%Z then
       categories <- Random.shuffle Api.QUESTION_TYPE_MAPPING ;;
       Api.fill_randomly categories
         (Z.max 1 (total_questions / Z.of_nat (List.length categories)))
         total_questions [] []
     else ret []) ;;
  result <- Random.shuffle result ;;
  ret (Api.unique_upto total_questions [] [] result).

(** Boolean check that no string occurs twice. *)
Fixpoint distinct (l : list str) : bool :=
  match l with
  | [] => true
  | x :: r => negb (existsb (str_eqb x) r) && distinct r
  end.

(** The nine categories, and a boolean check that no id of one table
    occurs in another one. *)
Definition all_categories : list Category := map snd Api.QUESTION_TYPE_MAPPING.

Definition tables_apart (T : Category -> list Question) : bool :=
  forallb (fun c =>
    forallb (fun c' =>
      Category_eqb c c'
      || forallb (fun q =>
           forallb (fun q' => negb (str_eqb (id q) (id q'))) (T c')) (T c))
      all_categories)
    all_categories.

(** The tables of the sample database. *)
Definition full_tables (c : Category) : list Question :=
  Bank.numbered (Bank.name_of c) 6.

(** The id of a row of a generated test. *)
Definition row_id (r : Row) : str := id (snd r).

(** The range the endpoint declares for [wrong_ratio]: 0.0 to 1.0. *)
Definition in_unit_interval (r : float) : Prop :=
  (0 <=? r)%float = true /\ (r <=? 1)%float = true.

(** The response [evaluate_user_answer] builds from the verdict of the
    router's own [evaluate_answer] on a stored question. *)
Definition local_response (rt : Runtime) (submitted : str) (q : Question)
    : Api.AnswerResponse :=
  let correct :=
    str_eqb (strip (py_lower rt submitted)) (strip (py_lower rt (answer q))) in
  {| Api.response_is_correct := correct;
     Api.response_score := if correct then 1.0%float else 0.0%float;
     Api.response_feedback := if correct then Api.msg_correct else Api.msg_wrong;
     Api.response_correct_answer := answer q;
     Api.response_missing_points := [];
     Api.response_incorrect_points := [];
     Api.response_example := Models.example q |}.

(** A submission of user u-1 with one wrong answer to question os-1. *)
Definition one_wrong_answer : Api.TestSubmission :=
  {| Api.answers := [ {| Api.data_question_id := Some (lit "os-1");
                         Api.data_answer := Some (lit "C, B, A") |} ];
     Api.submission_user_id := Some (lit "u-1") |}.

(** The (question, attempt_count) pairs of the wrong-answer table. *)
Definition attempts (w : World) : option (list (str * Z)) :=
  option_map (map (fun wa => (question_id wa, attempt_count wa)))
             (user_wrong_answers (session w)).

(** Two neighbours in a string are not both spaces. *)
Definition single_spaced (s : str) : Prop :=
  forall l1 c d l2, s = l1 ++ c :: d :: l2 ->
                    ~ (isspace c = true /\ isspace d = true).

(** The canonical form of a normalized text: no punctuation, no space
    other than U+0020, no space at either end and no two spaces in a row. *)
Definition normalized (s : str) : Prop :=
  (forall c, In c s -> is_punctuation c = false /\ (isspace c = true -> c = 32%N))
  /\ (forall c r, s = c :: r -> isspace c = false)
  /\ (forall c r, rev s = c :: r -> isspace c = false)
  /\ single_spaced s.

(** The ASCII comma written as a fullwidth comma. *)
Definition widen_commas (s : str) : str :=
  map (fun c => if (c =? 44)%N then 65292%N else c) s.

(** A verdict whose flag is the threshold test on its score and whose
    message agrees with the flag. *)
Definition graded_by_score (v : AnswerComparison.Verdict) : Prop :=
  AnswerComparison.is_correct v = PyNum.ge (AnswerComparison.score v) 0.7
  /\ (AnswerComparison.is_correct v = true ->
      AnswerComparison.feedback v = AnswerComparison.msg_correct).

(** The attempts the wrong-answer table has counted. *)
Definition total_attempts (rows : list UserWrongAnswer) : Z :=
  fold_right Z.add 0%Z (map attempt_count rows).

(** The rows of the other (user, question) pairs. *)
Definition other_pairs (uid qid : str) (rows : list UserWrongAnswer)
    : list UserWrongAnswer :=
  filter (fun wa => negb (Api.same_pair uid qid wa)) rows.

(** The points of a list of graded answers. *)
Definition points_of (details : list Api.Detail) : Z :=
  fold_right Z.add 0%Z (map Api.detail_points details).

(** The number of answers graded correct. *)
Definition correct_among (details : list Api.Detail) : Z :=
  Z.of_nat (List.length (filter Api.detail_is_correct details)).

(** The number of answers to a question of the bank that were graded
    wrong; an answer to a question that was not found has another
    message. *)
Definition missed_among (details : list Api.Detail) : Z :=
  Z.of_nat (List.length
              (filter (fun d => str_eqb (Api.detail_feedback d) Api.msg_wrong) details)).

(** The submission names a user the table of users holds. *)
Definition identifies (submission : Api.TestSubmission) (w : World) : bool :=
  match Api.submission_user_id submission with
  | Some uid =>
      truthy uid
      && match users (session w) with
         | Some us =>
             match find (fun u => str_eqb (user_pk u) uid) us with
             | Some _ => true
             | None => false
             end
         | None => false
         end
  | None => false
  end.

(** What [submit_test] has no write for. *)
Definition same_bank (w w' : World) : Prop :=
  questions_of (session w') = questions_of (session w)
  /\ users (session w') = users (session w)
  /\ now (session w') = now (session w)
  /\ draws w' = draws w.

(** An anonymous submission with a right and a wrong answer and one for a
    question that does not exist. *)
Definition anonymous_submission : Api.TestSubmission :=
  {| Api.answers := [ {| Api.data_question_id := Some (lit "network-1");
                         Api.data_answer := Some (lit " tcp ") |};
                      {| Api.data_question_id := Some (lit "os-1");
                         Api.data_answer := Some (lit "C, B, A") |};
                      {| Api.data_question_id := Some (lit "os-77");
                         Api.data_answer := None |} ];
     Api.submission_user_id := None |}.

(** The same answers sent by user u-1. *)
Definition identified_submission : Api.TestSubmission :=
  {| Api.answers := Api.answers anonymous_submission;
     Api.submission_user_id := Some (lit "u-1") |}.

(** A computation that does not write: started on the session [s] it
    leaves [s] behind, also when it raises, and what it returns satisfies
    [Q]. *)
Definition reads {A} (s : Session) (m : M A) (Q : A -> Prop) : Prop :=
  forall w, session w = s ->
            session (snd (m w)) = s /\ forall a, fst (m w) = Return a -> Q a.

(** The row is a row of the table of its class. *)
Definition stored_in (s : Session) (row : Row) : Prop :=
  exists rows, questions_of s (fst row) = Some rows /\ In (snd row) rows.

(** Every table that can be read has a primary key. *)
Definition keyed (s : Session) : Prop :=
  forall c rows, questions_of s c = Some rows -> primary_key rows.

(** What [first()] returned is a question of the table of [c] whose id is
    the id of a row of the wanted difficulty. *)
Definition drawn_from (s : Session) (wanted : option Z) (c : Category)
    (r : option Question) : Prop :=
  exists rows q,
    r = Some q /\ questions_of s c = Some rows /\ In q rows
    /\ In (id q) (map id (Api.of_difficulty wanted rows)).

(** A bank in which the table of db holds a question whose id has the
    prefix of os. *)
Definition misfiled : Session :=
  {| questions_of := fun c => match c with
                              | os => Some [Bank.list_row]
                              | db => Some [Bank.row (lit "os-7") (lit "문제") (lit "정답")
                                              None None]
                              | _ => Some []
                              end;
     users := Some [];
     user_wrong_answers := Some [];
     now := 1700000000 |}.

(** No element of the list is followed by a larger one. *)
Fixpoint descending (l : list Z) : Prop :=
  match l with
  | [] => True
  | a :: r => (forall b, In b r -> (b <= a)%Z) /\ descending r
  end.

(** The entry shows a row of the user in the wrong-answer table together
    with the question the row points to, found in the table its category
    names. *)
Definition describes (s : Session) (uid : str) (e : Api.WrongAnswerResponse) : Prop :=
  exists rows wa c qs q,
    user_wrong_answers s = Some rows /\ In wa rows /\ user_id wa = uid
    /\ Api.mapping_get Api.QUESTION_TYPE_MAPPING (question_category wa) = Some c
    /\ questions_of s c = Some qs /\ In q qs /\ id q = question_id wa
    /\ e = {| Api.war_id := wa_id wa;
              Api.war_question_id := question_id wa;
              Api.war_question_text := question q;
              Api.war_user_answer := user_answer wa;
              Api.war_correct_answer := answer q;
              Api.war_question_category := question_category wa;
              Api.war_keywords := wa_keywords wa;
              Api.war_attempt_count := attempt_count wa;
              Api.war_created_at := created_at wa |}.

(** A row a custom test may hold: a stored row, of any table but the
    one of algorithm. *)
Definition quota_row (s : Session) (row : Row) : Prop :=
  stored_in s row /\ Category_eqb (fst row) algorithm = false.

(** The ids of a list of rows. *)
Definition ids_of (rows : list Row) : list str := map (fun r => id (snd r)) rows.

(** What the table of [c] gives when [count] questions are asked of it:
    that many, or all it has when it has fewer. *)
Definition granted (s : Session) (c : Category) (count : Z) : nat :=
  match questions_of s c with
  | Some rows => Z.to_nat (Z.min count (Z.of_nat (List.length rows)))
  | None => 0
  end.

(** The first part of a quota that is split by a ratio; nothing is
    computed for a quota that is not positive. *)
Definition first_share (count : Z) (ratio : float) : option Z :=
  if (0 <? count)%Z
  then PyNum.int_of_float (PyNum.float_of_int count * ratio)%float
  else Some 0%Z.

(** What a configuration asks of every table; [None] when a share is not
    a number. *)
Definition asked (config : Api.TestConfigRequest) : option (Category -> Z) :=
  match first_share (Api.sql_count config) (Api.basic_sql_ratio config),
        first_share (Api.app_count config) (Api.app_test_ratio config) with
  | Some basic, Some tests =>
      Some (fun c =>
              match c with
              | os => Api.os_count config
              | network => Api.network_count config
              | db => Api.db_count config
              | base_sql => basic
              | hard_sql => (Api.sql_count config - basic)%Z
              | program => Api.program_count config
              | app_test => tests
              | app_defect => (Api.app_count config - tests)%Z
              | algorithm => 0%Z
              end)
  | _, _ => None
  end.

(** Every table can be read and has a primary key. *)
Definition complete (s : Session) : Prop :=
  forall c, exists rows, questions_of s c = Some rows /\ primary_key rows.

(** A configuration that asks more of some tables than the sample bank
    holds, and nothing of others. *)
Definition greedy_config : Api.TestConfigRequest :=
  {| Api.os_count := 10; Api.network_count := 0; Api.db_count := 2;
     Api.sql_count := 15; Api.basic_sql_ratio := 0.5; Api.program_count := -3;
     Api.app_count := 3; Api.app_test_ratio := 0.4 |}.

(** The sum of the limits of a plan. *)
Definition sum_limits (category_limits : list (str * Z)) : Z :=
  fold_right Z.add 0%Z (map snd category_limits).

(** The number of questions [get_questions] plans to fetch when no
    category is given: the sum of the limits its two loops hand out over
    the categories, in the order of the mapping. *)
Definition planned_total (limit : Z) : Z :=
  let categories := Api.get_categories in
  let '(category_limits, total_needed) :=
    Api.base_limits (Z.of_nat (List.length categories)) categories [] limit in
  match Api.spread_rest categories category_limits total_needed with
  | Some category_limits => sum_limits category_limits
  | None => 0%Z
  end.

(** What the first loop of the plan leaves of [total_needed] after [k]
    categories out of [n]. *)
Fixpoint residual (n : Z) (k : nat) (total_needed : Z) : Z :=
  match k with
  | 0 => total_needed
  | S k' =>
      if (total_needed <=? 0)%Z then total_needed
      else residual n k' (total_needed - Z.max 1 (total_needed / n))%Z
  end.

(** The sum of the plan in closed form: what the first loop takes off
    the limit, and one more for every category as far as the rest
    reaches. *)
Definition plan_formula (n : nat) (limit : Z) : Z :=
  let rest := residual (Z.of_nat n) n limit in
  (limit - rest + Z.max 0 (Z.min rest (Z.of_nat n)))%Z.

(** A keyword: two characters or more, no stopword, and made of
    characters that are neither spaces nor ASCII punctuation. *)
Definition keyword_like (k : str) : Prop :=
  2 <= List.length k
  /\ ~ In k AnswerComparison.stopwords
  /\ forall c, In c k -> isspace c = false /\ is_punctuation c = false.

(** The entry of a submission names a question. *)
Definition answered (answer_data : Api.AnswerData) : bool :=
  match Api.data_question_id answer_data with
  | Some qid => truthy qid
  | None => false
  end.

(** * Properties *)

(** ** Strings *)

Lemma str_eqb_eq (s1 s2 : str) : str_eqb s1 s2 = true <-> s1 = s2.
Proof.
  revert s2; induction s1 as [|c1 r1 IH]; intros [|c2 r2]; simpl;
    try (split; [discriminate | discriminate]); try tauto.
  rewrite andb_true_iff, N.eqb_eq, IH. split.
  - intros [-> ->]; reflexivity.
  - intros E; injection E; auto.
Qed.

Lemma str_eqb_refl (s : str) : str_eqb s s = true.
Proof. apply str_eqb_eq; reflexivity. Qed.

Lemma str_eqb_neq (s1 s2 : str) : str_eqb s1 s2 = false <-> s1 <> s2.
Proof.
  split.
  - intros E H. apply str_eqb_eq in H. congruence.
  - intros H. destruct (str_eqb s1 s2) eqn:E; [|reflexivity].
    apply str_eqb_eq in E. contradiction.
Qed.


Lemma truthy_true (s : str) : truthy s = true <-> s <> [].
Proof. destruct s; simpl; split; congruence. Qed.

(** A space is not an upper-case letter, and not a comma. *)
Lemma isspace_not_AZ (c : char) : isspace c = true -> is_AZ c = false.
Proof.
  unfold isspace, is_AZ. intros H.
  repeat (apply orb_true_iff in H; destruct H as [H|H]);
    repeat (apply andb_true_iff in H; destruct H as [? H]);
    repeat match goal with
           | H : (_ <=? _)%N = true |- _ => apply N.leb_le in H
           | H : (_ =? _)%N = true |- _ => apply N.eqb_eq in H
           end;
    apply andb_false_iff;
    rewrite !N.leb_gt; lia.
Qed.

Lemma has_abbreviation_iff (s : str) :
  AnswerComparison.has_abbreviation s = true <-> abbreviation_at s.
Proof.
  induction s as [|c r IH].
  - simpl. split; [discriminate|].
    intros (l1 & x & y & l2 & E & _). destruct l1; discriminate.
  - destruct r as [|d r'].
    + simpl. split; [discriminate|].
      intros (l1 & x & y & l2 & E & _). destruct l1 as [|? [|? ?]]; discriminate.
    + change (AnswerComparison.has_abbreviation (c :: d :: r'))
        with (is_AZ c && is_AZ d || AnswerComparison.has_abbreviation (d :: r')).
      rewrite orb_true_iff, andb_true_iff, IH. split.
      * intros [[Hc Hd] | (l1 & x & y & l2 & E & Hx & Hy)].
        -- exists [], c, d, r'. auto.
        -- exists (c :: l1), x, y, l2. rewrite E. auto.
      * intros (l1 & x & y & l2 & E & Hx & Hy). destruct l1 as [|z l1]; simpl in E.
        -- injection E as -> -> ->. left; auto.
        -- injection E as -> E. right. exists l1, x, y, l2. auto.
Qed.

Lemma abbreviation_at_rev (s : str) : abbreviation_at s -> abbreviation_at (rev s).
Proof.
  intros (l1 & c & d & l2 & -> & Hc & Hd).
  exists (rev l2), d, c, (rev l1). split; [|auto].
  rewrite rev_app_distr. simpl. rewrite <- !app_assoc. reflexivity.
Qed.

Lemma abbreviation_at_dropwhile (s : str) :
  abbreviation_at (dropwhile isspace s) <-> abbreviation_at s.
Proof.
  induction s as [|c r IH]; simpl; [tauto|].
  destruct (isspace c) eqn:Hs; [|tauto].
  rewrite IH. split.
  - intros (l1 & x & y & l2 & -> & Hx & Hy). exists (c :: l1), x, y, l2. auto.
  - intros (l1 & x & y & l2 & E & Hx & Hy). destruct l1 as [|z l1]; simpl in E.
    + injection E as -> _. apply isspace_not_AZ in Hs. congruence.
    + injection E as -> ->. exists l1, x, y, l2. auto.
Qed.

Lemma abbreviation_at_strip (s : str) :
  abbreviation_at (strip s) <-> abbreviation_at s.
Proof.
  unfold strip, rstrip, lstrip. split.
  - intros H. apply (proj1 (abbreviation_at_dropwhile s)).
    apply abbreviation_at_rev in H. rewrite rev_involutive in H.
    apply (proj1 (abbreviation_at_dropwhile _)) in H.
    apply abbreviation_at_rev in H. rewrite rev_involutive in H. exact H.
  - intros H. apply (proj2 (abbreviation_at_dropwhile s)) in H.
    apply abbreviation_at_rev in H.
    apply (proj2 (abbreviation_at_dropwhile _)) in H.
    apply abbreviation_at_rev in H. exact H.
Qed.

Lemma has_abbreviation_strip (s : str) :
  AnswerComparison.has_abbreviation (strip s) = AnswerComparison.has_abbreviation s.
Proof.
  apply eq_true_iff_eq.
  rewrite !has_abbreviation_iff. apply abbreviation_at_strip.
Qed.

(** ** The grading cascade *)

Section CascadeFacts.

Import AnswerComparison.

Variable rt : Runtime.

Lemma evaluate_answer_unfold (user answer : str) (qd : QuestionData) (adv : bool) :
  qd_answer qd = Some answer -> user <> [] ->
  evaluate_answer rt user qd adv =
  let correct := strip answer in
  let question := match qd_question qd with Some q => q | None => [] end in
  match
    or_else (stage_exact user correct)
    (or_else (stage_options rt user correct (qd_example qd))
    (or_else (stage_format user correct question (qd_example qd))
    (or_else (stage_list rt user correct (qd_example qd))
             (if adv then stage_remote rt user correct question (qd_example qd)
              else None))))
  with
  | Some v => v
  | None => stage_lexical rt user correct (qd_example qd)
  end.
Proof.
  intros Ha Hu. unfold evaluate_answer. rewrite Ha.
  apply truthy_true in Hu. rewrite Hu. reflexivity.
Qed.

Lemma accepted_full_marks (correct : str) (ex : option str) :
  full_marks (accepted correct ex).
Proof. split; reflexivity. Qed.

Lemma stage_exact_full_marks (user correct : str) (v : Verdict) :
  stage_exact user correct = Some v -> full_marks v.
Proof.
  unfold stage_exact. destruct (str_eqb _ _); [|discriminate].
  intros E; injection E as <-. apply accepted_full_marks.
Qed.





Lemma stage_format_verdict (user correct question : str) (ex : option str) (v : Verdict) :
  stage_format user correct question ex = Some v ->
  is_correct v = false /\ score v = 0.1%float.
Proof.
  unfold stage_format.
  destruct (_ && _); [|discriminate].
  destruct (negb _); [|discriminate].
  intros E; injection E as <-. split; reflexivity.
Qed.

End CascadeFacts.

(** ** The grading engine against its specification *)

Section CascadeTheorems.

Import AnswerComparison.

Variable rt : Runtime.

(** C2, amended. For every question and every non-empty user answer whose
    trimmed form equals the trimmed stored answer character for character
    (case included), grading returns is_correct = true and score = 1.0,
    with the remote grader on or off. *)
Theorem exact_match_graded_correct (user answer : str) (qd : QuestionData) (adv : bool) :
  qd_answer qd = Some answer ->
  user <> [] ->
  strip user = strip answer ->
  full_marks (evaluate_answer rt user qd adv).
Proof.
  intros Ha Hu Heq.
  rewrite (@evaluate_answer_unfold rt user answer qd adv Ha Hu). cbv zeta.
  destruct (stage_exact user (strip answer)) as [v|] eqn:E.
  - simpl. eapply stage_exact_full_marks; eauto.
  - exfalso. unfold stage_exact in E. rewrite Heq, str_eqb_refl in E. discriminate.
Qed.

(** The exact stage cannot accept an answer without an abbreviation when
    the stored answer has one. *)
Lemma stage_exact_needs_abbreviation (user answer : str) :
  has_abbreviation answer = true ->
  has_abbreviation user = false ->
  stage_exact user (strip answer) = None.
Proof.
  intros Ha Hu. unfold stage_exact.
  destruct (str_eqb (strip user) (strip answer)) eqn:E; [|reflexivity].
  apply str_eqb_eq in E.
  assert (H : has_abbreviation (strip user) = has_abbreviation (strip answer))
    by (rewrite E; reflexivity).
  rewrite !has_abbreviation_strip in H. congruence.
Qed.

(** C4, amended. For every question whose text demands an English
    abbreviation and whose stored answer contains an upper-case token of
    length at least 2, a non-empty user answer that contains no such token
    and that the enumerated-option stage does not accept is graded
    is_correct = false with score exactly 0.1, whatever the remote grader
    and the lexical score would say. *)
Theorem format_veto (user answer question : str) (qd : QuestionData) (adv : bool) :
  qd_answer qd = Some answer ->
  qd_question qd = Some question ->
  demands_abbreviation question = true ->
  has_abbreviation answer = true ->
  user <> [] ->
  has_abbreviation user = false ->
  stage_options rt user (strip answer) (qd_example qd) = None ->
  is_correct (evaluate_answer rt user qd adv) = false
  /\ score (evaluate_answer rt user qd adv) = 0.1%float.
Proof.
  intros Ha Hq Hd Hab Hu Hnab Hopt.
  rewrite (@evaluate_answer_unfold rt user answer qd adv Ha Hu). cbv zeta.
  rewrite (@stage_exact_needs_abbreviation user answer Hab Hnab), Hopt, Hq. simpl.
  destruct (stage_format user (strip answer) question (qd_example qd)) as [v|] eqn:E.
  - simpl. eapply stage_format_verdict; eauto.
  - exfalso. unfold stage_format in E.
    rewrite Hd, has_abbreviation_strip, Hab, Hnab in E. discriminate.
Qed.


End CascadeTheorems.

Section ListTheorems.

Import AnswerComparison.

Variable rt : Runtime.






End ListTheorems.

(** *** The cascade on the sample questions *)

Section CascadeRuns.

Import AnswerComparison.

Import Sample.

Lemma exact_match_witness :
  full_marks (grade (lit " TCP ") Sample.abbreviation_question).
Proof.
  apply (@exact_match_graded_correct Offline.runtime (lit " TCP ") (lit "TCP")
           Sample.abbreviation_question true).
  - reflexivity.
  - discriminate.
  - reflexivity.
Defined.

(** C2 as stated fails: "tcp" equals the stored "TCP" after trimming and
    case normalization, and is graded incorrect with score 0.1 because the
    question asks for an abbreviation; and the empty answer, equal to a
    blank stored answer after trimming, is graded incorrect with score 0. *)
Lemma case_insensitive_match_rejected :
  strip (Offline.lower (lit "tcp")) = strip (Offline.lower (lit "TCP"))
  /\ is_correct (grade (lit "tcp") Sample.abbreviation_question) = false
  /\ score (grade (lit "tcp") Sample.abbreviation_question) = 0.1%float
  /\ strip (Offline.lower (lit "")) = strip (Offline.lower (lit " "))
  /\ is_correct (grade (lit "") (Sample.ask (lit "?") (lit " ") None)) = false.
Proof. repeat split; vm_compute; reflexivity. Qed.

Lemma format_veto_witness :
  is_correct (grade (lit "전송제어프로토콜") Sample.abbreviation_question) = false
  /\ score (grade (lit "전송제어프로토콜") Sample.abbreviation_question) = 0.1%float.
Proof.
  apply (@format_veto Offline.runtime (lit "전송제어프로토콜") (lit "TCP")
           (lit "전송 계층의 연결형 프로토콜을 영문 약어로 쓰시오.")
           Sample.abbreviation_question true).
  - reflexivity.
  - reflexivity.
  - vm_compute; reflexivity.
  - reflexivity.
  - discriminate.
  - reflexivity.
  - reflexivity.
Defined.

(** C4 as stated fails: on a question that demands an abbreviation and
    lists its options, the answer "1" has no upper-case token and is graded
    correct with score 1.0 by the enumerated-option stage, which runs
    first; and the empty answer is graded with score 0, not 0.1. *)
Lemma format_veto_bypassed :
  demands_abbreviation (lit "전송 계층의 연결형 프로토콜을 영문 약어로 쓰시오.") = true
  /\ has_abbreviation (lit "TCP") = true
  /\ has_abbreviation (lit "1") = false
  /\ is_correct (grade (lit "1") Sample.abbreviation_options) = true
  /\ score (grade (lit "1") Sample.abbreviation_options) = 1.0%float
  /\ has_abbreviation (lit "") = false
  /\ score (grade (lit "") Sample.abbreviation_question) = 0.0%float.
Proof. repeat split; vm_compute; reflexivity. Qed.





End CascadeRuns.

(** ** The wrong-answer table *)

Section WrongAnswers.

Import Api.

Lemma find_none_filter {A} (p : A -> bool) (l : list A) :
  find p l = None <-> filter p l = [].
Proof.
  induction l as [|x r IH]; simpl; [tauto|].
  destruct (p x); [split; discriminate | exact IH].
Qed.

Lemma same_pair_eq (uid qid : str) (wa : UserWrongAnswer) :
  same_pair uid qid wa = true <-> user_id wa = uid /\ question_id wa = qid.
Proof. unfold same_pair. rewrite andb_true_iff, !str_eqb_eq. tauto. Qed.

(** The repeat branch touches neither the user nor the question of a row,
    so every pair keeps its rows. *)
Lemma update_first_filter_length (uid qid ans : str) (time : Z) (u q : str)
    (rows : list UserWrongAnswer) :
  List.length (filter (same_pair u q) (update_first uid qid ans time rows))
  = List.length (filter (same_pair u q) rows).
Proof.
  induction rows as [|wa r IH]; simpl; [reflexivity|].
  destruct (same_pair uid qid wa); simpl.
  - unfold same_pair; simpl. destruct (_ && _); reflexivity.
  - destruct (same_pair u q wa); simpl; rewrite IH; reflexivity.
Qed.



Lemma record_miss_keeps_invariant (uid qid category ans : str) (kw : option str)
    (time : Z) (rows : list UserWrongAnswer) :
  at_most_one_row rows ->
  at_most_one_row (record_miss uid qid category ans kw time rows).
Proof.
  intros Hinv u q. unfold record_miss.
  destruct (find (same_pair uid qid) rows) eqn:Hfind.
  - rewrite update_first_filter_length. apply Hinv.
  - apply find_none_filter in Hfind.
    rewrite filter_app, length_app. simpl.
    destruct (same_pair u q _) eqn:Hnew; simpl.
    + apply same_pair_eq in Hnew. simpl in Hnew. destruct Hnew as [<- <-].
      rewrite Hfind. simpl. lia.
    + specialize (Hinv u q). lia.
Qed.


End WrongAnswers.


(** *** The invariant through [submit_test] *)

Section KeepsInvariant.

Import Api.

Variable P : World -> Prop.

Lemma keeps_ret {A} (a : A) : keeps P (ret a).
Proof. intros w H; exact H. Qed.

Lemma keeps_raise {A} (e : Exception) : keeps P (@raise A e).
Proof. intros w H; exact H. Qed.

Lemma keeps_bind {A B} (m : M A) (k : A -> M B) :
  keeps P m -> (forall a, keeps P (k a)) -> keeps P (bind m k).
Proof.
  intros Hm Hk w H. unfold bind. specialize (Hm w H).
  destruct (m w) as [[a|e] w']; simpl in *; [apply Hk; exact Hm | exact Hm].
Qed.

Lemma keeps_try_except {A} (body : M A) (handler : Exception -> M A) :
  keeps P body -> (forall e, keeps P (handler e)) -> keeps P (try_except body handler).
Proof.
  intros Hb Hh w H. unfold try_except. specialize (Hb w H).
  destruct (body w) as [[a|e] w']; simpl in *; [exact Hb | apply Hh; exact Hb].
Qed.

Lemma keeps_lift_option {A} (e : Exception) (o : option A) : keeps P (lift_option e o).
Proof. destruct o; [apply keeps_ret | apply keeps_raise]. Qed.

Lemma keeps_all (c : Category) : keeps P (Query.all c).
Proof. intros w H. unfold Query.all. destruct (questions_of _ _); exact H. Qed.

Lemma keeps_first_by_id (c : Category) (qid : str) : keeps P (Query.first_by_id c qid).
Proof. apply keeps_bind; [apply keeps_all | intros; apply keeps_ret]. Qed.

Lemma keeps_user_by_id (uid : str) : keeps P (Query.user_by_id uid).
Proof. intros w H. unfold Query.user_by_id. destruct (users _); exact H. Qed.

Lemma keeps_wrong_answers : keeps P Query.wrong_answers.
Proof. intros w H. unfold Query.wrong_answers. destruct (user_wrong_answers _); exact H. Qed.

Lemma keeps_current_time : keeps P Query.current_time.
Proof. intros w H; exact H. Qed.

Lemma keeps_scan_models (qid : str) (models : list (str * Category)) :
  keeps P (scan_models qid models).
Proof.
  induction models as [|[name model] rest IH]; simpl; [apply keeps_ret|].
  apply keeps_bind; [apply keeps_first_by_id|].
  intros [q|]; [apply keeps_ret | exact IH].
Qed.

End KeepsInvariant.

Section SubmitTest.

Import Api.

Variable rt : Runtime.

(** The only write of [submit_test]: it stores what [record_miss] makes
    of the table it has just read. *)
Lemma store_miss_keeps_invariant (user : User) (qid category ans : str)
    (kw : option str) :
  keeps table_invariant (store_miss user qid category ans kw).
Proof.
  intros w H. unfold store_miss, bind, Query.wrong_answers, Query.current_time,
    Query.commit_wrong_answers.
  unfold table_invariant in *.
  destruct (user_wrong_answers (session w)) as [rows|] eqn:E; simpl.
  - apply record_miss_keeps_invariant. exact H.
  - rewrite E. exact I.
Qed.

Lemma grade_one_keeps_invariant (user : option User) (acc : Z * list Detail)
    (answer_data : AnswerData) :
  keeps table_invariant (grade_one rt user acc answer_data).
Proof.
  unfold grade_one. destruct acc as [n details].
  destruct (data_question_id answer_data) as [qid|]; [|apply keeps_ret].
  destruct (negb (truthy qid)); [apply keeps_ret|].
  apply keeps_bind.
  - destruct (category_prefix qid) as [c|]; [|apply keeps_scan_models].
    destruct (truthy c && is_category c); [|apply keeps_scan_models].
    apply keeps_bind; [apply keeps_lift_option|]. intros model.
    apply keeps_bind; [apply keeps_first_by_id|]. intros found. apply keeps_ret.
  - intros [[category q]|]; [|apply keeps_ret].
    apply keeps_bind; [|intros; apply keeps_ret].
    destruct user as [u|]; [|apply keeps_ret].
    destruct (negb _); [apply store_miss_keeps_invariant | apply keeps_ret].
Qed.

Lemma grade_all_keeps_invariant (user : option User) (answers : list AnswerData)
    (acc : Z * list Detail) :
  keeps table_invariant (grade_all rt user acc answers).
Proof.
  revert acc. induction answers as [|a rest IH]; intros acc; simpl.
  - apply keeps_ret.
  - apply keeps_bind; [apply grade_one_keeps_invariant | intros; apply IH].
Qed.

(** Whatever is submitted, and also when the handler ends in an error,
    [submit_test] leaves at most one row per (user, question). *)
Lemma submit_test_keeps_invariant (submission : TestSubmission) :
  keeps table_invariant (submit_test rt submission).
Proof.
  unfold submit_test. apply keeps_try_except; [|intros; apply keeps_raise].
  apply keeps_bind.
  - destruct (submission_user_id submission) as [uid|]; [|apply keeps_ret].
    destruct (truthy uid); [apply keeps_user_by_id | apply keeps_ret].
  - intros user. apply keeps_bind; [apply grade_all_keeps_invariant|].
    intros [n details]. apply keeps_ret.
Qed.

End SubmitTest.

(** ** The evaluate endpoint *)

Section EvaluateEndpoint.

Import Api.

Variable rt : Runtime.

Lemma mapping_get_named (name : str) (model : Category) :
  mapping_get QUESTION_TYPE_MAPPING name = Some model ->
  named (Some name) = true /\ is_category name = true.
Proof.
  intros H. split.
  - destruct name; [discriminate H | reflexivity].
  - unfold is_category. rewrite H. reflexivity.
Qed.

Lemma two_decimals_of_flag (b : bool) (w : World) :
  two_decimals (if b then 1.0%float else 0.0%float) w
  = (Return (if b then 1.0%float else 0.0%float), w).
Proof. destruct b; reflexivity. Qed.

Lemma bind_returns {A B} (m : M A) (k : A -> M B) (w w2 : World) (b : B) :
  bind m k w = (Return b, w2) ->
  exists a w1, m w = (Return a, w1) /\ k a w1 = (Return b, w2).
Proof.
  unfold bind. destruct (m w) as [[a|e] w1]; [|discriminate].
  intros H. exists a, w1. auto.
Qed.

Lemma try_except_returns {A} (body : M A) (handler : Exception -> M A)
    (w w' : World) (a : A) :
  try_except body handler w = (Return a, w') ->
  body w = (Return a, w')
  \/ exists e w1, body w = (Raise e, w1) /\ handler e w1 = (Return a, w').
Proof.
  unfold try_except. destruct (body w) as [[a0|e] w1]; intros H.
  - left. exact H.
  - right. exists e, w1. auto.
Qed.

Lemma first_by_id_returns (model : Category) (qid : str) (w w1 : World)
    (found : option Question) :
  Query.first_by_id model qid w = (Return found, w1) ->
  w1 = w /\ exists rows, questions_of (session w) model = Some rows
                         /\ found = Query.first_with_id qid rows.
Proof.
  unfold Query.first_by_id, Query.all, bind, ret.
  destruct (questions_of (session w) model) as [rows|]; [|discriminate].
  intros H. injection H as <- <-. split; [reflexivity|]. exists rows. auto.
Qed.

(** C1, amended. POST /api/evaluate returns the verdict of the router's
    own evaluate_answer, not that of the cascade. For every question that
    the endpoint finds under the table its id prefix names and every
    submitted answer, it returns: is_correct exactly when the submitted and
    the stored answer are equal after lower-casing and trimming, score 1.0
    when correct and 0.0 otherwise, no missing or incorrect points. And
    whenever the endpoint returns a response at all, it is this verdict on
    a stored question with the requested id, the database left as it
    was. *)
Theorem evaluate_endpoint_applies_local_rule (request : AnswerRequest) (w : World) :
  (forall (name : str) (model : Category) (rows : list Question) (q : Question),
     category_prefix (request_question_id request) = Some name ->
     mapping_get QUESTION_TYPE_MAPPING name = Some model ->
     questions_of (session w) model = Some rows ->
     Query.first_with_id (request_question_id request) rows = Some q ->
     evaluate_user_answer rt request w
     = (Return (local_response rt (request_answer request) q), w))
  /\
  (forall (response : AnswerResponse) (w' : World),
     evaluate_user_answer rt request w = (Return response, w') ->
     w' = w
     /\ exists model rows q,
          questions_of (session w) model = Some rows
          /\ Query.first_with_id (request_question_id request) rows = Some q
          /\ response = local_response rt (request_answer request) q).
Proof.
  split.
  - intros name model rows q Hp Hm Hrows Hq.
    destruct (mapping_get_named _ Hm) as [Hn Hc].
    unfold evaluate_user_answer, try_except, bind.
    rewrite Hp, Hn, Hc. cbn [negb orb]. unfold ret, lift_option.
    rewrite Hm.
    unfold Query.first_by_id, Query.all, bind, ret. rewrite Hrows, Hq.
    unfold evaluate_answer.
    cbn [score is_correct feedback correct_answer example].
    rewrite two_decimals_of_flag. reflexivity.
  - intros response w' H.
    unfold evaluate_user_answer in H. apply try_except_returns in H.
    destruct H as [E | (e & w1 & _ & Hh)]; [|discriminate Hh].
    apply bind_returns in E. destruct E as (category & w1 & Ecat & E).
    assert (Hw1 : w1 = w).
    { match type of Ecat with
      | ?m w = _ => assert (Hk : keeps (eq w) m)
      end.
      { destruct (_ || _); [|apply keeps_ret].
        apply keeps_bind; [apply keeps_scan_models|].
        intros found. destruct (negb _); [apply keeps_raise | apply keeps_ret]. }
      specialize (Hk w eq_refl). rewrite Ecat in Hk. simpl in Hk. congruence. }
    subst w1.
    apply bind_returns in E. destruct E as (model & w2 & Emodel & E).
    assert (w2 = w) as ->.
    { pose proof (@keeps_lift_option (eq w) _ KeyError
                    (match category with
                     | Some c => mapping_get QUESTION_TYPE_MAPPING c
                     | None => None
                     end) w eq_refl) as Hk.
      rewrite Emodel in Hk. simpl in Hk. congruence. }
    apply bind_returns in E. destruct E as (found & w3 & Efound & E).
    apply first_by_id_returns in Efound. destruct Efound as [-> (rows & Hrows & ->)].
    destruct (Query.first_with_id (request_question_id request) rows) as [q|] eqn:Hq;
      [|discriminate].
    unfold evaluate_answer in E.
    cbn [score is_correct feedback correct_answer example] in E.
    unfold bind in E. rewrite two_decimals_of_flag in E. unfold ret in E.
    injection E as <- <-.
    split; [reflexivity|]. exists model, rows, q. auto.
Qed.

End EvaluateEndpoint.

Lemma evaluate_endpoint_witness :
  endpoint_accepts
    (Api.evaluate_user_answer Offline.runtime
       {| Api.request_question_id := lit "network-1"; Api.request_answer := lit " tcp" |}
       (Bank.world Bank.small [])) = Some true.
Proof.
  rewrite (proj1 (@evaluate_endpoint_applies_local_rule Offline.runtime
                    {| Api.request_question_id := lit "network-1";
                       Api.request_answer := lit " tcp" |}
                    (Bank.world Bank.small []))
             (lit "network") network [Bank.abbreviation_row] Bank.abbreviation_row
             eq_refl eq_refl eq_refl eq_refl).
  reflexivity.
Defined.

(** C1 as stated fails in both directions: for the stored answer "A, B, C"
    the cascade accepts "A,B,C" (ordered-list stage) and the endpoint
    rejects it; for the stored answer "TCP" of a question that asks for an
    abbreviation the endpoint accepts "tcp" and the cascade rejects it
    (format check). *)
Lemma endpoint_differs_from_cascade :
  (endpoint_accepts
     (Api.evaluate_user_answer Offline.runtime
        {| Api.request_question_id := lit "os-1"; Api.request_answer := lit "A,B,C" |}
        (Bank.world Bank.small [])) = Some false
   /\ AnswerComparison.is_correct
        (AnswerComparison.evaluate_answer Offline.runtime (lit "A,B,C")
           (question_data Bank.list_row) true) = true)
  /\
  (endpoint_accepts
     (Api.evaluate_user_answer Offline.runtime
        {| Api.request_question_id := lit "network-1"; Api.request_answer := lit "tcp" |}
        (Bank.world Bank.small [])) = Some true
   /\ AnswerComparison.is_correct
        (AnswerComparison.evaluate_answer Offline.runtime (lit "tcp")
           (question_data Bank.abbreviation_row) true) = false).
Proof. repeat split; vm_compute; reflexivity. Qed.

(** ** The random generator *)

Section RandomFacts.

Context {A : Type}.

Lemma take_nth_spec (i : nat) (l : list A) :
  i < List.length l ->
  exists x l', Random.take_nth i l = Some (x, l') /\ Permutation (x :: l') l.
Proof.
  revert i; induction l as [|y r IH]; intros i Hi; simpl in Hi; [lia|].
  destruct i as [|i]; simpl.
  - exists y, r. split; [reflexivity | apply Permutation_refl].
  - destruct (IH i ltac:(lia)) as (x & l' & E & Hp). rewrite E.
    exists x, (y :: l'). split; [reflexivity|].
    eapply perm_trans; [apply perm_swap|]. apply perm_skip. exact Hp.
Qed.

(** [k] draws give [k] elements, which together with the elements left
    over are the pool. *)
Lemma choose_spec (k : nat) (pool : list A) (ds : list nat) :
  k <= List.length pool ->
  List.length (fst (Random.choose k pool ds)) = k
  /\ exists rest, Permutation (fst (Random.choose k pool ds) ++ rest) pool.
Proof.
  revert pool ds; induction k as [|k IH]; intros pool ds Hk; simpl.
  - split; [reflexivity|]. exists pool. apply Permutation_refl.
  - destruct (Random.next_draw ds) as [d ds'].
    assert (Hpos : List.length pool <> 0) by lia.
    destruct (@take_nth_spec (d mod List.length pool) pool
                (Nat.mod_upper_bound _ _ Hpos)) as (x & pool' & E & Hp).
    rewrite E.
    assert (Hlen : List.length pool = S (List.length pool'))
      by (rewrite <- (Permutation_length Hp); reflexivity).
    destruct (IH pool' ds' ltac:(lia)) as [Hl (rest & Hr)].
    destruct (Random.choose k pool' ds') as [xs ds'']; simpl in *.
    split; [lia|]. exists rest.
    eapply perm_trans; [|exact Hp]. apply perm_skip. exact Hr.
Qed.

Lemma choose_all (pool : list A) (ds : list nat) :
  Permutation (fst (Random.choose (List.length pool) pool ds)) pool.
Proof.
  destruct (@choose_spec (List.length pool) pool ds (le_n _)) as [Hl (rest & Hr)].
  assert (rest = []) as ->.
  { apply Permutation_length in Hr. rewrite length_app in Hr.
    destruct rest; [reflexivity | simpl in Hr; lia]. }
  rewrite app_nil_r in Hr. exact Hr.
Qed.

Lemma sample_spec (population : list A) (k : Z) (w : World) :
  (0 <= k <= Z.of_nat (List.length population))%Z ->
  exists xs w',
    Random.sample population k w = (Return xs, w')
    /\ session w' = session w
    /\ List.length xs = Z.to_nat k
    /\ exists rest, Permutation (xs ++ rest) population.
Proof.
  intros Hk. unfold Random.sample.
  replace ((k <? 0)%Z || (Z.of_nat (List.length population) <? k)%Z) with false
    by (symmetry; apply orb_false_iff; split; apply Z.ltb_ge; lia).
  destruct (@choose_spec (Z.to_nat k) population (draws w) ltac:(lia)) as [Hl Hr].
  destruct (Random.choose (Z.to_nat k) population (draws w)) as [xs ds]; simpl in *.
  exists xs, {| session := session w; draws := ds |}. auto.
Qed.

Lemma shuffle_spec (x : list A) (w : World) :
  exists xs w',
    Random.shuffle x w = (Return xs, w')
    /\ session w' = session w
    /\ Permutation xs x.
Proof.
  unfold Random.shuffle. pose proof (choose_all x (draws w)) as Hp.
  destruct (Random.choose (List.length x) x (draws w)) as [xs ds]; simpl in *.
  exists xs, {| session := session w; draws := ds |}. auto.
Qed.

End RandomFacts.

Lemma bind_return {A B} (m : M A) (k : A -> M B) (w w' : World) (a : A) :
  m w = (Return a, w') -> bind m k w = k a w'.
Proof. intros E. unfold bind. rewrite E. reflexivity. Qed.

Lemma bind_raise {A B} (m : M A) (k : A -> M B) (w w' : World) (e : Exception) :
  m w = (Raise e, w') -> bind m k w = (Raise e, w').
Proof. intros E. unfold bind. rewrite E. reflexivity. Qed.

Lemma filter_length_permutation {A} (p : A -> bool) (l l' : list A) :
  Permutation l l' -> List.length (filter p l) = List.length (filter p l').
Proof.
  induction 1; simpl; try congruence.
  - destruct (p x); simpl; congruence.
  - destruct (p x), (p y); reflexivity.
Qed.

(** ** Quota mode *)

Section QuotaMode.

Import Api.

Lemma id_in_In (ids : list str) (q : Question) :
  Query.id_in ids q = true <-> In (id q) ids.
Proof.
  unfold Query.id_in. rewrite existsb_exists. split.
  - intros (x & Hin & E). apply str_eqb_eq in E. congruence.
  - intros H. exists (id q). split; [exact H | apply str_eqb_refl].
Qed.

Lemma primary_key_filter (p : Question -> bool) (rows : list Question) :
  primary_key rows -> primary_key (filter p rows).
Proof.
  unfold primary_key. induction rows as [|q r IH]; simpl; intros H; [exact H|].
  inversion H as [|? ? Hnotin Hr]; subst.
  destruct (p q); simpl; [|auto].
  constructor; [|auto].
  intros Hin. apply Hnotin. apply in_map_iff in Hin. destruct Hin as (x & E & Hx).
  apply filter_In in Hx. apply in_map_iff. exists x. tauto.
Qed.

(** Under a primary key, selecting by a list of distinct ids of the table
    returns as many rows as there are ids. *)
Lemma selected_rows_length (rows : list Question) (sel : list str) :
  primary_key rows -> NoDup sel -> incl sel (map id rows) ->
  List.length (filter (Query.id_in sel) rows) = List.length sel.
Proof.
  intros Hpk Hnd Hincl.
  rewrite <- (length_map id (filter (Query.id_in sel) rows)).
  apply Nat.le_antisymm.
  - apply NoDup_incl_length; [apply (primary_key_filter _ Hpk)|].
    intros x Hx. apply in_map_iff in Hx. destruct Hx as (q & <- & Hq).
    apply filter_In in Hq. apply id_in_In. tauto.
  - apply NoDup_incl_length; [exact Hnd|].
    intros x Hx. pose proof (Hincl x Hx) as Hrow.
    apply in_map_iff in Hrow. destruct Hrow as (q & <- & Hq).
    apply in_map. apply filter_In. split; [exact Hq | apply id_in_In; exact Hx].
Qed.

(** The repeated block on a readable table with a primary key and enough
    rows: exactly [count] rows of the table, the session untouched. *)
Lemma draw_from_spec (model : Category) (count : Z) (rows : list Question) (w : World) :
  questions_of (session w) model = Some rows ->
  primary_key rows ->
  (0 <= count <= Z.of_nat (List.length rows))%Z ->
  exists qs w',
    draw_from model count w = (Return (map (pair model) qs), w')
    /\ session w' = session w
    /\ List.length qs = Z.to_nat count.
Proof.
  intros Hrows Hpk Hcount.
  unfold draw_from, Query.with_id_in, Query.all, bind, ret. rewrite Hrows.
  rewrite length_map.
  replace (count <=? Z.of_nat (List.length rows))%Z with true
    by (symmetry; apply Z.leb_le; lia).
  destruct (@sample_spec _ (map id rows) count w
              ltac:(rewrite length_map; exact Hcount))
    as (sel & w' & E & Hs & Hlen & rest & Hperm).
  rewrite E, Hs, Hrows.
  exists (filter (Query.id_in sel) rows), w'.
  split; [reflexivity|]. split; [exact Hs|].
  rewrite <- Hlen. apply selected_rows_length; [exact Hpk | |].
  - assert (Hnd : NoDup (sel ++ rest))
      by (eapply Permutation_NoDup; [apply Permutation_sym; exact Hperm | exact Hpk]).
    apply NoDup_app_remove_r in Hnd. exact Hnd.
  - intros x Hx. eapply Permutation_in; [exact Hperm|]. apply in_or_app. auto.
Qed.

Lemma count_of_app (c : Category) (l1 l2 : list Row) :
  count_of c (l1 ++ l2) = count_of c l1 + count_of c l2.
Proof. unfold count_of. rewrite filter_app, length_app. reflexivity. Qed.

Lemma count_of_tagged (c model : Category) (qs : list Question) :
  count_of c (map (pair model) qs)
  = if Category_eqb model c then List.length qs else 0.
Proof.
  unfold count_of. induction qs as [|q r IH]; simpl.
  - destruct (Category_eqb model c); reflexivity.
  - destruct (Category_eqb model c); simpl in *; rewrite IH; reflexivity.
Qed.

Lemma count_of_permutation (c : Category) (l l' : list Row) :
  Permutation l l' -> count_of c l = count_of c l'.
Proof. apply filter_length_permutation. Qed.

(** One [if count > 0] block of [create_custom_test] on a table that
    holds its quota. *)
Lemma extend_from_spec (result : list Row) (model : Category) (count : Z)
    (rows : list Question) (w : World) :
  questions_of (session w) model = Some rows ->
  primary_key rows ->
  (0 < count <= Z.of_nat (List.length rows))%Z ->
  exists result' w',
    extend_from result model count w = (Return result', w')
    /\ session w' = session w
    /\ List.length result' = List.length result + Z.to_nat count
    /\ forall c, count_of c result'
                 = count_of c result
                   + if Category_eqb model c then Z.to_nat count else 0.
Proof.
  intros Hrows Hpk Hcount. unfold extend_from.
  replace (0 <? count)%Z with true by (symmetry; apply Z.ltb_lt; lia).
  destruct (@draw_from_spec model count rows w Hrows Hpk ltac:(lia))
    as (qs & w' & E & Hs & Hlen).
  erewrite bind_return; [|exact E]. unfold ret.
  exists (result ++ map (pair model) qs), w'.
  split; [reflexivity|]. split; [exact Hs|]. split.
  - rewrite length_app, length_map, Hlen. reflexivity.
  - intros c. rewrite count_of_app, count_of_tagged, Hlen. reflexivity.
Qed.

End QuotaMode.

Section StandardTest.

Import Api.

Lemma share_of_sql (w : World) : share 4 0.5 w = (Return 2%Z, w).
Proof. reflexivity. Qed.

Lemma share_of_app (w : World) : share 1 0.5 w = (Return 0%Z, w).
Proof. reflexivity. Qed.

Lemma extend_from_nothing (result : list Row) (model : Category) (w : World) :
  extend_from result model 0 w = (Return result, w).
Proof. reflexivity. Qed.

Lemma bind_assoc {A B C} (m : M A) (f : A -> M B) (g : B -> M C) (w : World) :
  bind (bind m f) g w = bind m (fun x => bind (f x) g) w.
Proof. unfold bind. destruct (m w) as [[a|e] w']; reflexivity. Qed.

(** One block of the handler: the table holds its quota, so the block
    returns and the proof goes on in the world it leaves. *)
Ltac take_quota Hholds :=
  let rows := fresh "rows" in
  let Hrows := fresh "Hrows" in
  let Hpk := fresh "Hpk" in
  let Hn := fresh "Hn" in
  let E := fresh "E" in
  let Hs := fresh "Hs" in
  let Hl := fresh "Hl" in
  let Hc := fresh "Hc" in
  destruct Hholds as (rows & Hrows & Hpk & Hn);
  match goal with
  | |- context [bind (extend_from ?r ?m ?n) _ ?w0] =>
      try match goal with
          | Hs0 : session w0 = session _ |- _ => rewrite <- Hs0 in Hrows
          end;
      destruct (@extend_from_spec r m n rows w0 Hrows Hpk ltac:(lia))
        as (? & ? & E & Hs & Hl & Hc);
      erewrite bind_return; [|exact E];
      try match goal with
          | Hs0 : session w0 = session _ |- _ => rewrite Hs0 in Hs
          end
  end.

Ltac count_rows :=
  repeat match goal with
         | H : forall c : Category, count_of c ?r = _ |- context [count_of _ ?r] =>
             rewrite H
         | H : List.length ?r = _ |- context [List.length ?r] => rewrite H
         end;
  reflexivity.

(** C6. Provided the tables hold their quotas (os 3, network 3, db 3,
    base_sql 2, hard_sql 2, program 6, app_defect 1), the standard test has
    exactly 20 questions: 3 os, 3 network, 3 db, 4 SQL as int(4 * 0.5) = 2
    basic and 2 advanced, 6 program, and 1 application question as
    int(1 * 0.5) = 0 test and 1 defect; none comes from the algorithm
    table. *)
Theorem standard_test_composition (w : World) :
  holds (session w) os 3 -> holds (session w) network 3 -> holds (session w) db 3 ->
  holds (session w) base_sql 2 -> holds (session w) hard_sql 2 ->
  holds (session w) program 6 -> holds (session w) app_defect 1 ->
  exists result w',
    create_standard_test w = (Return result, w')
    /\ List.length result = 20
    /\ count_of os result = 3 /\ count_of network result = 3
    /\ count_of db result = 3
    /\ count_of base_sql result = 2 /\ count_of hard_sql result = 2
    /\ count_of program result = 6
    /\ count_of app_test result = 0 /\ count_of app_defect result = 1
    /\ count_of algorithm result = 0.
Proof.
  intros Hos Hnet Hdb Hbase Hhard Hprog Hdef.
  unfold create_standard_test, create_custom_test, custom_test_body, try_except.
  cbn [os_count network_count db_count sql_count basic_sql_ratio program_count
       app_count app_test_ratio standard_config].
  change (0 <? 4)%Z with true. change (0 <? 1)%Z with true. cbv iota.
  take_quota Hos. take_quota Hnet. take_quota Hdb.
  rewrite bind_assoc. erewrite bind_return; [|apply share_of_sql].
  change (4 - 2)%Z with 2%Z. rewrite bind_assoc.
  take_quota Hbase. take_quota Hhard. take_quota Hprog.
  rewrite bind_assoc. erewrite bind_return; [|apply share_of_app].
  change (1 - 0)%Z with 1%Z. rewrite bind_assoc.
  erewrite bind_return; [|apply extend_from_nothing].
  take_quota Hdef.
  match goal with
  | |- context [Random.shuffle ?r ?w0] =>
      destruct (shuffle_spec r w0) as (shuffled & w' & Esh & _ & Hperm)
  end.
  rewrite Esh. exists shuffled, w'. split; [reflexivity|].
  rewrite (Permutation_length Hperm).
  rewrite !(count_of_permutation _ Hperm).
  repeat split; count_rows.
Qed.

End StandardTest.

(** ** Floating-point shares *)

Section Shares.

Local Unset Implicit Arguments.
Local Open Scope Z_scope.

Lemma digits_log2 (p : positive) : Z.pos (digits2_pos p) = Z.log2 (Z.pos p) + 1.
Proof.
  assert (H : forall q, digits2_pos q = Pos.size q)
    by (induction q; simpl; congruence).
  rewrite H. destruct p as [q|q|]; simpl; try reflexivity; rewrite Pos.add_1_r; reflexivity.
Qed.

Lemma shr_1_bounds (mrs : shr_record) :
  0 <= shr_m mrs -> 0 <= shr_m (shr_1 mrs) <= shr_m mrs.
Proof.
  destruct mrs as [m r s]. simpl. destruct m as [|[p|p|]|p]; simpl; lia.
Qed.

Lemma iter_shr_1_bounds (p : positive) :
  forall mrs, 0 <= shr_m mrs -> 0 <= shr_m (iter_pos shr_1 p mrs) <= shr_m mrs.
Proof.
  induction p as [p IH|p IH|]; intros mrs H; simpl.
  - pose proof (shr_1_bounds mrs H) as H1.
    pose proof (IH (shr_1 mrs) ltac:(lia)) as H2.
    pose proof (IH (iter_pos shr_1 p (shr_1 mrs)) ltac:(lia)) as H3. lia.
  - pose proof (IH mrs H) as H2.
    pose proof (IH (iter_pos shr_1 p mrs) ltac:(lia)) as H3. lia.
  - apply shr_1_bounds. exact H.
Qed.

Lemma shr_fexp_bounds (m e : Z) :
  0 <= m ->
  let '(mrs, e') := shr_fexp prec emax m e loc_Exact in
  0 <= shr_m mrs <= m
  /\ (e' = e \/ e' = fexp prec emax (Zdigits2 m + e)).
Proof.
  intros Hm. unfold shr_fexp, shr.
  destruct (fexp prec emax (Zdigits2 m + e) - e) as [|n|n] eqn:E; simpl.
  - split; [lia | left; reflexivity].
  - split; [|right; lia].
    apply (iter_shr_1_bounds n {| shr_m := m; shr_r := false; shr_s := false |}). exact Hm.
  - split; [lia | left; reflexivity].
Qed.

Lemma round_nearest_even_bounds (m : Z) (l : location) :
  m <= round_nearest_even m l <= m + 1.
Proof. destruct l as [|[| |]]; simpl; try lia. destruct (Z.even m); lia. Qed.

Lemma Zdigits2_log2 (m : Z) : 0 < m -> Zdigits2 m = Z.log2 m + 1.
Proof. destruct m; try lia. intros _. apply digits_log2. Qed.

Lemma Zdigits2_bound (m b : Z) : 0 <= m -> m <= b -> Zdigits2 m <= Z.log2 b + 1.
Proof.
  intros H0 Hb. destruct (Z.eq_dec m 0) as [->|Hn].
  - simpl. pose proof (Z.log2_nonneg b). lia.
  - rewrite Zdigits2_log2 by lia. pose proof (Z.log2_le_mono m b Hb). lia.
Qed.

(** Rounding a positive mantissa of moderate size gives a zero or a finite
    positive number. *)
Lemma binary_round_aux_finite (m e : Z) :
  0 < m -> Z.log2 m <= 110 -> e <= 900 -> Z.log2 m + e <= 700 ->
  (exists s, binary_round_aux prec emax false m e loc_Exact = S754_zero s)
  \/ (exists m' e', binary_round_aux prec emax false m e loc_Exact = S754_finite false m' e').
Proof.
  intros Hm Hlog He Hsum. unfold binary_round_aux.
  pose proof (shr_fexp_bounds m e ltac:(lia)) as H1.
  destruct (shr_fexp prec emax m e loc_Exact) as [mrs1 e1].
  destruct H1 as [Hm1 He1].
  pose proof (round_nearest_even_bounds (shr_m mrs1) (loc_of_shr_record mrs1)) as Hr.
  set (m2 := round_nearest_even (shr_m mrs1) (loc_of_shr_record mrs1)) in *.
  pose proof (shr_fexp_bounds m2 e1 ltac:(lia)) as H2.
  destruct (shr_fexp prec emax m2 e1 loc_Exact) as [mrs2 e2].
  destruct H2 as [Hm2 He2].
  destruct (shr_m mrs2) as [|p|p] eqn:Ep.
  - left. eexists. reflexivity.
  - right.
    assert (Hd1 : Zdigits2 m = Z.log2 m + 1) by (apply Zdigits2_log2; lia).
    assert (Hd2 : Zdigits2 m2 <= Z.log2 m + 2).
    { pose proof (Zdigits2_bound m2 (2 * m) ltac:(lia) ltac:(lia)) as Hb.
      rewrite Z.log2_double in Hb by lia. lia. }
    assert (Hf : forall z, fexp prec emax z = Z.max (z - 53) (-1074)) by reflexivity.
    rewrite Hf in He1, He2.
    replace (e2 <=? emax - prec) with true by (symmetry; apply Z.leb_le; change (emax - prec) with 971; lia).
    eexists. eexists. reflexivity.
  - lia.
Qed.

Lemma int_of_nonneg (x : spec_float) :
  (exists s, x = S754_zero s) \/ (exists m e, x = S754_finite false m e) ->
  exists k,
    match x with
    | S754_zero _ => Some 0%Z
    | S754_finite sign m e =>
        let mag := if (0 <=? e)%Z then (Z.pos m * 2 ^ e)%Z
                   else (Z.pos m / 2 ^ (- e))%Z in
        Some (if sign then (- mag)%Z else mag)
    | S754_infinity _ | S754_nan => None
    end = Some k /\ 0 <= k.
Proof.
  intros [[s ->] | (m & e & ->)].
  - exists 0. split; [reflexivity | lia].
  - eexists. split; [reflexivity|]. cbv zeta.
    destruct (0 <=? e) eqn:E.
    + apply Z.leb_le in E. pose proof (Z.pow_nonneg 2 e ltac:(lia)). nia.
    + apply Z.div_pos; [lia|]. apply Z.pow_pos_nonneg; lia.
Qed.

(** A ratio between 0 and 1 is a zero or a positive number below 2. *)
Lemma unit_interval_shape (r : float) :
  (0 <=? r)%float = true -> (r <=? 1)%float = true ->
  (exists s, Prim2SF r = S754_zero s)
  \/ (exists m e, Prim2SF r = S754_finite false m e
                  /\ Z.pos (digits2_pos m) <= 53 /\ e <= -52).
Proof.
  intros H0 H1. rewrite leb_spec in H0, H1.
  pose proof (Prim2SF_valid r) as Hv.
  change (Prim2SF 0) with (S754_zero false) in H0.
  change (Prim2SF 1) with (S754_finite false 4503599627370496 (-52)) in H1.
  destruct (Prim2SF r) as [s|s| |s m e].
  - left. exists s. reflexivity.
  - destruct s; discriminate.
  - discriminate.
  - right. destruct s; [discriminate|]. exists m, e. split; [reflexivity|].
    unfold SpecFloat.valid_binary, bounded, canonical_mantissa in Hv.
    apply andb_true_iff in Hv. destruct Hv as [Hc _]. apply Z.eqb_eq in Hc.
    change (fexp prec emax (Z.pos (digits2_pos m) + e))
      with (Z.max (Z.pos (digits2_pos m) + e - 53) (-1074)) in Hc.
    split; [lia|].
    unfold SFleb, SFcompare in H1.
    destruct (e ?= -52) eqn:Ec.
    + apply Z.compare_eq in Ec. lia.
    + change (e < -52) in Ec. lia.
    + discriminate.
Qed.

Lemma product_of_mantissas (mx my : positive) :
  Z.log2 (Z.pos (mx * my)) <= Z.log2 (Z.pos mx) + Z.log2 (Z.pos my) + 1.
Proof.
  rewrite Pos2Z.inj_mul. apply Z.log2_mul_above; lia.
Qed.

(** [int(x * r)] for a positive [x] of moderate size and a ratio [r]
    between 0 and 1 is defined and not negative. *)
Lemma scaled_ratio_nonneg (x r : float) (mx : positive) (ex : Z) :
  Prim2SF x = S754_finite false mx ex ->
  Z.pos (digits2_pos mx) <= 53 -> ex <= 100 -> - 100 <= ex ->
  (0 <=? r)%float = true -> (r <=? 1)%float = true ->
  (exists s, Prim2SF (x * r) = S754_zero s)
  \/ (exists m e, Prim2SF (x * r) = S754_finite false m e).
Proof.
  intros Hx Hdx Hex Hex' H0 H1.
  rewrite mul_spec, Hx. unfold SF64mul, SFmul.
  destruct (unit_interval_shape r H0 H1) as [[s ->] | (my & ey & -> & Hdy & Hey)].
  - left. eexists. reflexivity.
  - cbn [xorb]. apply binary_round_aux_finite.
    + lia.
    + pose proof (product_of_mantissas mx my). rewrite digits_log2 in Hdx, Hdy. lia.
    + lia.
    + pose proof (product_of_mantissas mx my). rewrite digits_log2 in Hdx, Hdy. lia.
Qed.

Lemma small_int_shape (n : Z) :
  1 <= n <= 50 ->
  exists mx ex,
    Prim2SF (PyNum.float_of_int n) = S754_finite false mx ex
    /\ Z.pos (digits2_pos mx) <= 53 /\ ex <= 100 /\ - 100 <= ex.
Proof.
  intros H.
  assert (E : n = Z.of_nat (Z.to_nat n)) by lia.
  assert (Hk : (Z.to_nat n <= 50)%nat) by lia.
  assert (Hk1 : (1 <= Z.to_nat n)%nat) by lia.
  rewrite E. generalize dependent (Z.to_nat n). clear. intros k _ Hk Hk1.
  do 51 (destruct k as [|k];
         [first [ exfalso; lia
                | eexists; eexists; split;
                  [vm_compute; reflexivity | vm_compute; intuition discriminate] ]|]).
  exfalso. lia.
Qed.

(** For the parameters the endpoint admits, the share
    [int(total_questions * wrong_ratio)] is defined and not negative. *)
Lemma share_in_range (total_questions : Z) (wrong_ratio : float) :
  1 <= total_questions <= 50 ->
  in_unit_interval wrong_ratio ->
  share_defined total_questions wrong_ratio.
Proof.
  intros Ht [H0 H1].
  destruct (small_int_shape total_questions Ht) as (mx & ex & Hx & Hd & He & He').
  unfold share_defined, PyNum.int_of_float.
  apply int_of_nonneg.
  exact (scaled_ratio_nonneg _ _ _ _ Hx Hd He He' H0 H1).
Qed.

End Shares.

(** ** Personalized mode without history *)

Section NoHistory.

Import Api.

Variable rt : Runtime.

(** Once the user is found and has no wrong-answer row, the handler is the
    even split, whatever [wrong_ratio] is. *)
Lemma personalized_body_without_history (uid : str) (wrong_ratio : float)
    (total_questions : Z) (w : World) (u : User) (rows : list UserWrongAnswer) :
  Query.user_by_id uid w = (Return (Some u), w) ->
  user_wrong_answers (session w) = Some rows ->
  no_history (session w) uid ->
  share_defined total_questions wrong_ratio ->
  personalized_test_body rt uid wrong_ratio total_questions w
  = even_split total_questions w.
Proof.
  intros Hu Hrows Hnone (k & Hk & Hpos).
  unfold personalized_test_body.
  erewrite bind_return; [|exact Hu]. cbv beta iota.
  assert (Hwa : Query.wrong_answers w = (Return rows, w))
    by (unfold Query.wrong_answers; rewrite Hrows; reflexivity).
  erewrite bind_return; [|exact Hwa]. cbv beta zeta.
  rewrite (Hnone rows Hrows).
  change (keyword_frequency_of []) with (@nil (str * Z)). cbv iota.
  erewrite bind_return; [|reflexivity]. cbv beta.
  assert (Hshare : share total_questions wrong_ratio w = (Return k, w))
    by (unfold share; rewrite Hk; reflexivity).
  erewrite bind_return; [|exact Hshare]. cbv beta zeta.
  change (Z.of_nat (List.length (@nil Row))) with 0%Z.
  rewrite (Z.min_l 0 k Hpos). rewrite Z.sub_0_r.
  reflexivity.
Qed.

Lemma personalized_body_user_error (uid : str) (wrong_ratio : float)
    (total_questions : Z) (w w0 : World) (e : Exception) :
  Query.user_by_id uid w = (Raise e, w0) ->
  personalized_test_body rt uid wrong_ratio total_questions w = (Raise e, w0).
Proof.
  intros Hu. unfold personalized_test_body.
  erewrite bind_raise; [|exact Hu]. reflexivity.
Qed.

Lemma personalized_body_unknown_user (uid : str) (wrong_ratio : float)
    (total_questions : Z) (w w0 : World) :
  Query.user_by_id uid w = (Return None, w0) ->
  personalized_test_body rt uid wrong_ratio total_questions w
  = (Raise (HTTPException 404), w0).
Proof.
  intros Hu. unfold personalized_test_body.
  erewrite bind_return; [|exact Hu]. reflexivity.
Qed.

Lemma personalized_body_table_error (uid : str) (wrong_ratio : float)
    (total_questions : Z) (w : World) (u : User) :
  Query.user_by_id uid w = (Return (Some u), w) ->
  user_wrong_answers (session w) = None ->
  personalized_test_body rt uid wrong_ratio total_questions w
  = (Raise SQLAlchemyError, w).
Proof.
  intros Hu Hrows. unfold personalized_test_body.
  erewrite bind_return; [|exact Hu]. cbv beta iota.
  erewrite bind_raise;
    [|unfold Query.wrong_answers; rewrite Hrows; reflexivity].
  reflexivity.
Qed.

Lemma user_by_id_same_world (uid : str) (w w0 : World) (o : Outcome (option User)) :
  Query.user_by_id uid w = (o, w0) -> w0 = w.
Proof. unfold Query.user_by_id. destruct (users (session w)); congruence. Qed.

(** C9. For a user with no wrong-answer row, two runs over the same
    database and the same random source that differ only in wrong_ratio
    give the same outcome and leave the same world, for all parameters the
    endpoint admits (wrong_ratio from 0.0 to 1.0, total_questions from 5 to
    50). *)
Theorem wrong_ratio_irrelevant_without_history
    (uid : str) (ratio1 ratio2 : float) (total_questions : Z) (w : World) :
  no_history (session w) uid ->
  (5 <= total_questions <= 50)%Z ->
  in_unit_interval ratio1 ->
  in_unit_interval ratio2 ->
  create_personalized_test rt uid ratio1 total_questions w
  = create_personalized_test rt uid ratio2 total_questions w.
Proof.
  intros Hnone Htotal Hr1 Hr2.
  pose proof (@share_in_range total_questions ratio1 ltac:(lia) Hr1) as H1.
  pose proof (@share_in_range total_questions ratio2 ltac:(lia) Hr2) as H2.
  unfold create_personalized_test, try_except.
  assert (Hbody : personalized_test_body rt uid ratio1 total_questions w
                  = personalized_test_body rt uid ratio2 total_questions w).
  { destruct (Query.user_by_id uid w) as [[[u|]|e] w0] eqn:Hu.
    - pose proof (user_by_id_same_world _ _ Hu) as ->.
      destruct (user_wrong_answers (session w)) as [rows|] eqn:Hrows.
      + rewrite (@personalized_body_without_history uid ratio1 total_questions
                   w u rows Hu Hrows Hnone H1).
        rewrite (@personalized_body_without_history uid ratio2 total_questions
                   w u rows Hu Hrows Hnone H2).
        reflexivity.
      + rewrite !(@personalized_body_table_error uid _ total_questions w u Hu Hrows).
        reflexivity.
    - rewrite !(@personalized_body_unknown_user uid _ total_questions w w0 Hu).
      reflexivity.
    - rewrite !(@personalized_body_user_error uid _ total_questions w w0 e Hu).
      reflexivity. }
  rewrite Hbody. reflexivity.
Qed.

End NoHistory.

(** ** Errors during assembly *)

Section AssemblyErrors.

Import Api.

Variable rt : Runtime.

(** C10, amended. In quota mode every error raised during assembly, a
    repository error included, is caught and the caller gets the empty
    sequence, so that quota mode never propagates an error. In personalized
    mode the error is caught too, but the caller gets an HTTP error with
    status 500 instead of an empty sequence. *)
Theorem assembly_errors_caught
    (config : TestConfigRequest) (uid : str) (wrong_ratio : float)
    (total_questions : Z) (w w' : World) (e : Exception) :
  (custom_test_body config w = (Raise e, w') ->
   create_custom_test config w = (Return [], w'))
  /\ (exists result w'', create_custom_test config w = (Return result, w''))
  /\ (personalized_test_body rt uid wrong_ratio total_questions w = (Raise e, w') ->
      create_personalized_test rt uid wrong_ratio total_questions w
      = (Raise (HTTPException 500), w')).
Proof.
  split; [|split].
  - intros H. unfold create_custom_test, try_except. rewrite H. reflexivity.
  - unfold create_custom_test, try_except.
    destruct (custom_test_body config w) as [[result|e0] w0].
    + exists result, w0. reflexivity.
    + exists [], w0. reflexivity.
  - intros H. unfold create_personalized_test, try_except. rewrite H. reflexivity.
Qed.

End AssemblyErrors.

Lemma assembly_errors_witness :
  exists w',
    Api.create_custom_test Api.standard_config (Bank.world Bank.broken Bank.some_draws)
    = (Return [], w').
Proof.
  eexists.
  apply (proj1 (@assembly_errors_caught Offline.runtime Api.standard_config
                  (lit "u-1") 0.5%float 20 (Bank.world Bank.broken Bank.some_draws)
                  _ SQLAlchemyError)).
  reflexivity.
Defined.

(** C10 as stated fails in personalized mode: with the wrong-answer table
    out of reach the handler body raises the repository error, and the
    caller gets an HTTP error with status 500, not an empty sequence. *)
Lemma personalized_error_propagates :
  fst (Api.personalized_test_body Offline.runtime (lit "u-1") 0.5%float 20
         (Bank.world Bank.broken Bank.some_draws)) = Raise SQLAlchemyError
  /\ fst (Api.create_personalized_test Offline.runtime (lit "u-1") 0.5%float 20
            (Bank.world Bank.broken Bank.some_draws)) = Raise (HTTPException 500)
  /\ fst (Api.create_personalized_test Offline.runtime (lit "u-1") 0.5%float 20
            (Bank.world Bank.broken Bank.some_draws)) <> Return [].
Proof. repeat split; try (vm_compute; reflexivity). vm_compute. discriminate. Qed.

(** *** The sample database *)

Lemma distinct_NoDup (l : list str) : distinct l = true -> NoDup l.
Proof.
  induction l as [|x r IH]; simpl; [constructor|].
  intros H. apply andb_true_iff in H. destruct H as [Hx Hr].
  constructor; [|auto].
  intros Hin. apply negb_true_iff in Hx.
  assert (existsb (str_eqb x) r = true); [|congruence].
  apply existsb_exists. exists x. split; [exact Hin | apply str_eqb_refl].
Qed.

Lemma full_bank_holds (c : Category) (n : nat) (ds : list nat) :
  n <= 6 -> holds (session (Bank.world Bank.full ds)) c n.
Proof.
  intros Hn. exists (Bank.numbered (Bank.name_of c) 6). split; [reflexivity|]. split.
  - apply distinct_NoDup. destruct c; reflexivity.
  - unfold Bank.numbered. rewrite length_map, length_seq. exact Hn.
Qed.

Lemma standard_test_witness :
  exists result w',
    Api.create_standard_test (Bank.world Bank.full Bank.some_draws) = (Return result, w')
    /\ List.length result = 20
    /\ count_of os result = 3 /\ count_of network result = 3
    /\ count_of db result = 3
    /\ count_of base_sql result = 2 /\ count_of hard_sql result = 2
    /\ count_of program result = 6
    /\ count_of app_test result = 0 /\ count_of app_defect result = 1
    /\ count_of algorithm result = 0.
Proof.
  apply (@standard_test_composition (Bank.world Bank.full Bank.some_draws));
    apply full_bank_holds; repeat constructor.
Defined.

Lemma wrong_ratio_witness :
  Api.create_personalized_test Offline.runtime (lit "u-1") 0.2%float 20
    (Bank.world Bank.full Bank.some_draws)
  = Api.create_personalized_test Offline.runtime (lit "u-1") 0.9%float 20
      (Bank.world Bank.full Bank.some_draws).
Proof.
  apply (@wrong_ratio_irrelevant_without_history Offline.runtime (lit "u-1")
           0.2%float 0.9%float 20 (Bank.world Bank.full Bank.some_draws)).
  - intros rows H. injection H as <-. reflexivity.
  - lia.
  - split; reflexivity.
  - split; reflexivity.
Defined.

(** ** The even split of personalized mode *)

Section EvenSplit.

Import Api.

(** The contents of the nine tables: each with a primary key, and no id
    shared between two tables. *)
Variable T : Category -> list Question.
Hypothesis keyed : forall c, primary_key (T c).
Hypothesis apart :
  forall c c' q q', c <> c' -> In q (T c) -> In q' (T c') -> id q <> id q'.

Lemma filter_everything {A} (p : A -> bool) (l : list A) :
  (forall x, In x l -> p x = true) -> filter p l = l.
Proof.
  induction l as [|x r IH]; simpl; intros H; [reflexivity|].
  rewrite (H x (or_introl eq_refl)), IH; [reflexivity|].
  intros y Hy. apply H. right. exact Hy.
Qed.

(** Choosing [k] of the rows left in a table: a sample when there are
    more, all of them otherwise. *)
Lemma choice_spec (l : list Question) (k : nat) (w : World) :
  k <= List.length l ->
  exists selected w',
    (if (Z.of_nat k <? Z.of_nat (List.length l))%Z
     then Random.sample l (Z.of_nat k) else ret l) w = (Return selected, w')
    /\ session w' = session w
    /\ List.length selected = k
    /\ exists rest, Permutation (selected ++ rest) l.
Proof.
  intros Hk. destruct (Z.of_nat k <? Z.of_nat (List.length l))%Z eqn:E.
  - destruct (@sample_spec _ l (Z.of_nat k) w ltac:(lia))
      as (xs & w' & Es & Hs & Hl & Hr).
    exists xs, w'. rewrite Nat2Z.id in Hl. auto.
  - apply Z.ltb_ge in E. exists l, w. unfold ret.
    split; [reflexivity|]. split; [reflexivity|]. split; [lia|].
    exists []. rewrite app_nil_r. apply Permutation_refl.
Qed.

(** The loop of step 5 when every table still to visit holds its share
    and nothing selected so far comes from one of them: every category
    contributes exactly [per_category] rows, and the loop ends with the
    categories, whatever remains to be filled. *)
Lemma fill_randomly_spec (categories : list (str * Category)) (per_category : nat) :
  1 <= per_category ->
  forall (remaining : Z) (selected_ids : list str) (result : list Row) (w : World),
  (Z.of_nat (per_category * List.length categories) <= remaining)%Z ->
  NoDup (map snd categories) ->
  (forall c, In c (map snd categories) ->
             questions_of (session w) c = Some (T c)
             /\ per_category <= List.length (T c)) ->
  (forall i c q, In i selected_ids -> In c (map snd categories) ->
                 In q (T c) -> id q <> i) ->
  exists added w',
    fill_randomly categories (Z.of_nat per_category) remaining selected_ids result w
    = (Return (result ++ added), w')
    /\ session w' = session w
    /\ List.length added = per_category * List.length categories
    /\ NoDup (map row_id added)
    /\ (forall r, In r added ->
                  In (fst r) (map snd categories) /\ In (snd r) (T (fst r))).
Proof.
  intros Hper.
  induction categories as [|[name c] rest IH];
    intros remaining sel result w Hrem Hnd Htab Hforeign.
  - exists [], w. simpl. rewrite app_nil_r. unfold ret.
    split; [reflexivity|]. split; [reflexivity|]. split; [lia|].
    split; [constructor|]. intros r [].
  - simpl in Hrem, Hnd. inversion Hnd as [|? ? Hc Hnd']; subst.
    destruct (Htab c (or_introl eq_refl)) as [Hread Hlen].
    cbn [fill_randomly].
    replace (remaining <=? 0)%Z with false by (symmetry; apply Z.leb_gt; nia).
    rewrite (Z.min_l (Z.of_nat per_category) remaining) by nia.
    assert (Hq : Query.with_id_not_in c sel w = (Return (T c), w)).
    { unfold Query.with_id_not_in, Query.all, bind, ret. rewrite Hread.
      rewrite filter_everything; [reflexivity|].
      intros q Hin. apply negb_true_iff.
      destruct (Query.id_in sel q) eqn:E; [|reflexivity].
      apply id_in_In in E. exfalso.
      exact (Hforeign (id q) c q E (or_introl eq_refl) Hin eq_refl). }
    erewrite bind_return; [|exact Hq].
    pose proof (keyed c) as Hk. unfold primary_key in Hk.
    remember (T c) as l eqn:ET.
    destruct (@choice_spec l per_category w Hlen)
      as (selected & w1 & Esel & Hs1 & Hlsel & rest' & Hperm).
    assert (Hin_sel : forall q, In q selected -> In q (T c)).
    { intros q Hq'. rewrite <- ET. eapply Permutation_in; [exact Hperm|].
      apply in_or_app; auto. }
    assert (Hnd_sel : NoDup (map id selected)).
    { apply (Permutation_NoDup (Permutation_sym (Permutation_map id Hperm))) in Hk.
      rewrite map_app in Hk. apply NoDup_app_remove_r in Hk. exact Hk. }
    clear Hperm Hk Hq.
    destruct l as [|q0 others]; [simpl in Hlen; lia|].
    cbv iota.
    erewrite bind_return; [|exact Esel].
    destruct (IH (remaining - Z.of_nat (List.length selected))%Z
                 (sel ++ map id selected)
                 (result ++ map (pair c) selected) w1)
      as (added & w' & E & Hs & Hl & Hnd_added & Hrows).
    + rewrite Hlsel. simpl in Hrem. nia.
    + exact Hnd'.
    + intros c' Hc'. rewrite Hs1. apply Htab. right. exact Hc'.
    + intros i c' q Hi Hc' Hq'. apply in_app_or in Hi. destruct Hi as [Hi|Hi].
      * apply (Hforeign i c' q Hi (or_intror Hc') Hq').
      * apply in_map_iff in Hi. destruct Hi as (q1 & <- & Hq1).
        apply (@apart c' c q q1); [|exact Hq'|apply Hin_sel; exact Hq1].
        intros ->. contradiction.
    + rewrite E. exists (map (pair c) selected ++ added), w'.
      split; [rewrite app_assoc; reflexivity|].
      split; [congruence|].
      split. { rewrite length_app, length_map. unfold Row in *. simpl. lia. }
      split.
      * rewrite map_app, map_map. unfold row_id at 1. simpl.
        apply NoDup_app; [exact Hnd_sel | exact Hnd_added|].
        intros i Hi Hi'. apply in_map_iff in Hi. destruct Hi as (q1 & <- & Hq1).
        apply in_map_iff in Hi'. destruct Hi' as (r & Er & Hr).
        destruct (Hrows r Hr) as [Hcat Hrow].
        apply (@apart (fst r) c (snd r) q1); [|exact Hrow|apply Hin_sel; exact Hq1|exact Er].
        intros Heq. rewrite Heq in Hcat. contradiction.
      * intros r Hr. apply in_app_or in Hr. destruct Hr as [Hr|Hr].
        -- apply in_map_iff in Hr. destruct Hr as (q1 & <- & Hq1). simpl.
           split; [left; reflexivity | apply Hin_sel; exact Hq1].
        -- destruct (Hrows r Hr) as [Hcat Hrow]. split; [right; exact Hcat | exact Hrow].
Qed.

Lemma unique_upto_keeps_all (total_questions : Z) (l : list Row) :
  forall (unique_ids : list str) (unique_questions : list Row),
  (forall i, In i unique_ids <-> In i (map row_id unique_questions)) ->
  NoDup (map row_id (unique_questions ++ l)) ->
  (Z.of_nat (List.length (unique_questions ++ l)) <= total_questions)%Z ->
  unique_upto total_questions unique_ids unique_questions l = unique_questions ++ l.
Proof.
  induction l as [|q r IH]; intros uids acc Hids Hnd Hlen; simpl.
  - rewrite app_nil_r. reflexivity.
  - assert (Hfresh : existsb (str_eqb (id (snd q))) uids = false).
    { destruct (existsb (str_eqb (id (snd q))) uids) eqn:E; [|reflexivity].
      exfalso. apply existsb_exists in E. destruct E as (i & Hi & Ei).
      apply str_eqb_eq in Ei. subst i. apply Hids in Hi.
      rewrite map_app in Hnd. simpl in Hnd. apply NoDup_remove_2 in Hnd.
      apply Hnd. apply in_or_app. left. exact Hi. }
    rewrite Hfresh. simpl.
    replace (Z.of_nat (List.length acc) <? total_questions)%Z with true
      by (symmetry; apply Z.ltb_lt; rewrite length_app in Hlen; simpl in Hlen; lia).
    rewrite IH.
    + rewrite <- app_assoc. reflexivity.
    + intros i. rewrite map_app. simpl. rewrite in_app_iff. simpl.
      rewrite <- Hids. unfold row_id. tauto.
    + rewrite <- app_assoc. exact Hnd.
    + rewrite <- app_assoc. exact Hlen.
Qed.

Lemma all_categories_NoDup : NoDup all_categories.
Proof. apply NoDup_map_inv with (f := Bank.name_of). apply distinct_NoDup. reflexivity. Qed.

Lemma all_categories_complete (c : Category) : In c all_categories.
Proof. destruct c; simpl; tauto. Qed.

Variable rt : Runtime.

(** C8, as the code has it. For a user without wrong-answer history, the
    parameters the endpoint admits and total_questions of 9 or more, with
    every table holding at least total_questions // 9 questions,
    personalized mode returns 9 * (total_questions // 9) questions: every
    category contributes total_questions // 9 of them and the remainder of
    the division is not distributed. *)
Theorem even_split_drops_remainder
    (uid : str) (wrong_ratio : float) (total_questions : Z) (w : World)
    (u : User) (rows : list UserWrongAnswer) :
  Query.user_by_id uid w = (Return (Some u), w) ->
  user_wrong_answers (session w) = Some rows ->
  no_history (session w) uid ->
  in_unit_interval wrong_ratio ->
  (9 <= total_questions <= 50)%Z ->
  (forall c, questions_of (session w) c = Some (T c)) ->
  (forall c, (total_questions / 9 <= Z.of_nat (List.length (T c)))%Z) ->
  exists result w',
    create_personalized_test rt uid wrong_ratio total_questions w = (Return result, w')
    /\ Z.of_nat (List.length result) = (9 * (total_questions / 9))%Z.
Proof.
  intros Hu Hrows Hnone Hratio Htotal Htab Henough.
  pose proof (@share_in_range total_questions wrong_ratio ltac:(lia) Hratio) as Hshare.
  unfold create_personalized_test, try_except.
  rewrite (@personalized_body_without_history rt uid wrong_ratio total_questions
             w u rows Hu Hrows Hnone Hshare).
  unfold even_split.
  replace (0 <? total_questions)%Z with true by (symmetry; apply Z.ltb_lt; lia).
  destruct (shuffle_spec QUESTION_TYPE_MAPPING w) as (cats & w1 & Ecats & Hs1 & Hperm).
  rewrite bind_assoc. erewrite bind_return; [|exact Ecats]. cbv beta.
  assert (Hlen9 : List.length cats = 9)
    by (rewrite (Permutation_length Hperm); reflexivity).
  rewrite Hlen9. change (Z.of_nat 9) with 9%Z.
  set (per := Z.to_nat (total_questions / 9)).
  assert (Hq : (1 <= total_questions / 9)%Z)
    by (apply Z.div_le_lower_bound; lia).
  assert (Hper : Z.of_nat per = (total_questions / 9)%Z) by (unfold per; lia).
  clearbody per.
  rewrite (Z.max_r 1 (total_questions / 9)) by lia. rewrite <- Hper.
  assert (Hper1 : 1 <= per) by lia.
  destruct (@fill_randomly_spec cats per Hper1 total_questions [] [] w1)
    as (added & w2 & Efill & Hs2 & Hladded & Hnd & _).
  - rewrite Hlen9. pose proof (Z.mul_div_le total_questions 9 ltac:(lia)). lia.
  - apply (Permutation_NoDup (Permutation_sym (Permutation_map snd Hperm))).
    apply all_categories_NoDup.
  - intros c _. rewrite Hs1. split; [apply Htab|]. specialize (Henough c). lia.
  - intros i c q [].
  - erewrite bind_return; [|exact Efill]. simpl app.
    destruct (shuffle_spec added w2) as (shuffled & w3 & Esh & _ & Hperm2).
    erewrite bind_return; [|exact Esh]. unfold ret.
    exists (unique_upto total_questions [] [] shuffled), w3.
    split; [reflexivity|].
    rewrite (@unique_upto_keeps_all total_questions shuffled [] []).
    + cbn [app]. rewrite (Permutation_length Hperm2), Hladded, Hlen9. lia.
    + intros i. simpl. tauto.
    + cbn [app].
      apply (Permutation_NoDup (Permutation_sym (Permutation_map row_id Hperm2))).
      exact Hnd.
    + cbn [app]. rewrite (Permutation_length Hperm2), Hladded, Hlen9.
      pose proof (Z.mul_div_le total_questions 9 ltac:(lia)). lia.
Qed.

End EvenSplit.

Lemma Category_eqb_eq (c c' : Category) : Category_eqb c c' = true <-> c = c'.
Proof. destruct c, c'; simpl; split; congruence. Qed.

Lemma tables_apart_sound (T : Category -> list Question) :
  tables_apart T = true ->
  forall c c' q q', c <> c' -> In q (T c) -> In q' (T c') -> id q <> id q'.
Proof.
  intros H c c' q q' Hneq Hq Hq' Heq. unfold tables_apart in H.
  rewrite forallb_forall in H. specialize (H c (all_categories_complete c)).
  rewrite forallb_forall in H. specialize (H c' (all_categories_complete c')).
  apply orb_true_iff in H. destruct H as [H|H].
  - apply Category_eqb_eq in H. contradiction.
  - rewrite forallb_forall in H. specialize (H q Hq).
    rewrite forallb_forall in H. specialize (H q' Hq').
    apply negb_true_iff, str_eqb_neq in H. contradiction.
Qed.

Lemma full_tables_keyed (c : Category) : primary_key (full_tables c).
Proof. apply distinct_NoDup. destruct c; reflexivity. Qed.

(** With the defaults of the endpoint (20 questions) and six questions in
    every table, a user without history gets 18 questions, two from every
    category. *)
Lemma even_split_witness :
  exists result w',
    Api.create_personalized_test Offline.runtime (lit "u-1") 0.5%float 20
      (Bank.world Bank.full Bank.some_draws) = (Return result, w')
    /\ Z.of_nat (List.length result) = 18%Z.
Proof.
  apply (@even_split_drops_remainder full_tables full_tables_keyed
           (tables_apart_sound full_tables eq_refl) Offline.runtime
           (lit "u-1") 0.5%float 20 (Bank.world Bank.full Bank.some_draws)
           {| user_pk := lit "u-1"; username := lit "kim";
              email := lit "kim@example.com" |} []).
  - reflexivity.
  - reflexivity.
  - intros rows H. injection H as <-. reflexivity.
  - split; reflexivity.
  - lia.
  - intros c. reflexivity.
  - intros c. unfold full_tables, Bank.numbered.
    rewrite length_map, length_seq. vm_compute. discriminate.
Defined.

(** *** Runs of the handlers on the sample database *)

(** Submitting the same wrong answer twice leaves one row, counted
    twice. *)
Example submit_twice_one_row :
  let w1 := snd (Api.submit_test Offline.runtime one_wrong_answer
                   (Bank.world Bank.small [])) in
  let w2 := snd (Api.submit_test Offline.runtime one_wrong_answer w1) in
  attempts w1 = Some [(lit "os-1", 1%Z)]
  /\ attempts w2 = Some [(lit "os-1", 2%Z)].
Proof. split; vm_compute; reflexivity. Qed.

(** Both ways of answering an enumerated-option question are accepted, in
    any case. *)
Example option_by_number_or_text :
  full_marks (Sample.grade (lit "2") Sample.snmp_question)
  /\ full_marks (Sample.grade (lit "SNMP") Sample.snmp_question)
  /\ full_marks (Sample.grade (lit "Snmp ") Sample.snmp_question).
Proof. repeat split; vm_compute; reflexivity. Qed.

(** The matcher on the strings of the list question. *)
Example ratio_of_reordered_list :
  Difflib.ratio (lit "b a c") (lit "a b c") = 0.6%float
  /\ Difflib.ratio (lit "a b") (lit "a b c") = 0.75%float.
Proof. split; vm_compute; reflexivity. Qed.

(** * Further properties of the code *)

(** ** Text normalization *)

Section Normalization.

Import AnswerComparison.

Lemma dropwhile_suffix (p : char -> bool) (s : str) :
  exists l, s = l ++ dropwhile p s.
Proof.
  induction s as [|c r [l IH]]; simpl.
  - exists []. reflexivity.
  - destruct (p c).
    + exists (c :: l). simpl. rewrite <- IH. reflexivity.
    + exists []. reflexivity.
Qed.

Lemma dropwhile_head (p : char -> bool) (s : str) (c : char) (r : str) :
  dropwhile p s = c :: r -> p c = false.
Proof.
  induction s as [|x t IH]; simpl; [discriminate|].
  destruct (p x) eqn:E; [exact IH|].
  intros H. injection H as <- _. exact E.
Qed.

Lemma dropwhile_keeps_last (p : char -> bool) (l : str) (h : char) :
  p h = false -> dropwhile p (l ++ [h]) = dropwhile p l ++ [h].
Proof.
  intros Hh. induction l as [|x t IH]; simpl.
  - rewrite Hh. reflexivity.
  - destruct (p x); [exact IH | reflexivity].
Qed.

(** [strip] cuts a piece out of the middle of its argument. *)
Lemma strip_infix (s : str) : exists l r, s = l ++ strip s ++ r.
Proof.
  unfold strip, rstrip, lstrip.
  destruct (dropwhile_suffix isspace s) as [l Hl].
  destruct (dropwhile_suffix isspace (rev (dropwhile isspace s))) as [l' Hl'].
  exists l, (rev l'). rewrite <- rev_app_distr, <- Hl', rev_involutive. exact Hl.
Qed.

Lemma strip_head (s : str) (c : char) (r : str) :
  strip s = c :: r -> isspace c = false.
Proof.
  unfold strip, rstrip, lstrip.
  destruct (dropwhile isspace s) as [|h u] eqn:E; [discriminate|].
  pose proof (@dropwhile_head _ _ _ _ E) as Hh.
  simpl rev. rewrite (@dropwhile_keeps_last isspace (rev u) h Hh), rev_app_distr. simpl.
  intros H. injection H as <- _. exact Hh.
Qed.

Lemma strip_last (s : str) (c : char) (r : str) :
  rev (strip s) = c :: r -> isspace c = false.
Proof.
  unfold strip, rstrip. rewrite rev_involutive. apply dropwhile_head.
Qed.

Lemma single_spaced_infix (l m r : str) :
  single_spaced (l ++ m ++ r) -> single_spaced m.
Proof.
  intros H l1 c d l2 E. apply (H (l ++ l1) c d (l2 ++ r)).
  rewrite E, <- !app_assoc. reflexivity.
Qed.

Lemma single_spaced_cons (x : char) (t : str) :
  single_spaced t ->
  (forall d r, t = d :: r -> ~ (isspace x = true /\ isspace d = true)) ->
  single_spaced (x :: t).
Proof.
  intros Ht Hx l1 c d l2 E. destruct l1 as [|y l1]; simpl in E.
  - injection E as -> E. apply (Hx d l2). exact E.
  - injection E as _ E. apply (Ht l1 c d l2). exact E.
Qed.

Lemma collapse_from_head (s : str) (x : char) (t : str) :
  collapse_from true s = x :: t -> isspace x = false.
Proof.
  induction s as [|c r IH]; simpl; [discriminate|].
  destruct (isspace c) eqn:E; [exact IH|].
  intros H. injection H as <- _. exact E.
Qed.

Lemma collapse_from_single_spaced (s : str) (b : bool) :
  single_spaced (collapse_from b s).
Proof.
  revert b. induction s as [|c r IH]; intros b; simpl.
  - intros [|? [|? ?]] ? ? ? E; discriminate.
  - destruct (isspace c) eqn:Ec.
    + destruct b; [apply IH|].
      apply single_spaced_cons; [apply IH|].
      intros d t E [_ Hd]. apply collapse_from_head in E. congruence.
    + apply single_spaced_cons; [apply IH|].
      intros d t _ [Hc _]. congruence.
Qed.

Lemma collapse_from_chars (s : str) (b : bool) (c : char) :
  In c (collapse_from b s) -> c = 32%N \/ (In c s /\ isspace c = false).
Proof.
  revert b. induction s as [|x r IH]; intros b; simpl; [tauto|].
  destruct (isspace x) eqn:Ex.
  - destruct b; simpl.
    + intros H. destruct (IH _ H) as [?|[? ?]]; auto.
    + intros [H|H]; [auto|]. destruct (IH _ H) as [?|[? ?]]; auto.
  - simpl. intros [<-|H]; [auto|]. destruct (IH _ H) as [?|[? ?]]; auto.
Qed.

Variable rt : Runtime.

(** X1. Whatever the text and whatever [str.lower] does, the result of
    [preprocess_text] has no ASCII punctuation, no space character other
    than U+0020, no space at its ends and no two spaces in a row. *)
Theorem preprocess_text_normalized (text : str) :
  normalized (preprocess_text rt text).
Proof.
  unfold preprocess_text. destruct (negb (truthy text)).
  - repeat split; try discriminate.
    + destruct H. + destruct H.
    + intros [|? [|? ?]] ? ? ? E; discriminate.
  - set (t := filter (fun c => negb (is_punctuation c)) (py_lower rt text)).
    destruct (strip_infix (collapse_spaces t)) as (l & r & E).
    split; [|split; [|split]].
    + intros c Hc.
      assert (Hin : In c (collapse_spaces t))
        by (rewrite E; apply in_or_app; right; apply in_or_app; left; exact Hc).
      destruct (@collapse_from_chars _ _ _ Hin) as [-> | [Ht Hs]].
      * split; [reflexivity | reflexivity].
      * split; [|congruence].
        apply filter_In in Ht. destruct Ht as [_ Ht].
        apply negb_true_iff in Ht. exact Ht.
    + apply strip_head.
    + apply strip_last.
    + apply (@single_spaced_infix l _ r). rewrite <- E.
      apply collapse_from_single_spaced.
Qed.

(** X2. The ordered-list stage reads a fullwidth comma as a comma: an
    answer whose ASCII commas are written as fullwidth commas gets the
    verdict of the answer as it was. *)
Theorem stage_list_ignores_comma_width (user correct : str) (ex : option str) :
  stage_list rt (widen_commas user) correct ex = stage_list rt user correct ex.
Proof.
  assert (H : items (widen_commas user) = items user).
  { unfold items. f_equal.
    induction user as [|c r IH]; [reflexivity|].
    unfold widen_commas in *. cbn [map split_at]. rewrite IH.
    destruct (c =? 44)%N eqn:E.
    - apply N.eqb_eq in E. subst c. reflexivity.
    - reflexivity. }
  unfold stage_list. rewrite H. reflexivity.
Qed.

End Normalization.

(** ** The grading cascade without the remote grader *)

Section LocalGrading.

Import AnswerComparison.

Variable rt : Runtime.

Lemma stage_exact_accepts (user correct : str) (v : Verdict) :
  stage_exact user correct = Some v -> exists ex, v = accepted correct ex.
Proof.
  unfold stage_exact. destruct (str_eqb _ _); [|discriminate].
  intros E; injection E as <-. eexists; reflexivity.
Qed.

Lemma option_lines_accepts (user correct ex : str) (lines : list str) (v : Verdict) :
  option_lines rt user correct ex lines = Some v -> exists e, v = accepted correct e.
Proof.
  induction lines as [|line rest IH]; simpl; [discriminate|].
  destruct (option_line rt user correct ex line) as [v'|] eqn:E; [|exact IH].
  intros H; injection H as <-. unfold option_line in E.
  destruct (match_option rt (strip line)) as [[num text]|]; [|discriminate].
  destruct (str_eqb correct num).
  - destruct (_ || _); [|discriminate]. injection E as <-. eexists; reflexivity.
  - destruct (str_eqb (preprocess_text rt correct) _); [|discriminate].
    destruct (_ || _); [|discriminate]. injection E as <-. eexists; reflexivity.
Qed.

Lemma stage_options_accepts (user correct : str) (ex : option str) (v : Verdict) :
  stage_options rt user correct ex = Some v -> exists e, v = accepted correct e.
Proof.
  unfold stage_options. destruct ex as [e|]; [|discriminate].
  destruct (truthy e); [|discriminate]. apply option_lines_accepts.
Qed.

Lemma stage_list_accepts (user correct : str) (ex : option str) (v : Verdict) :
  stage_list rt user correct ex = Some v -> exists e, v = accepted correct e.
Proof.
  unfold stage_list. destruct (existsb _ _); [|discriminate].
  destruct (_ && _); [|discriminate].
  intros E; injection E as <-. eexists; reflexivity.
Qed.

Lemma stage_format_rejects (user correct question : str) (ex : option str)
    (v : Verdict) :
  stage_format user correct question ex = Some v ->
  is_correct v = false /\ score v = 0.1%float /\ correct_answer v = Some correct.
Proof.
  unfold stage_format. destruct (_ && _); [|discriminate].
  destruct (negb _); [|discriminate].
  intros E; injection E as <-. repeat split.
Qed.

Lemma accepted_graded_by_score (correct : str) (ex : option str) :
  graded_by_score (accepted correct ex).
Proof. split; [vm_compute; reflexivity | reflexivity]. Qed.

(** A remote grader that fails on every request is not noticed: the
    verdict is the one the function gives without it. *)
Lemma remote_failure_falls_back (user : str) (qd : QuestionData) :
  (forall p, openai_chat rt p = None) ->
  evaluate_answer rt user qd true = evaluate_answer rt user qd false.
Proof.
  intros H. unfold evaluate_answer, stage_remote.
  destruct (qd_answer qd); [|reflexivity].
  destruct (negb (truthy user)); [reflexivity|].
  cbv zeta. rewrite H. reflexivity.
Qed.

Lemma local_verdict (user : str) (qd : QuestionData) :
  graded_by_score (evaluate_answer rt user qd false).
Proof.
  unfold evaluate_answer.
  destruct (qd_answer qd) as [answer|];
    [|split; [vm_compute; reflexivity | discriminate]].
  destruct (negb (truthy user));
    [split; [vm_compute; reflexivity | discriminate]|].
  cbv zeta.
  destruct (stage_exact user (strip answer)) as [v|] eqn:E1; cbn [or_else].
  { destruct (stage_exact_accepts _ _ E1) as [e ->]. apply accepted_graded_by_score. }
  destruct (stage_options rt user (strip answer) (qd_example qd)) as [v|] eqn:E2;
    cbn [or_else].
  { destruct (@stage_options_accepts _ _ _ _ E2) as [e ->].
    apply accepted_graded_by_score. }
  destruct (stage_format user (strip answer) _ (qd_example qd)) as [v|] eqn:E3;
    cbn [or_else].
  { destruct (stage_format_rejects _ _ _ _ E3) as (Hc & Hs & _).
    split; [rewrite Hc, Hs; vm_compute; reflexivity | congruence]. }
  destruct (stage_list rt user (strip answer) (qd_example qd)) as [v|] eqn:E4;
    cbn [or_else].
  { destruct (@stage_list_accepts _ _ _ _ E4) as [e ->].
    apply accepted_graded_by_score. }
  unfold stage_lexical, graded_by_score. cbn [is_correct score feedback].
  split; [reflexivity|]. intros ->. reflexivity.
Qed.

(** X3. Graded without the remote grader, or with a remote grader that
    fails on every request, an answer is marked correct exactly when its
    score is at least 0.7, and a correct answer always carries the
    message of a correct answer: whichever stage decides, also for
    missing data. A failing remote grader is not noticed at all. *)
Theorem local_verdict_graded_by_score (user : str) (qd : QuestionData) (adv : bool) :
  (adv = true -> forall p, openai_chat rt p = None) ->
  evaluate_answer rt user qd adv = evaluate_answer rt user qd false
  /\ graded_by_score (evaluate_answer rt user qd adv).
Proof.
  intros H. destruct adv.
  - rewrite (remote_failure_falls_back user qd (H eq_refl)).
    split; [reflexivity | apply local_verdict].
  - split; [reflexivity | apply local_verdict].
Qed.

(** X4. Whenever there is an answer to grade and a stored answer, the
    verdict carries the stored answer without its surrounding spaces,
    whichever stage decides and whatever the remote grader replies. *)
Theorem verdict_carries_stored_answer (user answer : str) (qd : QuestionData)
    (adv : bool) :
  qd_answer qd = Some answer -> user <> [] ->
  correct_answer (evaluate_answer rt user qd adv) = Some (strip answer).
Proof.
  intros Ha Hu. rewrite (@evaluate_answer_unfold rt user answer qd adv Ha Hu).
  cbv zeta.
  destruct (stage_exact user (strip answer)) as [v|] eqn:E1; cbn [or_else].
  { destruct (stage_exact_accepts _ _ E1) as [e ->]. reflexivity. }
  destruct (stage_options rt user (strip answer) (qd_example qd)) as [v|] eqn:E2;
    cbn [or_else].
  { destruct (@stage_options_accepts _ _ _ _ E2) as [e ->]. reflexivity. }
  destruct (stage_format user (strip answer) _ (qd_example qd)) as [v|] eqn:E3;
    cbn [or_else].
  { destruct (stage_format_rejects _ _ _ _ E3) as (_ & _ & Hc). exact Hc. }
  destruct (stage_list rt user (strip answer) (qd_example qd)) as [v|] eqn:E4;
    cbn [or_else].
  { destruct (@stage_list_accepts _ _ _ _ E4) as [e ->]. reflexivity. }
  destruct adv; [|reflexivity].
  unfold stage_remote. destruct (openai_chat rt _); reflexivity.
Qed.

End LocalGrading.

Lemma local_verdict_witness :
  AnswerComparison.evaluate_answer Offline.runtime (lit "a, b") Sample.list_question true
  = AnswerComparison.evaluate_answer Offline.runtime (lit "a, b") Sample.list_question false
  /\ graded_by_score
       (AnswerComparison.evaluate_answer Offline.runtime (lit "a, b")
          Sample.list_question true).
Proof.
  apply (@local_verdict_graded_by_score Offline.runtime (lit "a, b")
           Sample.list_question true).
  intros _ p. reflexivity.
Defined.

Lemma verdict_carries_witness :
  AnswerComparison.correct_answer
    (AnswerComparison.evaluate_answer Offline.runtime (lit "a, b")
       (Sample.ask (lit "q") (lit " A, B, C ") None) true)
  = Some (lit "A, B, C").
Proof.
  apply (@verdict_carries_stored_answer Offline.runtime (lit "a, b") (lit " A, B, C ")
           (Sample.ask (lit "q") (lit " A, B, C ") None) true).
  - reflexivity.
  - discriminate.
Defined.

(** ** What a recorded miss does to the table *)

Section RecordedMiss.

Import Api.

Lemma total_attempts_app (l1 l2 : list UserWrongAnswer) :
  total_attempts (l1 ++ l2) = (total_attempts l1 + total_attempts l2)%Z.
Proof.
  unfold total_attempts. induction l1 as [|x r IH]; simpl; [reflexivity|].
  rewrite IH. lia.
Qed.

Lemma update_first_total (uid qid ans : str) (time : Z) (rows : list UserWrongAnswer)
    (wa : UserWrongAnswer) :
  find (same_pair uid qid) rows = Some wa ->
  total_attempts (update_first uid qid ans time rows) = (total_attempts rows + 1)%Z.
Proof.
  unfold total_attempts. induction rows as [|x r IH]; simpl; [discriminate|].
  destruct (same_pair uid qid x); simpl.
  - intros _. lia.
  - intros H. rewrite (IH H). lia.
Qed.

Lemma record_miss_total (uid qid category ans : str)
    (kw : option str) (time : Z) (rows : list UserWrongAnswer) :
  total_attempts (record_miss uid qid category ans kw time rows)
  = (total_attempts rows + 1)%Z.
Proof.
  unfold record_miss. destruct (find (same_pair uid qid) rows) as [wa|] eqn:E.
  - apply (update_first_total uid qid ans time rows E).
  - rewrite total_attempts_app. reflexivity.
Qed.

Lemma update_first_other_pairs (uid qid ans : str) (time : Z)
    (rows : list UserWrongAnswer) :
  other_pairs uid qid (update_first uid qid ans time rows) = other_pairs uid qid rows.
Proof.
  unfold other_pairs. induction rows as [|x r IH]; simpl; [reflexivity|].
  destruct (same_pair uid qid x) eqn:E; cbn [filter].
  - unfold same_pair in *. cbn [user_id question_id]. rewrite E. reflexivity.
  - rewrite E. cbn [negb]. rewrite IH. reflexivity.
Qed.

(** X5. Recording a miss of one (user, question) pair leaves the rows of
    every other pair as they were, in their order. *)
Theorem record_miss_spares_other_pairs (uid qid category ans : str)
    (kw : option str) (time : Z) (rows : list UserWrongAnswer) :
  other_pairs uid qid (record_miss uid qid category ans kw time rows)
  = other_pairs uid qid rows.
Proof.
  unfold record_miss. destruct (find (same_pair uid qid) rows) as [wa|].
  - apply update_first_other_pairs.
  - unfold other_pairs. rewrite filter_app. simpl.
    unfold same_pair at 2. simpl. rewrite !str_eqb_refl. simpl.
    apply app_nil_r.
Qed.

Lemma find_update_first (uid qid ans : str) (time : Z) (rows : list UserWrongAnswer)
    (old : UserWrongAnswer) :
  find (same_pair uid qid) rows = Some old ->
  find (same_pair uid qid) (update_first uid qid ans time rows)
  = Some {| wa_id := wa_id old; user_id := user_id old;
            question_id := question_id old;
            question_category := question_category old;
            user_answer := Some ans; created_at := time;
            attempt_count := (attempt_count old + 1)%Z;
            wa_keywords := wa_keywords old |}.
Proof.
  induction rows as [|x r IH]; simpl; [discriminate|].
  destruct (same_pair uid qid x) eqn:E; cbn [find].
  - intros H; injection H as <-.
    unfold same_pair in *. cbn [user_id question_id]. rewrite E. reflexivity.
  - rewrite E. exact IH.
Qed.

Lemma find_app_none {A} (p : A -> bool) (l1 l2 : list A) :
  find p l1 = None -> find p (l1 ++ l2) = find p l2.
Proof.
  induction l1 as [|x r IH]; simpl; [reflexivity|].
  destruct (p x); [discriminate | exact IH].
Qed.

(** X6. What is recorded is what the existence check of the next
    submission finds: the row of the pair holds the new answer and the
    new time; on a first miss it counts one attempt and takes the category
    and the keywords given; on a repeat it counts one attempt more and
    keeps the key, the category and the keywords it had, so the keywords
    of the question are not read again. *)
Theorem record_miss_lookup (uid qid category ans : str) (kw : option str)
    (time : Z) (rows : list UserWrongAnswer) :
  exists wa,
    find (same_pair uid qid) (record_miss uid qid category ans kw time rows) = Some wa
    /\ user_answer wa = Some ans /\ created_at wa = time
    /\ match find (same_pair uid qid) rows with
       | None =>
           attempt_count wa = 1%Z /\ question_category wa = category
           /\ wa_keywords wa = kw
       | Some old =>
           attempt_count wa = (attempt_count old + 1)%Z
           /\ wa_id wa = wa_id old
           /\ question_category wa = question_category old
           /\ wa_keywords wa = wa_keywords old
       end.
Proof.
  unfold record_miss. destruct (find (same_pair uid qid) rows) as [old|] eqn:E.
  - eexists. split; [apply (find_update_first uid qid ans time rows E)|].
    repeat split.
  - eexists. split.
    + rewrite (find_app_none _ _ _ E). simpl.
      unfold same_pair. simpl. rewrite !str_eqb_refl. reflexivity.
    + repeat split.
Qed.

End RecordedMiss.

(** ** Grading a submitted test *)

Section Scoring.

Import Api.

Variable rt : Runtime.

Lemma points_of_app (l1 l2 : list Detail) :
  points_of (l1 ++ l2) = (points_of l1 + points_of l2)%Z.
Proof.
  unfold points_of. induction l1 as [|x r IH]; simpl; [reflexivity|].
  rewrite IH. lia.
Qed.

Lemma correct_among_app (l1 l2 : list Detail) :
  correct_among (l1 ++ l2) = (correct_among l1 + correct_among l2)%Z.
Proof. unfold correct_among. rewrite filter_app, length_app. lia. Qed.

Lemma missed_among_app (l1 l2 : list Detail) :
  missed_among (l1 ++ l2) = (missed_among l1 + missed_among l2)%Z.
Proof. unfold missed_among. rewrite filter_app, length_app. lia. Qed.

(** Finding the question of an answer reads the tables and nothing else. *)
Lemma locate_keeps (P : World -> Prop) (qid : str) :
  keeps P
    (match category_prefix qid with
     | Some c =>
         if truthy c && is_category c then
           model <- lift_option KeyError (mapping_get QUESTION_TYPE_MAPPING c) ;;
           found <- Query.first_by_id model qid ;;
           ret (match found with Some q => Some (c, q) | None => None end)
         else scan_models qid QUESTION_TYPE_MAPPING
     | None => scan_models qid QUESTION_TYPE_MAPPING
     end).
Proof.
  destruct (category_prefix qid) as [c|]; [|apply keeps_scan_models].
  destruct (truthy c && is_category c); [|apply keeps_scan_models].
  apply keeps_bind; [apply keeps_lift_option|]. intros model.
  apply keeps_bind; [apply keeps_first_by_id|]. intros found. apply keeps_ret.
Qed.

Lemma grade_one_keeps (P : World -> Prop) (user : option User)
    (acc : Z * list Detail) (answer_data : AnswerData) :
  (forall u qid category ans kw,
      user = Some u -> keeps P (store_miss u qid category ans kw)) ->
  keeps P (grade_one rt user acc answer_data).
Proof.
  intros Hstore. unfold grade_one. destruct acc as [n details].
  destruct (data_question_id answer_data) as [qid|]; [|apply keeps_ret].
  destruct (negb (truthy qid)); [apply keeps_ret|].
  apply keeps_bind; [apply locate_keeps|].
  intros [[category q]|]; [|apply keeps_ret].
  apply keeps_bind; [|intros; apply keeps_ret].
  destruct user as [u|]; [|apply keeps_ret].
  destruct (negb _); [apply Hstore; reflexivity | apply keeps_ret].
Qed.

Lemma grade_all_keeps (P : World -> Prop) (user : option User)
    (answers : list AnswerData) (acc : Z * list Detail) :
  (forall u qid category ans kw,
      user = Some u -> keeps P (store_miss u qid category ans kw)) ->
  keeps P (grade_all rt user acc answers).
Proof.
  intros Hstore. revert acc. induction answers as [|a rest IH]; intros acc; simpl.
  - apply keeps_ret.
  - apply keeps_bind; [apply grade_one_keeps; exact Hstore | intros; apply IH].
Qed.

Lemma store_miss_same_bank (w0 : World) (u : User) (qid category ans : str)
    (kw : option str) :
  keeps (same_bank w0) (store_miss u qid category ans kw).
Proof.
  intros w H. unfold store_miss, bind, Query.wrong_answers, Query.current_time,
    Query.commit_wrong_answers.
  destruct (user_wrong_answers (session w)); simpl; exact H.
Qed.

(** X7. Grading a test writes to the wrong-answer table only: the
    question tables, the users, the clock and the random generator are
    after the request what they were before it, whatever is submitted and
    also when the request ends in an error. *)
Theorem submit_test_keeps_bank (submission : TestSubmission) (w : World) :
  same_bank w (snd (submit_test rt submission w)).
Proof.
  assert (H : keeps (same_bank w) (submit_test rt submission)).
  { unfold submit_test. apply keeps_try_except; [|intros; apply keeps_raise].
    apply keeps_bind.
    - destruct (submission_user_id submission) as [uid|]; [|apply keeps_ret].
      destruct (truthy uid); [apply keeps_user_by_id | apply keeps_ret].
    - intros user. apply keeps_bind.
      + apply grade_all_keeps. intros. apply store_miss_same_bank.
      + intros [n details]. apply keeps_ret. }
  apply H. repeat split.
Qed.

(** X8. A submission that names no user, an empty user id, or a user
    the table of users does not hold (or that cannot be read) changes
    nothing at all, whatever the answers are and also when the request
    ends in an error. *)
Theorem submit_test_unidentified_reads_only (submission : TestSubmission) (w : World) :
  identifies submission w = false ->
  snd (submit_test rt submission w) = w.
Proof.
  intros Hid.
  assert (Hg : forall acc, keeps (fun x => x = w)
                             (grade_all rt None acc (answers submission)))
    by (intros acc; apply grade_all_keeps; intros; discriminate).
  unfold submit_test, try_except, bind. unfold identifies in Hid.
  destruct (submission_user_id submission) as [uid|].
  - destruct (truthy uid); simpl in Hid.
    + unfold Query.user_by_id.
      destruct (users (session w)) as [us|]; [|reflexivity].
      destruct (find _ us); [discriminate|].
      specialize (Hg (0%Z, []) w eq_refl).
      destruct (grade_all rt None (0%Z, []) (answers submission) w)
        as [[[n details]|e] w1]; simpl in *; exact Hg.
    + unfold ret at 1.
      specialize (Hg (0%Z, []) w eq_refl).
      destruct (grade_all rt None (0%Z, []) (answers submission) w)
        as [[[n details]|e] w1]; simpl in *; exact Hg.
  - unfold ret at 1.
    specialize (Hg (0%Z, []) w eq_refl).
    destruct (grade_all rt None (0%Z, []) (answers submission) w)
      as [[[n details]|e] w1]; simpl in *; exact Hg.
Qed.

Ltac tally :=
  unfold correct_among, points_of, missed_among; simpl; solve [lia | reflexivity].

(** What one turn of the grading loop does when it goes through. *)
Lemma grade_one_returns (user : option User) (n n' : Z) (ds ds' : list Detail)
    (answer_data : AnswerData) (w w' : World) :
  grade_one rt user (n, ds) answer_data w = (Return (n', ds'), w') ->
  exists new,
    ds' = ds ++ new
    /\ List.length new = (if answered answer_data then 1 else 0)
    /\ n' = (n + correct_among new)%Z
    /\ points_of new = (5 * correct_among new)%Z
    /\ match user with
       | None => True
       | Some _ =>
           forall rows, user_wrong_answers (session w) = Some rows ->
           exists rows',
             user_wrong_answers (session w') = Some rows'
             /\ total_attempts rows' = (total_attempts rows + missed_among new)%Z
       end.
Proof.
  assert (Hskip : answered answer_data = false ->
                  ret (n, ds) w = (Return (n', ds'), w') ->
                  exists new,
                    ds' = ds ++ new
                    /\ List.length new = (if answered answer_data then 1 else 0)
                    /\ n' = (n + correct_among new)%Z
                    /\ points_of new = (5 * correct_among new)%Z
                    /\ match user with
                       | None => True
                       | Some _ =>
                           forall rows, user_wrong_answers (session w) = Some rows ->
                           exists rows',
                             user_wrong_answers (session w') = Some rows'
                             /\ total_attempts rows'
                                = (total_attempts rows + missed_among new)%Z
                       end).
  { unfold ret. intros Ha H. injection H as <- <- <-. exists [].
    rewrite app_nil_r, Ha. split; [reflexivity|].
    split; [reflexivity|]. split; [tally|]. split; [tally|].
    destruct user; [|exact I]. intros rows Hr. exists rows.
    split; [exact Hr | tally]. }
  unfold grade_one. unfold answered in *.
  destruct (data_question_id answer_data) as [qid|]; [|apply Hskip; reflexivity].
  destruct (truthy qid); cbn [negb]; [|apply Hskip; reflexivity]. clear Hskip.
  intros H. apply bind_returns in H. destruct H as (located & w1 & Hloc & H).
  assert (Hw1 : w1 = w).
  { pose proof (@locate_keeps (fun x => x = w) qid w eq_refl) as Hk.
    rewrite Hloc in Hk. exact Hk. }
  subst w1. clear Hloc.
  destruct located as [[category q]|].
  - apply bind_returns in H. destruct H as ([] & w2 & Hstore & H).
    unfold ret in H. injection H as <- <- <-.
    destruct (str_eqb (py_lower rt _) (py_lower rt (answer q))) eqn:Ec.
    + eexists. split; [reflexivity|].
      split; [reflexivity|]. split; [tally|]. split; [tally|].
      destruct user as [u|]; [|exact I].
      simpl in Hstore. unfold ret in Hstore. injection Hstore as <-.
      intros rows Hr. exists rows. split; [exact Hr|].
      unfold missed_among. cbn [filter detail_feedback].
      replace (str_eqb msg_correct msg_wrong) with false by (vm_compute; reflexivity).
      simpl. lia.
    + eexists. split; [reflexivity|].
      split; [reflexivity|]. split; [tally|]. split; [tally|].
      destruct user as [u|]; [|exact I].
      simpl in Hstore.
      unfold store_miss, bind, Query.wrong_answers, Query.current_time,
        Query.commit_wrong_answers in Hstore.
      intros rows Hr. rewrite Hr in Hstore. injection Hstore as <-.
      eexists. split; [reflexivity|].
      rewrite record_miss_total.
      unfold missed_among. cbn [filter detail_feedback].
      rewrite str_eqb_refl. simpl. lia.
  - unfold ret in H. injection H as <- <- <-.
    eexists. split; [reflexivity|].
    split; [reflexivity|]. split; [tally|]. split; [tally|].
    destruct user as [u|]; [|exact I].
    intros rows Hr. exists rows. split; [exact Hr|].
    unfold missed_among. cbn [filter detail_feedback].
    replace (str_eqb msg_not_found msg_wrong) with false by (vm_compute; reflexivity).
    simpl. lia.
Qed.

Lemma grade_all_returns (user : option User) (answers : list AnswerData)
    (n n' : Z) (ds ds' : list Detail) (w w' : World) :
  grade_all rt user (n, ds) answers w = (Return (n', ds'), w') ->
  exists new,
    ds' = ds ++ new
    /\ List.length new = List.length (filter answered answers)
    /\ n' = (n + correct_among new)%Z
    /\ points_of new = (5 * correct_among new)%Z
    /\ match user with
       | None => True
       | Some _ =>
           forall rows, user_wrong_answers (session w) = Some rows ->
           exists rows',
             user_wrong_answers (session w') = Some rows'
             /\ total_attempts rows' = (total_attempts rows + missed_among new)%Z
       end.
Proof.
  revert n ds w. induction answers as [|a rest IH]; intros n ds w; cbn [grade_all].
  - unfold ret. intros H. injection H as <- <- <-. exists [].
    rewrite app_nil_r. split; [reflexivity|].
    split; [reflexivity|]. split; [tally|]. split; [tally|].
    destruct user; [|exact I]. intros rows Hr. exists rows.
    split; [exact Hr | tally].
  - intros H. apply bind_returns in H. destruct H as ([n1 ds1] & w1 & H1 & H).
    apply grade_one_returns in H1. destruct H1 as (new1 & -> & Hl1 & -> & Hp1 & Hu1).
    apply IH in H. destruct H as (new2 & -> & Hl2 & -> & Hp2 & Hu2).
    exists (new1 ++ new2). rewrite <- app_assoc.
    rewrite length_app, correct_among_app, points_of_app.
    split; [reflexivity|].
    split; [cbn [filter]; destruct (answered a); simpl; lia|].
    split; [lia|]. split; [lia|].
    destruct user; [|exact I]. intros rows Hr.
    destruct (Hu1 rows Hr) as (rows1 & Hr1 & Ht1).
    destruct (Hu2 rows1 Hr1) as (rows2 & Hr2 & Ht2).
    exists rows2. split; [exact Hr2|]. rewrite missed_among_app. lia.
Qed.

(** X9. The result of a graded test adds up: the score is the sum of the
    points of the details, five for every answer graded correct; the
    count of correct answers is the number of details marked correct;
    there is one detail for every entry that names a question and none
    for the others, which [total_questions] counts all the same; and the
    test is passed exactly when twelve answers or more are correct. *)
Theorem submit_test_scoring (submission : TestSubmission) (w w' : World)
    (r : TestResult) :
  submit_test rt submission w = (Return r, w') ->
  total_questions r = Z.of_nat (List.length (answers submission))
  /\ List.length (result_details r)
     = List.length (filter answered (answers submission))
  /\ correct_count r = correct_among (result_details r)
  /\ total_score r = points_of (result_details r)
  /\ is_passed r = (12 <=? correct_count r)%Z.
Proof.
  intros H. unfold submit_test in H.
  apply try_except_returns in H. destruct H as [H | (e & w1 & _ & H)];
    [|discriminate H].
  apply bind_returns in H. destruct H as (user & w1 & _ & H).
  apply bind_returns in H. destruct H as ([n ds] & w2 & Hg & H).
  unfold ret in H. injection H as <- _.
  apply grade_all_returns in Hg. destruct Hg as (new & -> & Hl & -> & Hp & _).
  cbn [total_questions result_details correct_count total_score is_passed app].
  repeat split; lia.
Qed.

(** X10. For a user the table of users holds, every answer graded wrong
    counts as exactly one attempt more in the wrong-answer table, and
    nothing else does: neither a correct answer nor an answer to a
    question that was not found. *)
Theorem submit_test_counts_misses (submission : TestSubmission) (w w' : World)
    (r : TestResult) (rows : list UserWrongAnswer) :
  identifies submission w = true ->
  user_wrong_answers (session w) = Some rows ->
  submit_test rt submission w = (Return r, w') ->
  exists rows',
    user_wrong_answers (session w') = Some rows'
    /\ total_attempts rows' = (total_attempts rows + missed_among (result_details r))%Z.
Proof.
  intros Hid Hrows H. unfold submit_test in H.
  apply try_except_returns in H. destruct H as [H | (e & w1 & _ & H)];
    [|discriminate H].
  apply bind_returns in H. destruct H as (user & w1 & Hu & H).
  apply bind_returns in H. destruct H as ([n ds] & w2 & Hg & H).
  unfold ret in H. injection H as <- <-.
  unfold identifies in Hid.
  destruct (submission_user_id submission) as [uid|]; [|discriminate].
  destruct (truthy uid); [|discriminate]. simpl in Hid.
  unfold Query.user_by_id in Hu.
  destruct (users (session w)) as [us|]; [|discriminate].
  destruct (find _ us) as [u|]; [|discriminate].
  injection Hu as <- <-.
  apply grade_all_returns in Hg. destruct Hg as (new & -> & _ & _ & _ & Hacc).
  exact (Hacc rows Hrows).
Qed.

End Scoring.

Lemma submit_test_unidentified_witness :
  snd (Api.submit_test Offline.runtime anonymous_submission (Bank.world Bank.small []))
  = Bank.world Bank.small [].
Proof.
  apply (@submit_test_unidentified_reads_only Offline.runtime anonymous_submission
           (Bank.world Bank.small [])).
  reflexivity.
Defined.

Lemma submit_test_scoring_witness :
  exists r w',
    Api.submit_test Offline.runtime anonymous_submission (Bank.world Bank.small [])
    = (Return r, w')
    /\ (Api.total_questions r = Z.of_nat (List.length (Api.answers anonymous_submission))
        /\ List.length (Api.result_details r)
           = List.length (filter answered (Api.answers anonymous_submission))
        /\ Api.correct_count r = correct_among (Api.result_details r)
        /\ Api.total_score r = points_of (Api.result_details r)
        /\ Api.is_passed r = (12 <=? Api.correct_count r)%Z).
Proof.
  eexists. eexists. split; [vm_compute; reflexivity|].
  eapply (@submit_test_scoring Offline.runtime anonymous_submission
            (Bank.world Bank.small [])).
  vm_compute. reflexivity.
Defined.

Lemma submit_test_counts_witness :
  exists r w' rows',
    Api.submit_test Offline.runtime identified_submission (Bank.world Bank.small [])
    = (Return r, w')
    /\ user_wrong_answers (session w') = Some rows'
    /\ total_attempts rows' = 1%Z.
Proof.
  destruct (@submit_test_counts_misses Offline.runtime identified_submission
              (Bank.world Bank.small []) _ _ [] eq_refl eq_refl eq_refl)
    as (rows' & Hr & Ht).
  eexists. eexists. exists rows'. split; [reflexivity|]. split; [exact Hr | exact Ht].
Defined.

(** ** Handlers that only read *)

Section Reads.

Variable s : Session.

Lemma reads_ret {A} (a : A) (Q : A -> Prop) : Q a -> reads s (ret a) Q.
Proof.
  intros H w Hw. split; [exact Hw|]. simpl. intros b E. injection E as <-. exact H.
Qed.

Lemma reads_raise {A} (e : Exception) (Q : A -> Prop) : reads s (raise e) Q.
Proof. intros w Hw. split; [exact Hw|]. simpl. discriminate. Qed.

Lemma reads_bind {A B} (m : M A) (k : A -> M B) (Q : A -> Prop) (R : B -> Prop) :
  reads s m Q -> (forall a, Q a -> reads s (k a) R) -> reads s (bind m k) R.
Proof.
  intros Hm Hk w Hw. destruct (Hm w Hw) as [Hs Hq]. unfold bind.
  destruct (m w) as [[a|e] w1]; simpl in *.
  - apply (Hk a (Hq a eq_refl) w1 Hs).
  - split; [exact Hs | discriminate].
Qed.

Lemma reads_weaken {A} (m : M A) (Q Q' : A -> Prop) :
  reads s m Q -> (forall a, Q a -> Q' a) -> reads s m Q'.
Proof.
  intros Hm Hq w Hw. destruct (Hm w Hw) as [Hs Ha].
  split; [exact Hs|]. intros a E. apply Hq, Ha, E.
Qed.

Lemma reads_try_except {A} (body : M A) (handler : Exception -> M A) (Q : A -> Prop) :
  reads s body Q -> (forall e, reads s (handler e) Q) ->
  reads s (try_except body handler) Q.
Proof.
  intros Hb Hh w Hw. destruct (Hb w Hw) as [Hs Hq]. unfold try_except.
  destruct (body w) as [[a|e] w1]; simpl in *.
  - split; [exact Hs | exact Hq].
  - apply (Hh e w1 Hs).
Qed.

Lemma reads_lift_option {A} (e : Exception) (o : option A) :
  reads s (lift_option e o) (fun a => o = Some a).
Proof.
  destruct o as [a|]; [apply reads_ret; reflexivity | apply reads_raise].
Qed.

Lemma reads_all (c : Category) :
  reads s (Query.all c) (fun rows => questions_of s c = Some rows).
Proof.
  intros w Hw. unfold Query.all. rewrite Hw.
  destruct (questions_of s c) as [rows|]; simpl.
  - split; [exact Hw|]. intros a E. injection E as <-. reflexivity.
  - split; [exact Hw | discriminate].
Qed.

Lemma reads_first_by_id (c : Category) (qid : str) :
  reads s (Query.first_by_id c qid)
    (fun found => exists rows, questions_of s c = Some rows
                               /\ found = Query.first_with_id qid rows).
Proof.
  unfold Query.first_by_id. eapply reads_bind; [apply reads_all|].
  intros rows Hr. apply reads_ret. exists rows. auto.
Qed.

Lemma reads_with_id_in (c : Category) (ids : list str) :
  reads s (Query.with_id_in c ids)
    (fun qs => exists rows, questions_of s c = Some rows
                            /\ qs = filter (Query.id_in ids) rows).
Proof.
  unfold Query.with_id_in. eapply reads_bind; [apply reads_all|].
  intros rows Hr. apply reads_ret. exists rows. auto.
Qed.

Lemma reads_with_id_not_in (c : Category) (ids : list str) :
  reads s (Query.with_id_not_in c ids)
    (fun qs => exists rows, questions_of s c = Some rows
                            /\ qs = filter (fun q => negb (Query.id_in ids q)) rows).
Proof.
  unfold Query.with_id_not_in. eapply reads_bind; [apply reads_all|].
  intros rows Hr. apply reads_ret. exists rows. auto.
Qed.

Lemma reads_user_by_id (uid : str) :
  reads s (Query.user_by_id uid)
    (fun found => exists us, users s = Some us
                             /\ found = find (fun u => str_eqb (user_pk u) uid) us).
Proof.
  intros w Hw. unfold Query.user_by_id. rewrite Hw.
  destruct (users s) as [us|]; simpl.
  - split; [exact Hw|]. intros a E. injection E as <-. exists us. auto.
  - split; [exact Hw | discriminate].
Qed.

Lemma reads_wrong_answers :
  reads s Query.wrong_answers (fun rows => user_wrong_answers s = Some rows).
Proof.
  intros w Hw. unfold Query.wrong_answers. rewrite Hw.
  destruct (user_wrong_answers s) as [rows|]; simpl.
  - split; [exact Hw|]. intros a E. injection E as <-. reflexivity.
  - split; [exact Hw | discriminate].
Qed.

Lemma reads_sample {A} (population : list A) (k : Z) :
  reads s (Random.sample population k)
    (fun xs => (0 <= k <= Z.of_nat (List.length population))%Z
               /\ List.length xs = Z.to_nat k
               /\ exists rest, Permutation (xs ++ rest) population).
Proof.
  intros w Hw.
  destruct ((k <? 0)%Z || (Z.of_nat (List.length population) <? k)%Z) eqn:E.
  - unfold Random.sample. rewrite E. simpl. split; [exact Hw | discriminate].
  - apply orb_false_iff in E. destruct E as [E1 E2].
    apply Z.ltb_ge in E1, E2.
    destruct (@sample_spec A population k w ltac:(lia))
      as (xs & w' & E & Hs & Hl & Hp).
    rewrite E. simpl. split; [congruence|].
    intros a Ea. injection Ea as <-. split; [lia | auto].
Qed.

Lemma reads_shuffle {A} (x : list A) :
  reads s (Random.shuffle x) (fun xs => Permutation xs x).
Proof.
  intros w Hw. destruct (@shuffle_spec A x w) as (xs & w' & E & Hs & Hp).
  rewrite E. simpl. split; [congruence|].
  intros a Ea. injection Ea as <-. exact Hp.
Qed.

Lemma reads_random_choice {A} (first : A) (others : list A) :
  reads s (Api.random_choice first others) (fun a => In a (first :: others)).
Proof.
  intros w Hw. unfold Api.random_choice.
  destruct (Random.next_draw (draws w)) as [d ds]. cbn [fst snd session].
  split; [exact Hw|].
  pose proof (nth_in_or_default (d mod S (List.length others)) (first :: others) first)
    as H.
  intros a E. injection E as <-.
  destruct H as [H | H]; [exact H | left; symmetry; exact H].
Qed.

Lemma reads_scan_models (qid : str) (models : list (str * Category)) :
  reads s (Api.scan_models qid models)
    (fun found =>
       match found with
       | Some (name, q) =>
           exists c rows, In (name, c) models /\ questions_of s c = Some rows
                          /\ Query.first_with_id qid rows = Some q
       | None =>
           forall name c, In (name, c) models ->
                          exists rows, questions_of s c = Some rows
                                       /\ Query.first_with_id qid rows = None
       end).
Proof.
  induction models as [|[name model] rest IH]; simpl.
  - apply reads_ret. intros ? ? [].
  - eapply reads_bind; [apply reads_first_by_id|].
    intros found (rows & Hr & ->).
    destruct (Query.first_with_id qid rows) as [q|] eqn:E.
    + apply reads_ret. exists model, rows. auto.
    + eapply reads_weaken; [exact IH|].
      intros [[n q]|].
      * intros (c & rows' & Hin & H). exists c, rows'. split; [right; exact Hin | exact H].
      * intros H n c [Hin | Hin]; [|apply (H n c Hin)].
        injection Hin as <- <-. exists rows. auto.
Qed.

End Reads.

Lemma first_with_id_some (qid : str) (rows : list Question) (q : Question) :
  Query.first_with_id qid rows = Some q -> In q rows /\ id q = qid.
Proof.
  induction rows as [|x r IH]; simpl; [discriminate|].
  destruct (str_eqb (id x) qid) eqn:E.
  - intros H; injection H as <-. apply str_eqb_eq in E. auto.
  - intros H. destruct (IH H). auto.
Qed.

Lemma first_with_id_none (qid : str) (rows : list Question) :
  Query.first_with_id qid rows = None -> ~ In qid (map id rows).
Proof.
  induction rows as [|x r IH]; simpl; [tauto|].
  destruct (str_eqb (id x) qid) eqn:E; [discriminate|].
  intros H [Hx | Hin]; [|exact (IH H Hin)].
  apply (proj1 (str_eqb_neq _ _)) in E. contradiction.
Qed.

Lemma first_with_id_key (rows : list Question) (q : Question) :
  primary_key rows -> In q rows -> Query.first_with_id (id q) rows = Some q.
Proof.
  unfold primary_key. induction rows as [|x r IH]; simpl; [tauto|].
  intros Hpk Hin. inversion Hpk as [|? ? Hnot Hr]; subst.
  destruct (str_eqb (id x) (id q)) eqn:E.
  - destruct Hin as [-> | Hin]; [reflexivity|].
    apply str_eqb_eq in E. exfalso. apply Hnot. rewrite E. apply in_map. exact Hin.
  - destruct Hin as [-> | Hin]; [rewrite str_eqb_refl in E; discriminate|].
    apply IH; assumption.
Qed.

Lemma first_with_id_in (qid : str) (rows : list Question) :
  In qid (map id rows) -> exists q, Query.first_with_id qid rows = Some q.
Proof.
  intros H. destruct (Query.first_with_id qid rows) as [q|] eqn:E.
  - exists q. reflexivity.
  - exfalso. exact (@first_with_id_none qid rows E H).
Qed.

Lemma primary_key_inj (rows : list Question) (q q' : Question) :
  primary_key rows -> In q rows -> In q' rows -> id q = id q' -> q = q'.
Proof.
  intros Hpk Hq Hq' E.
  pose proof (@first_with_id_key rows q Hpk Hq) as H1.
  pose proof (@first_with_id_key rows q' Hpk Hq') as H2.
  rewrite E in H1. congruence.
Qed.

Lemma of_difficulty_incl (wanted : option Z) (rows : list Question) :
  incl (Api.of_difficulty wanted rows) rows.
Proof.
  unfold Api.of_difficulty. destruct wanted as [d|]; [|apply incl_refl].
  destruct (d =? 0)%Z; [apply incl_refl|].
  intros q Hq. apply filter_In in Hq. tauto.
Qed.

(** A handler whose [except] clause raises a 500 fails with nothing
    else. *)
Lemma fails_with_500 {A} (body : M A) (w : World) (e : Exception) :
  fst (try_except body (fun _ => raise (HTTPException 500)) w) = Raise e ->
  e = HTTPException 500.
Proof.
  unfold try_except. destruct (body w) as [[a|e'] w1]; simpl; [discriminate|].
  intros H; injection H as <-. reflexivity.
Qed.

(** ** Looking up one question *)

Section GetQuestion.

Import Api.

(** X11. Whatever the id and the database, [get_question] changes
    nothing and either returns a stored question that has the id asked
    for, from the table of the id's prefix when the prefix names a table,
    or fails with status 500: the 404 of a question that is not found is
    caught by the handler's own [except] and never leaves it. *)
Theorem get_question_outcome (qid : str) (w : World) :
  snd (get_question qid w) = w
  /\ match fst (get_question qid w) with
     | Return q =>
         id q = qid
         /\ exists c, stored_in (session w) (c, q)
                      /\ forall name c0,
                           category_prefix qid = Some name ->
                           mapping_get QUESTION_TYPE_MAPPING name = Some c0 ->
                           c = c0
     | Raise e => e = HTTPException 500
     end.
Proof.
  split.
  - assert (H : keeps (fun x => x = w) (get_question qid)).
    { unfold get_question. apply keeps_try_except; [|intros; apply keeps_raise].
      destruct (_ || _).
      - apply keeps_bind; [apply keeps_scan_models|].
        intros [[n q]|]; [apply keeps_ret | apply keeps_raise].
      - apply keeps_bind; [apply keeps_lift_option|]. intros model.
        apply keeps_bind; [apply keeps_first_by_id|].
        intros [q|]; [apply keeps_ret | apply keeps_raise]. }
    apply H. reflexivity.
  - assert (H : reads (session w) (get_question qid)
                  (fun q => id q = qid
                            /\ exists c, stored_in (session w) (c, q)
                                 /\ forall name c0,
                                      category_prefix qid = Some name ->
                                      mapping_get QUESTION_TYPE_MAPPING name = Some c0 ->
                                      c = c0)).
    { unfold get_question. apply reads_try_except; [|intros; apply reads_raise].
      destruct (negb (named (category_prefix qid))
                || negb match category_prefix qid with
                        | Some c => is_category c
                        | None => false
                        end) eqn:Eb.
      - eapply reads_bind; [apply reads_scan_models|].
        intros [[n q]|]; [|intros; apply reads_raise].
        intros (c & rows & Hin & Hr & Hq). apply reads_ret.
        apply first_with_id_some in Hq. destruct Hq as [Hq Hid].
        split; [exact Hid|]. exists c. split; [exists rows; auto|].
        intros name c0 Hp Hm. exfalso.
        rewrite Hp in Eb. destruct (@mapping_get_named _ _ Hm) as [Hn Hc].
        rewrite Hn, Hc in Eb. discriminate.
      - eapply reads_bind; [apply reads_lift_option|]. intros model Hm.
        eapply reads_bind; [apply reads_first_by_id|].
        intros found (rows & Hr & ->).
        destruct (Query.first_with_id qid rows) as [q|] eqn:Hq;
          [|apply reads_raise].
        apply reads_ret. apply first_with_id_some in Hq. destruct Hq as [Hq Hid].
        split; [exact Hid|]. exists model. split; [exists rows; auto|].
        intros name c0 Hp Hm'. rewrite Hp in Hm. congruence. }
    destruct (H w eq_refl) as [_ Hq].
    destruct (fst (get_question qid w)) as [q|e] eqn:E.
    + apply Hq. reflexivity.
    + apply (@fails_with_500 _ _ w e E).
Qed.

(** X12. Under the primary key, a stored question whose id starts with
    the name of its own table is what [get_question] returns for its
    id. *)
Theorem get_question_round_trip (name : str) (c : Category) (rows : list Question)
    (q : Question) (w : World) :
  category_prefix (id q) = Some name ->
  mapping_get QUESTION_TYPE_MAPPING name = Some c ->
  questions_of (session w) c = Some rows ->
  primary_key rows -> In q rows ->
  get_question (id q) w = (Return q, w).
Proof.
  intros Hp Hm Hr Hpk Hq. unfold get_question, try_except. rewrite Hp.
  destruct (@mapping_get_named _ _ Hm) as [Hn Hc]. rewrite Hn, Hc, Hm.
  cbn [negb orb lift_option].
  unfold bind, ret, Query.first_by_id, Query.all, bind, ret. rewrite Hr.
  rewrite (@first_with_id_key rows q Hpk Hq). reflexivity.
Qed.

(** X13. The prefix of an id decides where [get_question] looks: when it
    names a table that does not hold the id, the request fails with
    status 500, also when another table holds a question of that id. *)
Theorem get_question_trusts_prefix (name qid : str) (c : Category)
    (rows : list Question) (w : World) :
  category_prefix qid = Some name ->
  mapping_get QUESTION_TYPE_MAPPING name = Some c ->
  questions_of (session w) c = Some rows ->
  Query.first_with_id qid rows = None ->
  get_question qid w = (Raise (HTTPException 500), w).
Proof.
  intros Hp Hm Hr Hnot. unfold get_question, try_except. rewrite Hp.
  destruct (@mapping_get_named _ _ Hm) as [Hn Hc]. rewrite Hn, Hc, Hm.
  cbn [negb orb lift_option].
  unfold bind, ret, Query.first_by_id, Query.all, bind, ret. rewrite Hr, Hnot.
  reflexivity.
Qed.

End GetQuestion.

Lemma small_bank_keyed : keyed Bank.small.
Proof.
  intros c rows H. apply distinct_NoDup.
  destruct c; injection H as <-; reflexivity.
Qed.

Lemma full_bank_keyed : keyed Bank.full.
Proof.
  intros c rows H. apply distinct_NoDup.
  destruct c; injection H as <-; reflexivity.
Qed.

Lemma get_question_round_trip_witness :
  Api.get_question (id Bank.abbreviation_row) (Bank.world Bank.small [])
  = (Return Bank.abbreviation_row, Bank.world Bank.small []).
Proof.
  apply (@get_question_round_trip (lit "network") network [Bank.abbreviation_row]
           Bank.abbreviation_row (Bank.world Bank.small [])).
  - reflexivity.
  - reflexivity.
  - reflexivity.
  - apply distinct_NoDup. reflexivity.
  - left. reflexivity.
Defined.

Lemma get_question_trusts_prefix_witness :
  Api.get_question (lit "os-7") (Bank.world misfiled [])
  = (Raise (HTTPException 500), Bank.world misfiled []).
Proof.
  apply (@get_question_trusts_prefix (lit "os") (lit "os-7") os [Bank.list_row]
           (Bank.world misfiled [])); reflexivity.
Defined.

(** ** A random question *)

Section RandomQuestion.

Import Api.

Variable s : Session.

Lemma reads_question_ids (model : Category) (wanted : option Z) :
  reads s (rows <- query_all model wanted ;; ret (map id rows))
    (fun ids => exists rows, questions_of s model = Some rows
                             /\ ids = map id (of_difficulty wanted rows)).
Proof.
  unfold query_all.
  eapply (@reads_bind s _ _ _ _
            (fun filtered => exists rows, questions_of s model = Some rows
                                          /\ filtered = of_difficulty wanted rows)).
  - eapply reads_bind; [apply reads_all|].
    intros rows Hr. apply reads_ret. exists rows. auto.
  - intros rows' (rows & Hr & ->). apply reads_ret. exists rows. auto.
Qed.

Lemma reads_query_count (model : Category) (wanted : option Z) :
  reads s (query_count model wanted)
    (fun n => exists rows, questions_of s model = Some rows
                           /\ n = Z.of_nat (List.length (of_difficulty wanted rows))).
Proof.
  unfold query_count. eapply reads_bind; [apply reads_all|].
  intros rows Hr. apply reads_ret. exists rows. auto.
Qed.

(** Reading back one of the ids of the wanted rows. *)
Lemma reads_pick (model : Category) (wanted : option Z) (rows : list Question)
    (first : str) (others : list str) (selected : str) :
  questions_of s model = Some rows ->
  first :: others = map id (of_difficulty wanted rows) ->
  In selected (first :: others) ->
  reads s (Query.first_by_id model selected) (drawn_from s wanted model).
Proof.
  intros Hr Hids Hsel. eapply reads_weaken; [apply reads_first_by_id|].
  intros found (rows' & Hr' & ->).
  assert (rows' = rows) as -> by congruence.
  rewrite Hids in Hsel.
  assert (Hin : In selected (map id rows)).
  { apply in_map_iff in Hsel. destruct Hsel as (q & <- & Hq).
    apply in_map. apply (@of_difficulty_incl wanted rows q Hq). }
  destruct (@first_with_id_in selected rows Hin) as [q Hq]. rewrite Hq.
  apply first_with_id_some in Hq. destruct Hq as [Hq Hid].
  exists rows, q. rewrite Hid. auto.
Qed.

Lemma reads_one_of_each (wanted : option Z) (categories : list str)
    (all_questions : list (option Question)) :
  Forall (fun r => exists c, drawn_from s wanted c r) all_questions ->
  reads s (one_of_each wanted categories all_questions)
    (Forall (fun r => exists c, drawn_from s wanted c r)).
Proof.
  revert all_questions. induction categories as [|cat rest IH];
    intros all_questions Hall; cbn [one_of_each].
  - apply reads_ret. exact Hall.
  - eapply reads_bind; [apply reads_lift_option|]. intros model Hm.
    eapply reads_bind; [apply reads_question_ids|].
    intros ids (rows & Hr & Hids).
    destruct ids as [|first others]; [apply IH; exact Hall|].
    eapply reads_bind; [apply reads_random_choice|]. intros selected Hsel.
    eapply reads_bind;
      [apply (@reads_pick model wanted rows first others selected Hr Hids Hsel)|].
    intros question Hq. apply IH.
    apply Forall_app. split; [exact Hall|].
    constructor; [exists model; exact Hq | constructor].
Qed.

End RandomQuestion.

(** X14. Whatever the category, the difficulty, the database and the
    draws, [get_random_question] writes nothing and either returns a
    question (never the absent result of a query) that is stored, in the
    table of the category when one is given, and under the primary key has
    the difficulty asked for, or fails with status 500: also for an
    unknown category and for a bank with no question to offer, whose 404
    is caught by the handler's own [except]. *)
Theorem get_random_question_outcome (category : option str) (wanted : option Z)
    (w : World) :
  session (snd (Api.get_random_question category wanted w)) = session w
  /\ match fst (Api.get_random_question category wanted w) with
     | Return r =>
         exists c rows q,
           r = Some q /\ questions_of (session w) c = Some rows /\ In q rows
           /\ (primary_key rows -> In q (Api.of_difficulty wanted rows))
           /\ (forall name, category = Some name -> name <> [] ->
                            Api.mapping_get Api.QUESTION_TYPE_MAPPING name = Some c)
     | Raise e => e = HTTPException 500
     end.
Proof.
  assert (Hkey : forall c r, drawn_from (session w) wanted c r ->
            exists rows q,
              r = Some q /\ questions_of (session w) c = Some rows /\ In q rows
              /\ (primary_key rows -> In q (Api.of_difficulty wanted rows))).
  { intros c r (rows & q & -> & Hr & Hq & Hid). exists rows, q.
    split; [reflexivity|]. split; [exact Hr|]. split; [exact Hq|].
    intros Hpk. apply in_map_iff in Hid. destruct Hid as (q' & E & Hq').
    rewrite <- (@primary_key_inj rows q' q Hpk
                  (@of_difficulty_incl wanted rows q' Hq') Hq E).
    exact Hq'. }
  assert (H : reads (session w) (Api.get_random_question category wanted)
                (fun r => exists c,
                   drawn_from (session w) wanted c r
                   /\ forall name, category = Some name -> name <> [] ->
                        Api.mapping_get Api.QUESTION_TYPE_MAPPING name = Some c)).
  { unfold Api.get_random_question.
    apply reads_try_except; [|intros; apply reads_raise].
    destruct (Api.named category) eqn:En; cbn [andb].
    - destruct (negb _); [apply reads_raise|].
      eapply reads_bind; [apply reads_lift_option|]. intros model Hm.
      eapply reads_bind; [apply reads_question_ids|].
      intros ids (rows & Hr & Hids).
      destruct ids as [|first others]; [apply reads_raise|].
      eapply reads_bind; [apply reads_random_choice|]. intros selected Hsel.
      eapply reads_weaken;
        [apply (@reads_pick (session w) model wanted rows first others selected
                  Hr Hids Hsel)|].
      intros r Hd. exists model. split; [exact Hd|].
      intros name -> _. exact Hm.
    - eapply reads_bind; [apply reads_shuffle|]. intros categories _.
      eapply reads_bind; [apply reads_one_of_each; constructor|].
      intros all_questions Hall.
      destruct all_questions as [|first others]; [apply reads_raise|].
      eapply reads_weaken; [apply reads_random_choice|].
      intros r Hin. rewrite Forall_forall in Hall.
      destruct (Hall r Hin) as [c Hd]. exists c. split; [exact Hd|].
      intros name -> Hne. exfalso. destruct name; [congruence | discriminate En]. }
  destruct (H w eq_refl) as [Hs Hq]. split; [exact Hs|].
  destruct (fst (Api.get_random_question category wanted w)) as [r|e] eqn:E.
  - destruct (Hq r eq_refl) as (c & Hd & Hc).
    destruct (Hkey c r Hd) as (rows & q & H1 & H2 & H3 & H4).
    exists c, rows, q. auto.
  - apply (@fails_with_500 _ _ w e E).
Qed.

(** ** The wrong answers of a user *)

Section WrongAnswerList.

Import Api.

Lemma descending_app (l1 l2 : list Z) :
  descending (l1 ++ l2) <->
  descending l1 /\ descending l2 /\ forall a b, In a l1 -> In b l2 -> (b <= a)%Z.
Proof.
  induction l1 as [|x r IH]; simpl.
  - split; [intros H; repeat split; [exact H | intros ? ? []] | tauto].
  - rewrite IH. split.
    + intros [Hx (Hr & Hl2 & Hc)]. repeat split; auto.
      * intros b Hb. apply Hx. apply in_or_app. auto.
      * intros a b [<- | Ha] Hb; [apply Hx; apply in_or_app; auto | auto].
    + intros ([Hx Hr] & Hl2 & Hc). repeat split; auto.
      intros b Hb. apply in_app_or in Hb. destruct Hb as [Hb | Hb]; auto.
Qed.

Lemma insert_by_time_In (wa x : UserWrongAnswer) (sorted : list UserWrongAnswer) :
  In x (insert_by_time wa sorted) <-> x = wa \/ In x sorted.
Proof.
  induction sorted as [|y r IH]; simpl.
  - split; [intros [H | []]; auto | intros [H | []]; auto].
  - destruct (created_at y <? created_at wa)%Z; simpl; [|rewrite IH];
      split; intros H; intuition auto.
Qed.

Lemma insert_by_time_descending (wa : UserWrongAnswer) (sorted : list UserWrongAnswer) :
  descending (map created_at sorted) ->
  descending (map created_at (insert_by_time wa sorted)).
Proof.
  induction sorted as [|y r IH]; simpl.
  - intros _. split; [intros ? [] | exact I].
  - intros [Hy Hr].
    destruct (created_at y <? created_at wa)%Z eqn:E; simpl.
    + apply Z.ltb_lt in E. split; [|split; [exact Hy | exact Hr]].
      intros b [<- | Hb]; [lia|]. specialize (Hy b Hb). lia.
    + apply Z.ltb_ge in E. split; [|apply IH; exact Hr].
      intros b Hb. apply in_map_iff in Hb. destruct Hb as (x & <- & Hx).
      apply insert_by_time_In in Hx. destruct Hx as [-> | Hx]; [exact E|].
      apply Hy. apply in_map. exact Hx.
Qed.

Lemma latest_first_spec (rows : list UserWrongAnswer) :
  descending (map created_at (latest_first rows))
  /\ forall x, In x (latest_first rows) -> In x rows.
Proof.
  unfold latest_first.
  assert (H : forall acc,
             descending (map created_at acc) ->
             descending (map created_at
                           (fold_left (fun sorted wa => insert_by_time wa sorted) rows acc))
             /\ forall x,
                 In x (fold_left (fun sorted wa => insert_by_time wa sorted) rows acc) ->
                 In x acc \/ In x rows).
  { induction rows as [|wa r IH]; intros acc Hacc; simpl.
    - split; [exact Hacc | auto].
    - destruct (IH (insert_by_time wa acc) (insert_by_time_descending wa acc Hacc))
        as [Hd Hin].
      split; [exact Hd|]. intros x Hx.
      destruct (Hin x Hx) as [H | H]; [|auto].
      apply insert_by_time_In in H. destruct H as [-> | H]; auto. }
  destruct (H [] I) as [Hd Hin]. split; [exact Hd|].
  intros x Hx. destruct (Hin x Hx) as [[] | Hr]. exact Hr.
Qed.

(** A page is a piece of the sorted list. *)
Lemma page_spec (limit offset : nat) (l : list UserWrongAnswer) :
  descending (map created_at l) ->
  descending (map created_at (firstn limit (skipn offset l)))
  /\ (forall x, In x (firstn limit (skipn offset l)) -> In x l)
  /\ List.length (firstn limit (skipn offset l)) <= limit.
Proof.
  intros Hd.
  assert (E : l = skipn 0 (firstn offset l)
                  ++ firstn limit (skipn offset l)
                  ++ skipn limit (skipn offset l))
    by (simpl; rewrite !firstn_skipn; reflexivity).
  split; [|split].
  - rewrite E, !map_app in Hd.
    apply descending_app in Hd. destruct Hd as (_ & Hd & _).
    apply descending_app in Hd. tauto.
  - intros x Hx. rewrite E. apply in_or_app. right. apply in_or_app. auto.
  - apply firstn_le_length.
Qed.

Variable s : Session.

Lemma reads_describe (uid : str) (wrong_answers : list UserWrongAnswer)
    (result : list WrongAnswerResponse) :
  (forall wa, In wa wrong_answers ->
              exists rows, user_wrong_answers s = Some rows /\ In wa rows
                           /\ user_id wa = uid) ->
  Forall (describes s uid) result ->
  descending (map war_created_at result ++ map created_at wrong_answers) ->
  reads s (describe_wrong_answers wrong_answers result)
    (fun entries =>
       Forall (describes s uid) entries
       /\ descending (map war_created_at entries)
       /\ List.length entries <= List.length result + List.length wrong_answers).
Proof.
  revert result. induction wrong_answers as [|wa rest IH];
    intros result Hrows Hres Hd; cbn [describe_wrong_answers].
  - apply reads_ret. simpl in Hd. rewrite app_nil_r in Hd.
    split; [exact Hres|]. split; [exact Hd | simpl; lia].
  - eapply (@reads_bind s _ _ _ _
              (fun found =>
                 match found with
                 | Some q =>
                     exists c qs,
                       mapping_get QUESTION_TYPE_MAPPING (question_category wa) = Some c
                       /\ questions_of s c = Some qs /\ In q qs
                       /\ id q = question_id wa
                 | None => True
                 end)).
    + destruct (is_category (question_category wa)); [|apply reads_ret; exact I].
      eapply reads_bind; [apply reads_lift_option|]. intros model Hm.
      eapply reads_weaken; [apply reads_first_by_id|].
      intros found (qs & Hqs & ->).
      destruct (Query.first_with_id (question_id wa) qs) as [q|] eqn:E; [|exact I].
      apply first_with_id_some in E. destruct E as [Hq Hid].
      exists model, qs. auto.
    + assert (Hrest : forall x, In x rest ->
                exists rows, user_wrong_answers s = Some rows /\ In x rows
                             /\ user_id x = uid)
        by (intros x Hx; apply Hrows; right; exact Hx).
      intros [q|] Hfound.
      * destruct Hfound as (c & qs & Hm & Hqs & Hq & Hid).
        destruct (Hrows wa (or_introl eq_refl)) as (rows & Hr & Hwa & Hu).
        eapply reads_weaken.
        { apply IH; [exact Hrest | |].
          - apply Forall_app. split; [exact Hres|].
            constructor; [|constructor].
            exists rows, wa, c, qs, q. repeat split; assumption.
          - rewrite map_app, <- app_assoc. exact Hd. }
        intros entries (H1 & H2 & H3). rewrite length_app in H3. simpl in *.
        split; [exact H1|]. split; [exact H2 | lia].
      * eapply reads_weaken.
        { apply IH; [exact Hrest | exact Hres |].
          simpl in Hd. apply descending_app in Hd.
          destruct Hd as (H1 & [_ H2] & H3).
          apply descending_app. split; [exact H1|]. split; [exact H2|].
          intros a b Ha Hb. apply H3; [exact Ha | right; exact Hb]. }
        intros entries (H1 & H2 & H3). simpl.
        split; [exact H1|]. split; [exact H2 | lia].
Qed.

Lemma keeps_describe (P : World -> Prop) (wrong_answers : list UserWrongAnswer)
    (result : list WrongAnswerResponse) :
  keeps P (describe_wrong_answers wrong_answers result).
Proof.
  revert result. induction wrong_answers as [|wa rest IH]; intros result;
    cbn [describe_wrong_answers]; [apply keeps_ret|].
  apply keeps_bind.
  - destruct (is_category _); [|apply keeps_ret].
    apply keeps_bind; [apply keeps_lift_option|]. intros. apply keeps_first_by_id.
  - intros [q|]; apply IH.
Qed.

End WrongAnswerList.

(** X15. Whatever the user, the page and the database,
    [get_user_wrong_answers] changes nothing, and when it returns, the
    user is in the table of users, there are at most [limit] entries,
    the latest first, and every entry shows a row of that user with the
    question it points to; a row whose question is not found gives no
    entry. In every other case, an unknown user included, the request
    fails with status 500. *)
Theorem get_user_wrong_answers_outcome (uid : str) (limit offset : Z) (w : World) :
  snd (Api.get_user_wrong_answers uid limit offset w) = w
  /\ match fst (Api.get_user_wrong_answers uid limit offset w) with
     | Return entries =>
         (exists us u, users (session w) = Some us
                       /\ find (fun u => str_eqb (user_pk u) uid) us = Some u)
         /\ List.length entries <= Z.to_nat limit
         /\ descending (map Api.war_created_at entries)
         /\ Forall (describes (session w) uid) entries
     | Raise e => e = HTTPException 500
     end.
Proof.
  split.
  - assert (H : keeps (fun x => x = w) (Api.get_user_wrong_answers uid limit offset)).
    { unfold Api.get_user_wrong_answers.
      apply keeps_try_except; [|intros; apply keeps_raise].
      apply keeps_bind; [apply keeps_user_by_id|].
      intros [u|]; [|apply keeps_raise].
      apply keeps_bind; [apply keeps_wrong_answers|]. intros. apply keeps_describe. }
    apply H. reflexivity.
  - assert (H : reads (session w) (Api.get_user_wrong_answers uid limit offset)
                  (fun entries =>
                     (exists us u, users (session w) = Some us
                        /\ find (fun u => str_eqb (user_pk u) uid) us = Some u)
                     /\ List.length entries <= Z.to_nat limit
                     /\ descending (map Api.war_created_at entries)
                     /\ Forall (describes (session w) uid) entries)).
    { unfold Api.get_user_wrong_answers.
      apply reads_try_except; [|intros; apply reads_raise].
      eapply reads_bind; [apply reads_user_by_id|].
      intros found (us & Hus & ->).
      destruct (find _ us) as [u|] eqn:Hu; [|apply reads_raise].
      eapply reads_bind; [apply reads_wrong_answers|]. intros all_wrong Hall.
      destruct (latest_first_spec
                  (filter (fun wa => str_eqb (user_id wa) uid) all_wrong))
        as [Hd Hin].
      destruct (page_spec (Z.to_nat limit) (Z.to_nat offset) _ Hd)
        as (Hpd & Hpin & Hpl).
      eapply reads_weaken.
      { apply (@reads_describe (session w) uid); [| constructor |].
        - intros wa Hwa. apply Hpin, Hin, filter_In in Hwa.
          destruct Hwa as [Hwa E]. apply str_eqb_eq in E.
          exists all_wrong. auto.
        - exact Hpd. }
      intros entries (H1 & H2 & H3). simpl in H3.
      split; [exists us, u; auto|]. split; [lia|]. split; assumption. }
    destruct (H w eq_refl) as [_ Hq].
    destruct (fst (Api.get_user_wrong_answers uid limit offset w)) as [r|e] eqn:E.
    + apply Hq. reflexivity.
    + apply (@fails_with_500 _ _ w e E).
Qed.

(** ** What the generated tests are made of *)

Section Assembly.

Import Api.

Variable s : Session.

Lemma reads_share (count : Z) (ratio : float) :
  reads s (share count ratio) (fun _ => True).
Proof.
  unfold share. eapply reads_weaken; [apply reads_lift_option | auto].
Qed.

Lemma reads_draw_from (model : Category) (count : Z) :
  reads s (draw_from model count)
    (fun rows => exists stored qs,
       questions_of s model = Some stored /\ incl qs stored
       /\ rows = map (pair model) qs).
Proof.
  unfold draw_from.
  eapply (@reads_bind s _ _ _ _ (fun _ => True)).
  - eapply reads_bind; [apply reads_all|]. intros. apply reads_ret. exact I.
  - intros all_ids _.
    eapply (@reads_bind s _ _ _ _
              (fun qs => exists stored, questions_of s model = Some stored
                                        /\ incl qs stored)).
    + destruct (count <=? _)%Z.
      * eapply (@reads_bind s _ _ _ _ (fun _ => True)).
        { eapply reads_weaken; [apply reads_sample | auto]. }
        intros sel _. eapply reads_weaken; [apply reads_with_id_in|].
        intros qs (stored & Hs & ->). exists stored. split; [exact Hs|].
        intros q Hq. apply filter_In in Hq. tauto.
      * eapply reads_weaken; [apply reads_all|].
        intros stored Hs. exists stored. split; [exact Hs | apply incl_refl].
    + intros qs (stored & Hs & Hincl). apply reads_ret. exists stored, qs. auto.
Qed.

Lemma reads_extend_from (P : Row -> Prop) (result : list Row) (model : Category)
    (count : Z) :
  (forall q, stored_in s (model, q) -> P (model, q)) ->
  Forall P result ->
  reads s (extend_from result model count) (Forall P).
Proof.
  intros HP Hres. unfold extend_from.
  destruct (0 <? count)%Z; [|apply reads_ret; exact Hres].
  eapply reads_bind; [apply reads_draw_from|].
  intros rows (stored & qs & Hs & Hincl & ->). apply reads_ret.
  apply Forall_app. split; [exact Hres|].
  apply Forall_forall. intros row Hrow. apply in_map_iff in Hrow.
  destruct Hrow as (q & <- & Hq). apply HP. exists stored. split; [exact Hs|].
  apply Hincl. exact Hq.
Qed.

Lemma reads_custom_test (config : TestConfigRequest) :
  reads s (create_custom_test config) (Forall (quota_row s)).
Proof.
  assert (Hq : forall model, Category_eqb model algorithm = false ->
                 forall q, stored_in s (model, q) -> quota_row s (model, q))
    by (intros model Hm q Hst; split; [exact Hst | exact Hm]).
  unfold create_custom_test.
  apply reads_try_except; [|intros; apply reads_ret; constructor].
  unfold custom_test_body.
  eapply reads_bind; [apply reads_extend_from; [apply Hq; reflexivity | constructor]|].
  intros r1 H1.
  eapply reads_bind; [apply reads_extend_from; [apply Hq; reflexivity | exact H1]|].
  intros r2 H2.
  eapply reads_bind; [apply reads_extend_from; [apply Hq; reflexivity | exact H2]|].
  intros r3 H3.
  eapply (@reads_bind s _ _ _ _ (Forall (quota_row s))).
  { destruct (0 <? sql_count config)%Z; [|apply reads_ret; exact H3].
    eapply reads_bind; [apply reads_share|]. intros basic _.
    eapply reads_bind; [apply reads_extend_from; [apply Hq; reflexivity | exact H3]|].
    intros r H. apply reads_extend_from; [apply Hq; reflexivity | exact H]. }
  intros r4 H4.
  eapply reads_bind; [apply reads_extend_from; [apply Hq; reflexivity | exact H4]|].
  intros r5 H5.
  eapply (@reads_bind s _ _ _ _ (Forall (quota_row s))).
  { destruct (0 <? app_count config)%Z; [|apply reads_ret; exact H5].
    eapply reads_bind; [apply reads_share|]. intros tests _.
    eapply reads_bind; [apply reads_extend_from; [apply Hq; reflexivity | exact H5]|].
    intros r H. apply reads_extend_from; [apply Hq; reflexivity | exact H]. }
  intros r6 H6.
  eapply reads_weaken; [apply reads_shuffle|].
  intros shuffled Hp. apply Forall_forall. intros row Hrow.
  rewrite Forall_forall in H6. apply H6.
  apply (Permutation_in _ Hp Hrow).
Qed.

End Assembly.

(** A handler whose [except] clause returns does return. *)
Lemma returns_on_error {A} (body : M A) (a : A) (w : World) :
  exists r, fst (try_except body (fun _ => ret a) w) = Return r.
Proof.
  unfold try_except. destruct (body w) as [[r|e] w1]; simpl; eauto.
Qed.

(** X16. Whatever the quotas, the ratios, the database and the draws, a
    custom test never fails and never writes, and every question in it is
    a stored question of the table it is tagged with; no question of the
    algorithm table is ever in it. *)
Theorem custom_test_sound (config : Api.TestConfigRequest) (w : World) :
  session (snd (Api.create_custom_test config w)) = session w
  /\ exists rows,
       fst (Api.create_custom_test config w) = Return rows
       /\ Forall (stored_in (session w)) rows
       /\ count_of algorithm rows = 0.
Proof.
  destruct (@reads_custom_test (session w) config w eq_refl) as [Hs Hq].
  split; [exact Hs|].
  destruct (@returns_on_error _ (Api.custom_test_body config) [] w) as [rows E].
  exists rows. split; [exact E|].
  specialize (Hq rows E). clear E Hs. split.
  - apply Forall_forall. intros row Hrow. rewrite Forall_forall in Hq.
    apply (Hq row Hrow).
  - unfold count_of. induction Hq as [|row r [_ Hrow] _ IH]; simpl; [reflexivity|].
    rewrite Hrow. exact IH.
Qed.

Section PersonalizedAssembly.

Import Api.

Variable rt : Runtime.
Variable s : Session.

Lemma reads_keywords_like (model : Category) (pattern : str) (n : Z)
    (acc : list Row) :
  Forall (stored_in s) acc ->
  reads s (keywords_like rt model pattern n)
    (fun qs => Forall (stored_in s) (acc ++ map (pair model) qs)).
Proof.
  intros Hacc. unfold keywords_like. eapply reads_bind; [apply reads_all|].
  intros stored Hs. apply reads_ret. apply Forall_app. split; [exact Hacc|].
  apply Forall_forall. intros row Hrow. apply in_map_iff in Hrow.
  destruct Hrow as (q & <- & Hq). exists stored. split; [exact Hs|].
  assert (Hf : In q (filter (fun q => match keywords q with
                                      | Some ks => sql_like rt pattern ks
                                      | None => false
                                      end) stored)).
  { rewrite <- (firstn_skipn (Z.to_nat n)). apply in_or_app. left. exact Hq. }
  apply filter_In in Hf. tauto.
Qed.

Lemma reads_search_keywords (total : Z) (ratio : float) (model : Category)
    (weights : list (str * float)) (acc : list Row) :
  Forall (stored_in s) acc ->
  reads s (search_keywords rt total ratio model weights acc) (Forall (stored_in s)).
Proof.
  revert acc. induction weights as [|[keyword weight] rest IH]; intros acc Hacc;
    cbn [search_keywords]; [apply reads_ret; exact Hacc|].
  eapply reads_bind; [apply reads_lift_option|]. intros n _.
  eapply reads_bind; [apply reads_keywords_like; exact Hacc|].
  intros qs Hqs. apply IH. exact Hqs.
Qed.

Lemma reads_search_models (total : Z) (ratio : float)
    (models : list (str * Category)) (weights : list (str * float)) (acc : list Row) :
  Forall (stored_in s) acc ->
  reads s (search_models rt total ratio models weights acc) (Forall (stored_in s)).
Proof.
  revert acc. induction models as [|[name model] rest IH]; intros acc Hacc;
    cbn [search_models]; [apply reads_ret; exact Hacc|].
  eapply reads_bind; [apply reads_search_keywords; exact Hacc|].
  intros acc' Hacc'. apply IH. exact Hacc'.
Qed.

Lemma reads_fill_randomly (categories : list (str * Category)) (per remaining : Z)
    (selected_ids : list str) (result : list Row) :
  Forall (stored_in s) result ->
  reads s (fill_randomly categories per remaining selected_ids result)
    (Forall (stored_in s)).
Proof.
  revert remaining selected_ids result.
  induction categories as [|[name model] rest IH];
    intros remaining selected_ids result Hres; cbn [fill_randomly];
    [apply reads_ret; exact Hres|].
  destruct (remaining <=? 0)%Z; [apply reads_ret; exact Hres|].
  eapply reads_bind; [apply reads_with_id_not_in|].
  intros qs (stored & Hs & Hqs).
  assert (Hincl : incl qs stored)
    by (rewrite Hqs; intros q Hq; apply filter_In in Hq; tauto).
  clear Hqs. destruct qs as [|q0 qs0]; [apply IH; exact Hres|].
  eapply (@reads_bind s _ _ _ _ (fun selected => incl selected stored)).
  - destruct (_ <? _)%Z; [|apply reads_ret; exact Hincl].
    eapply reads_weaken; [apply reads_sample|].
    intros xs (_ & _ & rest' & Hp) x Hx. apply Hincl.
    apply (Permutation_in _ Hp). apply in_or_app. auto.
  - intros selected Hsel. apply IH. apply Forall_app. split; [exact Hres|].
    apply Forall_forall. intros row Hrow. apply in_map_iff in Hrow.
    destruct Hrow as (q & <- & Hq). exists stored. split; [exact Hs|].
    apply Hsel. exact Hq.
Qed.

Lemma NoDup_snoc {A} (l : list A) (x : A) : NoDup l -> ~ In x l -> NoDup (l ++ [x]).
Proof.
  intros Hl Hx. apply (Permutation_NoDup (Permutation_cons_append l x)).
  constructor; assumption.
Qed.

(** Step 7 keeps the first row of every id and stops at the number
    asked for. *)
Lemma unique_upto_spec (total : Z) (result : list Row) (ids : list str)
    (acc : list Row) :
  NoDup (ids_of acc) -> incl (ids_of acc) ids ->
  (Z.of_nat (List.length acc) <= Z.max 0 total)%Z ->
  NoDup (ids_of (unique_upto total ids acc result))
  /\ incl (unique_upto total ids acc result) (acc ++ result)
  /\ (Z.of_nat (List.length (unique_upto total ids acc result)) <= Z.max 0 total)%Z.
Proof.
  revert ids acc. induction result as [|q rest IH]; intros ids acc Hnd Hids Hlen;
    cbn [unique_upto].
  - split; [exact Hnd|]. split; [rewrite app_nil_r; apply incl_refl | exact Hlen].
  - destruct (existsb (str_eqb (id (snd q))) ids) eqn:Eseen; cbn [negb andb].
    + destruct (IH ids acc Hnd Hids Hlen) as (H1 & H2 & H3).
      split; [exact H1|]. split; [|exact H3].
      intros x Hx. apply H2 in Hx. apply in_app_or in Hx.
      apply in_or_app. destruct Hx; [left | right; right]; assumption.
    + destruct (Z.of_nat (List.length acc) <? total)%Z eqn:Eroom.
      * apply Z.ltb_lt in Eroom.
        assert (Hnew : ~ In (id (snd q)) ids).
        { intros Hin.
          assert (existsb (str_eqb (id (snd q))) ids = true); [|congruence].
          apply existsb_exists. exists (id (snd q)).
          split; [exact Hin | apply str_eqb_refl]. }
        destruct (IH (id (snd q) :: ids) (acc ++ [q])) as (H1 & H2 & H3).
        { unfold ids_of. rewrite map_app. simpl. apply NoDup_snoc; [exact Hnd|].
          intros Hin. apply Hnew, Hids, Hin. }
        { unfold ids_of. rewrite map_app. simpl. intros x Hx.
          apply in_app_or in Hx. destruct Hx as [Hx | [<- | []]];
            [right; apply Hids; exact Hx | left; reflexivity]. }
        { rewrite length_app. simpl. lia. }
        split; [exact H1|]. split; [|exact H3].
        intros x Hx. apply H2 in Hx. rewrite <- app_assoc in Hx. exact Hx.
      * destruct (IH ids acc Hnd Hids Hlen) as (H1 & H2 & H3).
        split; [exact H1|]. split; [|exact H3].
        intros x Hx. apply H2 in Hx. apply in_app_or in Hx.
        apply in_or_app. destruct Hx; [left | right; right]; assumption.
Qed.

Lemma reads_personalized_test (uid : str) (ratio : float) (total : Z) :
  reads s (create_personalized_test rt uid ratio total)
    (fun rows =>
       (exists us u, users s = Some us
                     /\ find (fun u => str_eqb (user_pk u) uid) us = Some u)
       /\ Forall (stored_in s) rows
       /\ NoDup (ids_of rows)
       /\ (Z.of_nat (List.length rows) <= Z.max 0 total)%Z).
Proof.
  unfold create_personalized_test.
  apply reads_try_except; [|intros; apply reads_raise].
  unfold personalized_test_body.
  eapply reads_bind; [apply reads_user_by_id|].
  intros found (us & Hus & ->).
  destruct (find _ us) as [u|] eqn:Hu; [|apply reads_raise].
  eapply reads_bind; [apply reads_wrong_answers|]. intros all_wrong _.
  eapply (@reads_bind s _ _ _ _ (Forall (stored_in s))).
  { destruct (keyword_frequency_of _); [apply reads_ret; constructor|].
    apply reads_search_models. constructor. }
  intros keyword_questions Hkq.
  eapply reads_bind; [apply reads_share|]. intros wanted _.
  assert (Hslice : forall n, Forall (stored_in s) (slice_to keyword_questions n)).
  { intros n. apply Forall_forall. intros row Hrow.
    rewrite Forall_forall in Hkq. apply Hkq.
    unfold slice_to in Hrow.
    destruct (0 <=? n)%Z;
      [rewrite <- (firstn_skipn (Z.to_nat n))
      |rewrite <- (firstn_skipn
                     (Z.to_nat (Z.of_nat (List.length keyword_questions) + n)))];
      apply in_or_app; left; exact Hrow. }
  eapply (@reads_bind s _ _ _ _ (Forall (stored_in s))).
  { destruct (0 <? _)%Z; [|apply reads_ret; apply Hslice].
    eapply reads_bind; [apply reads_shuffle|]. intros categories _.
    apply reads_fill_randomly. apply Hslice. }
  intros result Hres.
  eapply reads_bind; [apply reads_shuffle|]. intros shuffled Hp.
  apply reads_ret.
  destruct (@unique_upto_spec total shuffled [] []) as (H1 & H2 & H3);
    [constructor | intros ? [] | simpl; lia |].
  split; [exists us, u; auto|]. split; [|split; [exact H1 | exact H3]].
  apply Forall_forall. intros row Hrow. rewrite Forall_forall in Hres.
  apply Hres. apply (Permutation_in _ Hp). apply (H2 row Hrow).
Qed.

End PersonalizedAssembly.

(** X17. Whatever the user, the ratio, the number asked for, the
    history and the draws, a personalized test never writes, and when it
    returns, the user is in the table of users, every question is a stored
    question of the table it is tagged with, no id occurs twice and there
    are at most [total_questions] questions. In every other case, an
    unknown user included, the request fails with status 500. *)
Theorem personalized_test_sound (rt : Runtime) (uid : str) (wrong_ratio : float)
    (total_questions : Z) (w : World) :
  session (snd (Api.create_personalized_test rt uid wrong_ratio total_questions w))
  = session w
  /\ match fst (Api.create_personalized_test rt uid wrong_ratio total_questions w) with
     | Return rows =>
         (exists us u, users (session w) = Some us
                       /\ find (fun u => str_eqb (user_pk u) uid) us = Some u)
         /\ Forall (stored_in (session w)) rows
         /\ NoDup (ids_of rows)
         /\ (Z.of_nat (List.length rows) <= Z.max 0 total_questions)%Z
     | Raise e => e = HTTPException 500
     end.
Proof.
  destruct (@reads_personalized_test rt (session w) uid wrong_ratio total_questions
              w eq_refl) as [Hs Hq].
  split; [exact Hs|].
  destruct (fst (Api.create_personalized_test rt uid wrong_ratio total_questions w))
    as [rows|e] eqn:E.
  - apply Hq. reflexivity.
  - apply (@fails_with_500 _ _ w e E).
Qed.

(** ** Quotas that the bank cannot fill *)

Section Granted.

Import Api.

Variable s : Session.
Hypothesis bank : complete s.

(** One [if count > 0] block on a readable table with a primary key,
    whatever the count. *)
Lemma extend_from_granted (result : list Row) (model : Category) (count : Z)
    (w : World) :
  session w = s ->
  exists result' w',
    extend_from result model count w = (Return result', w')
    /\ session w' = s
    /\ forall c, count_of c result'
                 = count_of c result
                   + if Category_eqb model c then granted s model count else 0.
Proof.
  intros Hw. destruct (bank model) as (rows & Hrows & Hpk).
  unfold granted. rewrite Hrows. rewrite <- Hw in Hrows.
  destruct (Z.ltb_spec 0 count) as [Hpos | Hneg].
  - destruct (Z.leb_spec count (Z.of_nat (List.length rows))) as [Hle | Hgt].
    + destruct (@extend_from_spec result model count rows w Hrows Hpk ltac:(lia))
        as (result' & w' & E & Hs & _ & Hc).
      exists result', w'. split; [exact E|]. split; [congruence|].
      intros c. rewrite Hc. destruct (Category_eqb model c); lia.
    + unfold extend_from, draw_from, Query.all, bind, ret.
      replace (0 <? count)%Z with true by (symmetry; apply Z.ltb_lt; lia).
      rewrite Hrows, length_map.
      replace (count <=? Z.of_nat (List.length rows))%Z with false
        by (symmetry; apply Z.leb_gt; lia).
      rewrite Hrows.
      exists (result ++ map (pair model) rows), w.
      split; [reflexivity|]. split; [exact Hw|].
      intros c. rewrite count_of_app, count_of_tagged.
      destruct (Category_eqb model c); lia.
  - unfold extend_from.
    replace (0 <? count)%Z with false by (symmetry; apply Z.ltb_ge; lia).
    exists result, w. split; [reflexivity|]. split; [exact Hw|].
    intros c. destruct (Category_eqb model c); lia.
Qed.

(** A quota split over two tables. *)
Lemma split_block_granted (result : list Row) (count : Z) (ratio : float)
    (m1 m2 : Category) (first : Z) (w : World) :
  session w = s ->
  first_share count ratio = Some first ->
  exists result' w',
    (if (0 <? count)%Z then
       first <- share count ratio ;;
       let second := (count - first)%Z in
       result <- extend_from result m1 first ;;
       extend_from result m2 second
     else ret result) w = (Return result', w')
    /\ session w' = s
    /\ forall c, count_of c result'
                 = count_of c result
                   + (if Category_eqb m1 c then granted s m1 first else 0)
                   + (if Category_eqb m2 c then granted s m2 (count - first) else 0).
Proof.
  intros Hw Hfirst. unfold first_share in Hfirst.
  destruct (Z.ltb_spec 0 count) as [Hpos | Hneg].
  - erewrite bind_return; [|unfold share; rewrite Hfirst; reflexivity].
    cbv zeta.
    destruct (@extend_from_granted result m1 first w Hw)
      as (r1 & w1 & E1 & Hs1 & Hc1).
    erewrite bind_return; [|exact E1].
    destruct (@extend_from_granted r1 m2 (count - first) w1 Hs1)
      as (r2 & w2 & E2 & Hs2 & Hc2).
    exists r2, w2. split; [exact E2|]. split; [exact Hs2|].
    intros c. rewrite Hc2, Hc1. reflexivity.
  - injection Hfirst as <-.
    exists result, w. split; [reflexivity|]. split; [exact Hw|].
    intros c. unfold granted.
    destruct (questions_of s m1), (questions_of s m2);
      destruct (Category_eqb m1 c), (Category_eqb m2 c); lia.
Qed.

End Granted.

Ltac take_granted Hbank :=
  let E := fresh "E" in
  let Hs := fresh "Hs" in
  let Hc := fresh "Hc" in
  match goal with
  | Hw : session ?w0 = ?s0
    |- context [bind (Api.extend_from ?r ?m ?n) _ ?w0] =>
      destruct (@extend_from_granted s0 Hbank r m n w0 Hw) as (? & ? & E & Hs & Hc);
      erewrite bind_return; [|exact E]; clear Hw
  end.

Ltac take_block Hbank Hfirst m1 m2 :=
  let E := fresh "E" in
  let Hs := fresh "Hs" in
  let Hc := fresh "Hc" in
  match goal with
  | Hw : session ?w0 = ?s0
    |- context [bind (if (0 <? ?n)%Z then bind (Api.share ?n ?ratio) _ else ret ?r)
                     _ ?w0] =>
      match type of Hfirst with
      | first_share n ratio = Some ?first =>
          destruct (@split_block_granted s0 Hbank r n ratio m1 m2 first w0 Hw Hfirst)
            as (? & ? & E & Hs & Hc);
          erewrite bind_return; [|exact E]; clear Hw
      end
  end.

(** X18. On a bank whose tables can all be read, a custom test answers
    every configuration whose shares are numbers, and holds of every table
    the number asked of it, or all the table has when it has fewer: a
    table that is short makes the test short, not the request fail. The
    SQL quota asks int(sql_count * basic_sql_ratio) of base_sql and the
    rest of hard_sql, the application quota likewise of app_test and
    app_defect, and a quota that is not positive asks nothing. *)
Theorem custom_test_composition (config : Api.TestConfigRequest) (w : World)
    (req : Category -> Z) :
  complete (session w) ->
  asked config = Some req ->
  exists rows w',
    Api.create_custom_test config w = (Return rows, w')
    /\ forall c, count_of c rows = granted (session w) c (req c).
Proof.
  intros Hbank Hreq. unfold asked in Hreq.
  destruct (first_share (Api.sql_count config) (Api.basic_sql_ratio config))
    as [basic|] eqn:Hbasic; [|discriminate].
  destruct (first_share (Api.app_count config) (Api.app_test_ratio config))
    as [tests|] eqn:Htests; [|discriminate].
  injection Hreq as <-.
  assert (Hw : session w = session w) by reflexivity.
  revert Hbank Hw. generalize (session w) at 1 3 4. intros s0 Hbank Hw.
  unfold Api.create_custom_test, Api.custom_test_body, try_except.
  take_granted Hbank. take_granted Hbank. take_granted Hbank.
  take_block Hbank Hbasic base_sql hard_sql.
  take_granted Hbank.
  take_block Hbank Htests app_test app_defect.
  match goal with
  | |- context [Random.shuffle ?r ?w0] =>
      destruct (shuffle_spec r w0) as (shuffled & w' & Esh & _ & Hperm)
  end.
  rewrite Esh. exists shuffled, w'. split; [reflexivity|].
  intros c. rewrite (count_of_permutation c Hperm).
  repeat match goal with
         | H : forall c : Category, count_of c ?r = _ |- context [count_of _ ?r] =>
             rewrite H
         end.
  destruct c; cbn [Category_eqb]; unfold count_of; simpl; try lia;
    unfold granted; destruct (questions_of s0 algorithm); lia.
Qed.


Lemma full_bank_complete : complete Bank.full.
Proof.
  intros c. exists (Bank.numbered (Bank.name_of c) 6). split; [reflexivity|].
  apply distinct_NoDup. destruct c; reflexivity.
Qed.

Lemma custom_test_composition_witness :
  exists rows w',
    Api.create_custom_test greedy_config (Bank.world Bank.full Bank.some_draws)
    = (Return rows, w')
    /\ count_of os rows = 6 /\ count_of network rows = 0 /\ count_of db rows = 2
    /\ count_of base_sql rows = 6 /\ count_of hard_sql rows = 6
    /\ count_of program rows = 0
    /\ count_of app_test rows = 1 /\ count_of app_defect rows = 2.
Proof.
  destruct (@custom_test_composition greedy_config
              (Bank.world Bank.full Bank.some_draws)
              (fun c => match c with
                        | os => 10 | network => 0 | db => 2
                        | base_sql => 7 | hard_sql => 8
                        | program => -3
                        | app_test => 1 | app_defect => 2
                        | algorithm => 0
                        end)%Z
              full_bank_complete eq_refl) as (rows & w' & E & Hc).
  exists rows, w'. split; [exact E|].
  rewrite !Hc. repeat split; reflexivity.
Defined.

(** ** Listing questions *)

Section ListQuestions.

Import Api.

Variable s : Session.

Lemma reads_collect_limited (P : Row -> Prop) (wanted : option Z)
    (category_limits : list (str * Z)) (result : list Row) :
  (forall row, stored_in s row -> P row) ->
  Forall P result ->
  reads s (collect_limited wanted category_limits result) (Forall P).
Proof.
  intros HP. revert result.
  induction category_limits as [|[cat cat_limit] rest IH]; intros result Hres;
    cbn [collect_limited]; [apply reads_ret; exact Hres|].
  eapply reads_bind; [apply reads_lift_option|]. intros model _.
  eapply reads_bind; [apply reads_query_count|]. intros total_count _.
  destruct (0 <? total_count)%Z; [|apply IH; exact Hres].
  eapply reads_bind; [apply reads_question_ids|]. intros all_ids _.
  eapply (@reads_bind s _ _ _ _ (fun _ => True)).
  { destruct (total_count <=? cat_limit)%Z; [apply reads_ret; exact I|].
    eapply reads_weaken; [apply reads_sample | auto]. }
  intros selected_ids _.
  eapply reads_bind; [apply reads_with_id_in|].
  intros qs (stored & Hs & ->). apply IH.
  apply Forall_app. split; [exact Hres|].
  apply Forall_forall. intros row Hrow. apply in_map_iff in Hrow.
  destruct Hrow as (q & <- & Hq). apply filter_In in Hq.
  apply HP. exists stored. tauto.
Qed.

Lemma reads_get_questions (category : option str) (wanted : option Z)
    (limit offset : Z) :
  reads s (get_questions category wanted limit offset)
    (fun rows =>
       Forall (stored_in s) rows
       /\ forall name, category = Some name -> name <> [] ->
            (mapping_get QUESTION_TYPE_MAPPING name = None -> rows = [])
            /\ forall row, In row rows ->
                 mapping_get QUESTION_TYPE_MAPPING name = Some (fst row)).
Proof.
  unfold get_questions.
  apply reads_try_except.
  2: { intros e. apply reads_ret. split; [constructor|].
       intros name _ _. split; [reflexivity | intros ? []]. }
  destruct (named category) eqn:En; cbn [negb].
  - destruct category as [name|]; [|discriminate En].
    unfold is_category.
    destruct (mapping_get QUESTION_TYPE_MAPPING name) as [c|] eqn:Hm;
      cbn [negb]; [|apply reads_raise].
    cbn [lift_option]. unfold ret at 1.
    eapply reads_bind; [apply reads_ret; exact (eq_refl c)|]. intros model ->.
    eapply reads_bind; [apply reads_query_count|]. intros total_count _.
    assert (Hnil : forall name0 : str, Some name = Some name0 -> name0 <> [] ->
              (mapping_get QUESTION_TYPE_MAPPING name0 = None -> @nil Row = [])
              /\ forall row : Row, In row [] ->
                   mapping_get QUESTION_TYPE_MAPPING name0 = Some (fst row))
      by (intros; split; [reflexivity | intros ? []]).
    destruct (total_count =? 0)%Z; [apply reads_ret; split; [constructor | exact Hnil]|].
    eapply reads_bind; [apply reads_question_ids|]. intros all_ids _.
    destruct (total_count <=? offset)%Z;
      [apply reads_ret; split; [constructor | exact Hnil]|].
    eapply (@reads_bind s _ _ _ _ (fun _ => True)).
    { destruct (_ <=? _)%Z; [apply reads_ret; exact I|].
      eapply reads_weaken; [apply reads_sample | auto]. }
    intros selected_ids _.
    eapply reads_bind; [apply reads_with_id_in|].
    intros qs (stored & Hs & ->).
    eapply reads_bind; [apply reads_shuffle|]. intros shuffled Hp.
    apply reads_ret. split.
    + apply Forall_forall. intros row Hrow. apply in_map_iff in Hrow.
      destruct Hrow as (q & <- & Hq). apply (Permutation_in _ Hp) in Hq.
      apply filter_In in Hq. exists stored. tauto.
    + intros name0 E _. injection E as <-. split; [congruence|].
      intros row Hrow. apply in_map_iff in Hrow.
      destruct Hrow as (q & <- & _). exact Hm.
  - eapply reads_bind; [apply reads_shuffle|]. intros categories _.
    destruct (base_limits _ categories [] limit) as [category_limits total_needed].
    eapply reads_bind; [apply reads_lift_option|]. intros limits _.
    eapply reads_bind;
      [apply (@reads_collect_limited (stored_in s)); [auto | constructor]|].
    intros result Hres.
    eapply reads_bind; [apply reads_shuffle|]. intros shuffled Hp.
    apply reads_ret. split.
    + apply Forall_forall. intros row Hrow. rewrite Forall_forall in Hres.
      apply Hres. apply (Permutation_in _ Hp).
      unfold slice_to in Hrow.
      destruct (0 <=? limit)%Z;
        [rewrite <- (firstn_skipn (Z.to_nat limit))
        |rewrite <- (firstn_skipn (Z.to_nat (Z.of_nat (List.length shuffled) + limit)))];
        apply in_or_app; left; exact Hrow.
    + intros name -> Hne. exfalso. destruct name; [congruence | discriminate En].
Qed.

End ListQuestions.

(** X19. Whatever the category, the difficulty, the page, the database
    and the draws, [get_questions] never fails and never writes; every
    question it returns is a stored question of the table it is tagged
    with, which is the table of the category when one is given; and for a
    category that does not exist the answer is the empty list, the 404
    being caught by the handler's own [except]. *)
Theorem get_questions_sound (category : option str) (wanted : option Z)
    (limit offset : Z) (w : World) :
  session (snd (Api.get_questions category wanted limit offset w)) = session w
  /\ exists rows,
       fst (Api.get_questions category wanted limit offset w) = Return rows
       /\ Forall (stored_in (session w)) rows
       /\ forall name, category = Some name -> name <> [] ->
            (Api.mapping_get Api.QUESTION_TYPE_MAPPING name = None -> rows = [])
            /\ forall row, In row rows ->
                 Api.mapping_get Api.QUESTION_TYPE_MAPPING name = Some (fst row).
Proof.
  destruct (@reads_get_questions (session w) category wanted limit offset w eq_refl)
    as [Hs Hq].
  split; [exact Hs|].
  unfold Api.get_questions in *.
  match goal with
  | |- context [try_except ?body _] =>
      destruct (@returns_on_error _ body [] w) as [rows E]
  end.
  exists rows. split; [exact E|]. apply Hq. exact E.
Qed.

Section QuestionPage.

Import Api.

Lemma of_difficulty_key (wanted : option Z) (rows : list Question) :
  primary_key rows -> primary_key (of_difficulty wanted rows).
Proof.
  intros Hpk. unfold of_difficulty. destruct wanted as [d|]; [|exact Hpk].
  destruct (d =? 0)%Z; [exact Hpk | apply primary_key_filter; exact Hpk].
Qed.

Lemma skipn_key (k : nat) (rows : list Question) :
  primary_key rows -> primary_key (skipn k rows).
Proof.
  unfold primary_key. intros Hpk.
  rewrite <- (firstn_skipn k rows), map_app in Hpk.
  apply NoDup_app_remove_l in Hpk. exact Hpk.
Qed.

Lemma skipn_incl {A} (k : nat) (l : list A) : incl (skipn k l) l.
Proof.
  intros x Hx. rewrite <- (firstn_skipn k l). apply in_or_app. auto.
Qed.

(** Reading the selected ids back and shuffling: under the primary key,
    one row for every id, each of them one of the rows the ids were
    taken from. *)
Lemma page_tail (c : Category) (rows rem : list Question) (sel : list str)
    (w : World) :
  questions_of (session w) c = Some rows ->
  primary_key rows -> incl rem rows ->
  NoDup sel -> incl sel (map id rem) ->
  exists qs w',
    (questions <- Query.with_id_in c sel ;;
     questions <- Random.shuffle questions ;;
     ret (map (pair c) questions)) w = (Return (map (pair c) qs), w')
    /\ List.length qs = List.length sel /\ NoDup qs /\ incl qs rem.
Proof.
  intros Hr Hpk Hrem Hnd Hsel.
  unfold Query.with_id_in, Query.all, bind at 1 2, ret at 1. rewrite Hr.
  destruct (shuffle_spec (filter (Query.id_in sel) rows) w)
    as (qs & w' & E & _ & Hp).
  erewrite bind_return; [|exact E]. unfold ret.
  exists qs, w'. split; [reflexivity|]. split; [|split].
  - rewrite (Permutation_length Hp).
    apply selected_rows_length; [exact Hpk | exact Hnd|].
    intros x Hx. apply Hsel in Hx. apply in_map_iff in Hx.
    destruct Hx as (q & <- & Hq). apply in_map. apply Hrem. exact Hq.
  - apply (Permutation_NoDup (Permutation_sym Hp)).
    apply NoDup_filter. apply (NoDup_map_inv id). exact Hpk.
  - intros q Hq. apply (Permutation_in _ Hp) in Hq.
    apply filter_In in Hq. destruct Hq as [Hq Hid].
    apply id_in_In in Hid. apply Hsel in Hid. apply in_map_iff in Hid.
    destruct Hid as (q' & E' & Hq').
    rewrite <- (@primary_key_inj rows q' q Hpk (Hrem q' Hq') Hq E'). exact Hq'.
Qed.

(** X20. With a category, under the primary key and for a validated
    page, [get_questions] skips the first [offset] questions of the wanted
    difficulty in the order of the table and returns [limit] of the others
    chosen at random, or all of them when there are no more than [limit]:
    no question twice, and none of the skipped ones. *)
Theorem get_questions_page (name : str) (c : Category) (rows : list Question)
    (wanted : option Z) (limit offset : Z) (w : World) :
  mapping_get QUESTION_TYPE_MAPPING name = Some c ->
  questions_of (session w) c = Some rows ->
  primary_key rows ->
  (1 <= limit)%Z -> (0 <= offset)%Z ->
  exists qs w',
    get_questions (Some name) wanted limit offset w = (Return (map (pair c) qs), w')
    /\ Z.of_nat (List.length qs)
       = Z.max 0 (Z.min limit
                    (Z.of_nat (List.length (of_difficulty wanted rows)) - offset))
    /\ NoDup qs
    /\ incl qs (skipn (Z.to_nat offset) (of_difficulty wanted rows)).
Proof.
  intros Hm Hr Hpk Hlimit Hoffset.
  destruct (@mapping_get_named _ _ Hm) as [Hn Hc].
  unfold get_questions, try_except. rewrite Hn, Hc, Hm.
  cbn [negb lift_option].
  erewrite bind_return; [|reflexivity].
  unfold query_count, query_all.
  erewrite bind_return; [|unfold bind, Query.all, ret; rewrite Hr; reflexivity].
  set (matching := of_difficulty wanted rows).
  destruct (Z.eqb_spec (Z.of_nat (List.length matching)) 0) as [Hzero | Hsome].
  { exists [], w. split; [reflexivity|]. split; [simpl; lia|].
    split; [constructor | intros ? []]. }
  erewrite bind_return; [|unfold bind, Query.all, ret; rewrite Hr; reflexivity].
  fold matching.
  destruct (Z.leb_spec (Z.of_nat (List.length matching)) offset) as [Hout | Hin].
  { exists [], w. split; [reflexivity|]. split; [simpl; lia|].
    split; [constructor | intros ? []]. }
  unfold slice_from. replace (0 <=? offset)%Z with true
    by (symmetry; apply Z.leb_le; exact Hoffset).
  rewrite skipn_map, length_map.
  set (rem := skipn (Z.to_nat offset) matching).
  assert (Hlen : List.length rem = List.length matching - Z.to_nat offset)
    by (unfold rem; apply length_skipn).
  assert (Hkey : NoDup (map id rem))
    by (apply skipn_key, of_difficulty_key; exact Hpk).
  assert (Hrem : incl rem rows).
  { intros q Hq. apply (@of_difficulty_incl wanted rows).
    apply (@skipn_incl _ (Z.to_nat offset) matching q Hq). }
  destruct (Z.leb_spec (Z.of_nat (List.length rem))
              (Z.min limit (Z.of_nat (List.length matching)))) as [Hall | Hmore].
  - erewrite bind_return; [|reflexivity].
    destruct (@page_tail c rows rem (map id rem) w Hr Hpk Hrem Hkey (incl_refl _))
      as (qs & w' & E & Hl & Hnd & Hincl).
    exists qs, w'. split; [rewrite E; reflexivity|]. split; [|split; assumption].
    rewrite Hl, length_map. lia.
  - destruct (@sample_spec _ (map id rem)
                (Z.min limit (Z.of_nat (List.length matching))) w
                ltac:(rewrite length_map; lia))
      as (sel & w1 & E1 & Hs1 & Hl1 & rest & Hp).
    erewrite bind_return; [|exact E1].
    assert (Hnd : NoDup sel).
    { apply (@NoDup_app_remove_r _ sel rest).
      apply (Permutation_NoDup (Permutation_sym Hp)). exact Hkey. }
    assert (Hsel : incl sel (map id rem)).
    { intros x Hx. apply (Permutation_in _ Hp). apply in_or_app. auto. }
    rewrite <- Hs1 in Hr.
    destruct (@page_tail c rows rem sel w1 Hr Hpk Hrem Hnd Hsel)
      as (qs & w' & E & Hl & Hnd' & Hincl).
    exists qs, w'. split; [rewrite E; reflexivity|]. split; [|split; assumption].
    rewrite Hl, Hl1. lia.
Qed.

End QuestionPage.

Lemma get_questions_page_witness :
  exists qs w',
    Api.get_questions (Some (lit "db")) (Some 1%Z) 4 3
      (Bank.world Bank.full Bank.some_draws)
    = (Return (map (pair db) qs), w')
    /\ Z.of_nat (List.length qs) = 3%Z
    /\ NoDup qs
    /\ incl qs (skipn 3 (Bank.numbered (lit "db") 6)).
Proof.
  apply (@get_questions_page (lit "db") db (Bank.numbered (lit "db") 6) (Some 1%Z)
           4 3 (Bank.world Bank.full Bank.some_draws)).
  - reflexivity.
  - reflexivity.
  - apply distinct_NoDup. reflexivity.
  - lia.
  - lia.
Defined.

(** ** The plan of [get_questions] without a category *)

Section Plan.

Import Api.

Lemma dict_get_set_same (d : list (str * Z)) (k : str) (v : Z) :
  dict_get (dict_set d k v) k = Some v.
Proof.
  induction d as [|[k0 v0] r IH]; simpl.
  - rewrite str_eqb_refl. reflexivity.
  - destruct (str_eqb k0 k) eqn:E; simpl; rewrite E; [reflexivity | exact IH].
Qed.

Lemma dict_get_set_other (d : list (str * Z)) (k k' : str) (v : Z) :
  k' <> k -> dict_get (dict_set d k v) k' = dict_get d k'.
Proof.
  intros Hne.
  assert (Hf : str_eqb k k' = false) by (apply str_eqb_neq; congruence).
  induction d as [|[k0 v0] r IH]; simpl.
  - rewrite Hf. reflexivity.
  - destruct (str_eqb k0 k) eqn:E; simpl.
    + apply str_eqb_eq in E. subst k0. rewrite Hf. reflexivity.
    + rewrite IH. reflexivity.
Qed.

Lemma sum_set_fresh (d : list (str * Z)) (k : str) (v : Z) :
  dict_get d k = None -> sum_limits (dict_set d k v) = (sum_limits d + v)%Z.
Proof.
  unfold sum_limits. induction d as [|[k0 v0] r IH]; simpl; [lia|].
  destruct (str_eqb k0 k); [discriminate|]. intros H. simpl. rewrite (IH H). lia.
Qed.

Lemma sum_set_existing (d : list (str * Z)) (k : str) (old v : Z) :
  dict_get d k = Some old -> sum_limits (dict_set d k v) = (sum_limits d - old + v)%Z.
Proof.
  unfold sum_limits. induction d as [|[k0 v0] r IH]; simpl; [discriminate|].
  destruct (str_eqb k0 k); simpl.
  - intros H. injection H as <-. lia.
  - intros H. rewrite (IH H). lia.
Qed.

Lemma positive_set (d : list (str * Z)) (k : str) (v : Z) :
  Forall (fun kv => (1 <= snd kv)%Z) d -> (1 <= v)%Z ->
  Forall (fun kv => (1 <= snd kv)%Z) (dict_set d k v).
Proof.
  intros Hd Hv. induction Hd as [|[k0 v0] r H0 Hr IH]; simpl.
  - constructor; [exact Hv | constructor].
  - destruct (str_eqb k0 k); constructor; auto.
Qed.

Lemma positive_get (d : list (str * Z)) (k : str) (v : Z) :
  Forall (fun kv => (1 <= snd kv)%Z) d -> dict_get d k = Some v -> (1 <= v)%Z.
Proof.
  intros Hd. induction Hd as [|[k0 v0] r H0 Hr IH]; simpl; [discriminate|].
  destruct (str_eqb k0 k); [|exact IH]. intros H. injection H as <-. exact H0.
Qed.

Lemma has_key_set (d : list (str * Z)) (k k' : str) (v : Z) :
  dict_get d k' <> None -> dict_get (dict_set d k v) k' <> None.
Proof.
  intros H. destruct (str_eqb k' k) eqn:E.
  - apply str_eqb_eq in E. subst k'. rewrite dict_get_set_same. discriminate.
  - apply str_eqb_neq in E. rewrite (dict_get_set_other d v E). exact H.
Qed.

(** The first loop: what it hands out is what it takes off
    [total_needed], and a category is left without a limit only when
    nothing is needed any more. *)
Lemma base_limits_spec (n : Z) (categories : list str) (acc : list (str * Z))
    (total_needed : Z) :
  NoDup categories ->
  (forall k, In k categories -> dict_get acc k = None) ->
  Forall (fun kv => (1 <= snd kv)%Z) acc ->
  let '(d, rest) := base_limits n categories acc total_needed in
  rest = residual n (List.length categories) total_needed
  /\ sum_limits d = (sum_limits acc + total_needed - rest)%Z
  /\ Forall (fun kv => (1 <= snd kv)%Z) d
  /\ ((0 < rest)%Z -> forall k, In k categories -> dict_get d k <> None)
  /\ (forall k, dict_get acc k <> None -> dict_get d k <> None).
Proof.
  revert acc total_needed.
  induction categories as [|cat rest IH]; intros acc t Hnd Hfresh Hpos;
    cbn [base_limits residual List.length].
  - repeat split; [lia | exact Hpos | intros _ ? [] | auto].
  - destruct (Z.leb_spec t 0) as [Hdone | Hgo].
    + repeat split; [lia | exact Hpos | lia | auto].
    + inversion Hnd as [|? ? Hnotin Hnd']; subst.
      specialize (IH (dict_set acc cat (Z.max 1 (t / n)))
                     (t - Z.max 1 (t / n))%Z Hnd').
      destruct (base_limits n rest (dict_set acc cat (Z.max 1 (t / n)))
                  (t - Z.max 1 (t / n))%Z) as [d r].
      destruct IH as (H1 & H2 & H3 & H4 & H5).
      * intros k Hk. rewrite dict_get_set_other; [apply Hfresh; right; exact Hk|].
        intros ->. contradiction.
      * apply positive_set; [exact Hpos | lia].
      * split; [exact H1|]. split; [|split; [exact H3|split]].
        -- rewrite H2, sum_set_fresh; [lia|]. apply Hfresh. left. reflexivity.
        -- intros Hr k [<- | Hk]; [|apply H4; assumption].
           apply H5. rewrite dict_get_set_same. discriminate.
        -- intros k Hk. apply H5. apply has_key_set. exact Hk.
Qed.

(** The second loop gives one more to the first categories, as far as
    what is left reaches. *)
Lemma spread_rest_spec (categories : list str) (d : list (str * Z))
    (total_needed : Z) :
  ((0 < total_needed)%Z -> forall k, In k categories -> dict_get d k <> None) ->
  Forall (fun kv => (1 <= snd kv)%Z) d ->
  exists d',
    spread_rest categories d total_needed = Some d'
    /\ sum_limits d'
       = (sum_limits d
          + Z.max 0 (Z.min total_needed (Z.of_nat (List.length categories))))%Z
    /\ Forall (fun kv => (1 <= snd kv)%Z) d'.
Proof.
  revert d total_needed.
  induction categories as [|cat rest IH]; intros d t Hkeys Hpos;
    cbn [spread_rest List.length].
  - exists d. repeat split; [lia | exact Hpos].
  - destruct (Z.leb_spec t 0) as [Hdone | Hgo].
    + exists d. repeat split; [lia | exact Hpos].
    + destruct (dict_get d cat) as [v|] eqn:Hv;
        [|exfalso; apply (Hkeys Hgo cat (or_introl eq_refl)); exact Hv].
      destruct (IH (dict_set d cat (v + 1)%Z) (t - 1)%Z) as (d' & E & Hsum & Hpos').
      * intros _ k Hk. apply has_key_set. apply (Hkeys Hgo). right. exact Hk.
      * apply positive_set; [exact Hpos|].
        pose proof (positive_get cat Hpos Hv). lia.
      * exists d'. split; [exact E|]. split; [|exact Hpos'].
        rewrite Hsum, (sum_set_existing d cat (v + 1) Hv). lia.
Qed.

(** The plan for any order of distinct categories. *)
Lemma plan_spec (categories : list str) (limit : Z) :
  NoDup categories ->
  exists d rest d',
    base_limits (Z.of_nat (List.length categories)) categories [] limit = (d, rest)
    /\ spread_rest categories d rest = Some d'
    /\ Forall (fun kv => (1 <= snd kv)%Z) d'
    /\ sum_limits d'
       = (let rest := residual (Z.of_nat (List.length categories))
                               (List.length categories) limit in
          limit - rest + Z.max 0 (Z.min rest (Z.of_nat (List.length categories))))%Z.
Proof.
  intros Hnd.
  pose proof (@base_limits_spec (Z.of_nat (List.length categories)) categories []
                limit Hnd (fun _ _ => eq_refl) (Forall_nil _)) as H.
  destruct (base_limits _ categories [] limit) as [d rest].
  destruct H as (H1 & H2 & H3 & H4 & _).
  destruct (@spread_rest_spec categories d rest H4 H3) as (d' & E & Hsum & Hpos).
  exists d, rest, d'. split; [reflexivity|]. split; [exact E|]. split; [exact Hpos|].
  cbv zeta. rewrite Hsum, H2, <- H1. unfold sum_limits. simpl. lia.
Qed.

End Plan.

Section PlanIsShort.

Import Api.

Lemma selected_rows_bound (rows : list Question) (sel : list str) :
  primary_key rows ->
  List.length (filter (Query.id_in sel) rows) <= List.length sel.
Proof.
  intros Hpk. rewrite <- (length_map id (filter (Query.id_in sel) rows)).
  apply NoDup_incl_length; [apply (primary_key_filter _ Hpk)|].
  intros x Hx. apply in_map_iff in Hx. destruct Hx as (q & <- & Hq).
  apply filter_In in Hq. apply id_in_In. tauto.
Qed.

Variable s : Session.
Hypothesis bank : keyed s.

Lemma reads_collect_bound (wanted : option Z) (category_limits : list (str * Z))
    (result : list Row) :
  Forall (fun kv => (1 <= snd kv)%Z) category_limits ->
  reads s (collect_limited wanted category_limits result)
    (fun r => (Z.of_nat (List.length r)
               <= Z.of_nat (List.length result) + sum_limits category_limits)%Z).
Proof.
  intros Hpos. revert result.
  induction Hpos as [|[cat cat_limit] rest Hcat Hrest IH]; intros result;
    cbn [collect_limited].
  - apply reads_ret. unfold sum_limits. simpl. lia.
  - simpl in Hcat.
    assert (Hsum : sum_limits ((cat, cat_limit) :: rest)
                   = (cat_limit + sum_limits rest)%Z) by reflexivity.
    eapply reads_bind; [apply reads_lift_option|]. intros model _.
    eapply reads_bind; [apply reads_query_count|].
    intros total_count (rows & Hr & ->).
    destruct (0 <? _)%Z.
    2: { eapply reads_weaken; [apply IH|]. intros r Hl. cbv beta in Hl.
         rewrite Hsum. lia. }
    eapply reads_bind; [apply reads_question_ids|].
    intros all_ids (rows' & Hr' & ->).
    assert (rows' = rows) as -> by congruence.
    eapply (@reads_bind s _ _ _ _
              (fun sel => (Z.of_nat (List.length sel) <= cat_limit)%Z)).
    { destruct (Z.leb_spec (Z.of_nat (List.length (of_difficulty wanted rows)))
                  cat_limit) as [Hle | Hgt].
      - apply reads_ret. rewrite length_map. exact Hle.
      - eapply reads_weaken; [apply reads_sample|].
        intros sel (Hk & Hl & _). lia. }
    intros sel Hsel.
    eapply reads_bind; [apply reads_with_id_in|].
    intros qs (rows2 & Hr2 & ->).
    assert (rows2 = rows) as -> by congruence.
    eapply reads_weaken; [apply IH|]. intros r Hl. cbv beta in Hl.
    rewrite length_app, length_map in Hl.
    pose proof (@selected_rows_bound rows sel (bank model Hr)).
    rewrite Hsum. lia.
Qed.

Lemma slice_to_length {A} (l : list A) (n : Z) :
  List.length (slice_to l n) <= List.length l.
Proof.
  unfold slice_to. destruct (0 <=? n)%Z; rewrite length_firstn; lia.
Qed.

Lemma reads_plan (wanted : option Z) (limit offset : Z) :
  reads s (get_questions None wanted limit offset)
    (fun rows => rows = [] \/ (Z.of_nat (List.length rows) <= plan_formula 9 limit)%Z).
Proof.
  unfold get_questions. apply reads_try_except; [|intros; apply reads_ret; auto].
  cbn [named negb].
  eapply reads_bind; [apply reads_shuffle|]. intros categories Hp.
  assert (Hnd : NoDup categories).
  { apply (Permutation_NoDup (Permutation_sym Hp)).
    apply distinct_NoDup. reflexivity. }
  assert (Hlen : List.length categories = 9)
    by (rewrite (Permutation_length Hp); reflexivity).
  destruct (@plan_spec categories limit Hnd) as (d & rest & d' & E1 & E2 & Hpos & Hsum).
  rewrite E1.
  eapply reads_bind; [apply reads_lift_option|]. intros limits Hlimits.
  assert (limits = d') as -> by congruence.
  eapply reads_bind; [apply (reads_collect_bound wanted [] Hpos)|].
  intros result Hres.
  eapply reads_bind; [apply reads_shuffle|]. intros shuffled Hps.
  apply reads_ret. right.
  pose proof (slice_to_length shuffled limit) as Hsl.
  rewrite (Permutation_length Hps) in Hsl.
  rewrite Hsum, Hlen in Hres. unfold plan_formula. simpl List.length in Hres.
  cbv zeta in Hres. lia.
Qed.

End PlanIsShort.

Lemma planned_total_formula (limit : Z) : planned_total limit = plan_formula 9 limit.
Proof.
  unfold planned_total.
  destruct (@plan_spec Api.get_categories limit
              ltac:(apply distinct_NoDup; reflexivity))
    as (d & rest & d' & E1 & E2 & _ & Hsum).
  rewrite E1, E2. exact Hsum.
Qed.

Lemma plan_formula_range (limit : Z) :
  (1 <= limit <= 100)%Z ->
  (0 <= plan_formula 9 limit <= limit)%Z
  /\ ((21 <= limit)%Z -> (plan_formula 9 limit < limit)%Z).
Proof.
  intros Hl.
  assert (Hall : forallb (fun l => (0 <=? plan_formula 9 l)%Z
                                   && (plan_formula 9 l <=? l)%Z
                                   && ((l <? 21)%Z || (plan_formula 9 l <? l)%Z))
                   (map Z.of_nat (seq 1 100)) = true)
    by (vm_compute; reflexivity).
  rewrite forallb_forall in Hall.
  assert (Hin : In limit (map Z.of_nat (seq 1 100))).
  { apply in_map_iff. exists (Z.to_nat limit). split; [lia|].
    apply in_seq. lia. }
  specialize (Hall limit Hin).
  apply andb_true_iff in Hall. destruct Hall as [Hall H3].
  apply andb_true_iff in Hall. destruct Hall as [H1 H2].
  apply Z.leb_le in H1, H2. split; [lia|]. intros H21.
  apply orb_true_iff in H3. destruct H3 as [H3 | H3];
    [apply Z.ltb_lt in H3; lia | apply Z.ltb_lt in H3; exact H3].
Qed.

(** X21. Without a category, [get_questions] does not fetch [limit]
    questions but what its plan adds up to: on a bank with primary keys
    and for every validated limit, the answer holds at most
    [planned_total limit] questions, which is never more than [limit] and,
    from a limit of 21 on, less than [limit], however many questions the
    bank holds. *)
Theorem get_questions_plan_short (category : option str) (wanted : option Z)
    (limit offset : Z) (w : World) :
  keyed (session w) ->
  Api.named category = false ->
  (1 <= limit <= 100)%Z ->
  exists rows,
    fst (Api.get_questions category wanted limit offset w) = Return rows
    /\ (Z.of_nat (List.length rows) <= planned_total limit)%Z
    /\ (planned_total limit <= limit)%Z
    /\ ((21 <= limit)%Z -> (planned_total limit < limit)%Z).
Proof.
  intros Hbank Hcat Hl.
  assert (E : Api.get_questions category wanted limit offset
              = Api.get_questions None wanted limit offset).
  { unfold Api.get_questions. rewrite Hcat. reflexivity. }
  rewrite E, planned_total_formula.
  destruct (@reads_plan (session w) Hbank wanted limit offset w eq_refl) as [_ Hq].
  destruct (plan_formula_range Hl) as [Hrange Hshort].
  unfold Api.get_questions in *.
  match goal with
  | |- context [try_except ?body _] =>
      destruct (@returns_on_error _ body [] w) as [rows Er]
  end.
  exists rows. split; [exact Er|].
  split; [|split; [lia | exact Hshort]].
  destruct (Hq rows Er) as [-> | H]; [simpl; lia | exact H].
Qed.

Lemma get_questions_plan_witness :
  planned_total 100 = 72%Z
  /\ exists rows,
       fst (Api.get_questions None None 100 0 (Bank.world Bank.full Bank.some_draws))
       = Return rows
       /\ (Z.of_nat (List.length rows) <= planned_total 100)%Z
       /\ (planned_total 100 <= 100)%Z
       /\ ((21 <= 100)%Z -> (planned_total 100 < 100)%Z).
Proof.
  split; [reflexivity|].
  apply (@get_questions_plan_short None None 100 0
           (Bank.world Bank.full Bank.some_draws)).
  - exact full_bank_keyed.
  - reflexivity.
  - lia.
Defined.

(** ** The comparison without stages *)

Section SimpleComparison.

Import AnswerComparison.

Variable rt : Runtime.

Lemma preprocess_text_chars (text : str) (c : char) :
  In c (preprocess_text rt text) -> is_punctuation c = false.
Proof.
  unfold preprocess_text. destruct (negb (truthy text)); [intros []|].
  intros Hc.
  destruct (strip_infix
              (collapse_spaces
                 (filter (fun c => negb (is_punctuation c)) (py_lower rt text))))
    as (l & r & E).
  assert (Hin : In c (collapse_spaces
                        (filter (fun c => negb (is_punctuation c))
                                (py_lower rt text))))
    by (rewrite E; apply in_or_app; right; apply in_or_app; left; exact Hc).
  destruct (@collapse_from_chars _ _ _ Hin) as [-> | [Ht _]]; [reflexivity|].
  apply filter_In in Ht. destruct Ht as [_ Ht].
  apply negb_true_iff in Ht. exact Ht.
Qed.

(** The words of [split()] are made of the characters of the text that
    are not spaces. *)
Lemma words_from_chars (s cur w : str) (c : char) :
  (forall d, In d cur -> isspace d = false) ->
  In w (words_from cur s) -> In c w ->
  isspace c = false /\ (In c cur \/ In c s).
Proof.
  revert cur. induction s as [|x r IH]; intros cur Hcur Hw Hc; simpl in Hw.
  - destruct cur as [|y cur']; [destruct Hw|].
    destruct Hw as [<- | []]. apply in_rev in Hc. split; [apply Hcur; exact Hc | auto].
  - destruct (isspace x) eqn:Ex.
    + destruct cur as [|y cur'].
      * destruct (IH [] ltac:(intros ? []) Hw Hc) as [H1 [[] | H2]].
        split; [exact H1 | right; right; exact H2].
      * destruct Hw as [<- | Hw].
        -- apply in_rev in Hc. split; [apply Hcur; exact Hc | auto].
        -- destruct (IH [] ltac:(intros ? []) Hw Hc) as [H1 [[] | H2]].
           split; [exact H1 | right; right; exact H2].
    + assert (Hcur' : forall d, In d (x :: cur) -> isspace d = false)
        by (intros d [<- | Hd]; [exact Ex | apply Hcur; exact Hd]).
      destruct (IH (x :: cur) Hcur' Hw Hc) as [H1 H2].
      split; [exact H1|]. destruct H2 as [[<- | H2] | H2]; simpl; auto.
Qed.

(** X22. Whatever the text and whatever [str.lower] does, every keyword
    [get_keywords_from_text] returns has two characters or more, is not
    one of the stopwords, and holds neither a space nor an ASCII
    punctuation character. *)
Theorem keywords_are_keyword_like (text : str) :
  Forall keyword_like (get_keywords_from_text rt text).
Proof.
  apply Forall_forall. intros k Hk. unfold get_keywords_from_text in Hk.
  apply filter_In in Hk. destruct Hk as [Hw Hf].
  apply andb_true_iff in Hf. destruct Hf as [Hstop Hlen].
  apply negb_true_iff in Hstop. apply Nat.ltb_lt in Hlen.
  split; [lia|]. split.
  - intros Hin.
    assert (existsb (str_eqb k) stopwords = true); [|congruence].
    apply existsb_exists. exists k. split; [exact Hin | apply str_eqb_refl].
  - intros c Hc. unfold split in Hw.
    destruct (@words_from_chars _ [] k c ltac:(intros ? []) Hw Hc) as [H1 [[] | H2]].
    split; [exact H1 | apply (preprocess_text_chars _ _ H2)].
Qed.

(** X23. An answer that is one character long after normalization has
    no keyword, so [compare_answers_simple] gives it no credit for its
    words: the same character submitted as the answer scores 0.3 and is
    graded wrong. *)
Theorem one_character_answer_rejected (user_answer correct_answer : str) (c : char) :
  preprocess_text rt correct_answer = [c] ->
  preprocess_text rt user_answer = [c] ->
  compare_answers_simple rt user_answer correct_answer
  = (false, 0.3%float, msg_wrong).
Proof.
  intros Hc Hu.
  assert (Hs : isspace c = false).
  { unfold preprocess_text in Hc.
    destruct (negb (truthy correct_answer)); [discriminate|].
    apply strip_head in Hc. exact Hc. }
  unfold compare_answers_simple, calculate_similarity, get_keywords_from_text.
  rewrite Hc, Hu. unfold split. cbn [words_from]. rewrite Hs.
  cbn [rev app filter List.length Nat.ltb Nat.leb andb].
  rewrite andb_false_r.
  assert (Hr : Difflib.ratio [c] [c] = 1.0%float).
  { unfold Difflib.ratio.
    assert (H : Difflib.matches [c] [c] = 1).
    { cbv - [N.eqb]. rewrite ?N.eqb_refl. cbv - [N.eqb]. rewrite ?N.eqb_refl.
      cbv - [N.eqb]. reflexivity. }
    rewrite H. vm_compute. reflexivity. }
  rewrite Hr. vm_compute. reflexivity.
Qed.

End SimpleComparison.

Lemma one_character_answer_witness :
  AnswerComparison.compare_answers_simple Offline.runtime (lit "b") (lit " B.")
  = (false, 0.3%float, AnswerComparison.msg_wrong).
Proof.
  apply (@one_character_answer_rejected Offline.runtime (lit "b") (lit " B.") 98%N);
    reflexivity.
Defined.

(** ** The routes of [questions.py] *)

Section QuestionsRouter.

Import Questions.

Variable rt : Runtime.

(** X24. The evaluation route of [questions.py] never calls the grading
    cascade. It changes nothing; when it returns, the question is the
    stored question of the given type and id, whose answer and example it
    carries, and in advanced mode, which is the default, the answer is
    marked wrong with an empty feedback whatever was submitted, while in
    basic mode it is marked correct exactly when it equals the stored
    answer after trimming and lower-casing. It fails with status 400 for
    an unknown type and 404 for an unknown id, or with the error of the
    database. *)
Theorem evaluate_answer_endpoint_outcome (submission_answer question_id question_type : str)
    (use_advanced : bool) (w : World) :
  snd (evaluate_answer_endpoint rt submission_answer question_id question_type
         use_advanced w) = w
  /\ match fst (evaluate_answer_endpoint rt submission_answer question_id question_type
                  use_advanced w) with
     | Return r =>
         exists c rows q,
           Api.mapping_get QUESTION_TYPE_MAPPING question_type = Some c
           /\ questions_of (session w) c = Some rows
           /\ In q rows /\ id q = question_id
           /\ correct_answer r = answer q /\ example r = Models.example q
           /\ is_correct r
              = (if use_advanced then false
                 else str_eqb (py_lower rt (strip submission_answer))
                              (py_lower rt (strip (answer q))))
           /\ feedback r
              = (if use_advanced then []
                 else if is_correct r then msg_correct else msg_retry)
     | Raise e =>
         match Api.mapping_get QUESTION_TYPE_MAPPING question_type with
         | None => e = HTTPException 400
         | Some c =>
             match questions_of (session w) c with
             | None => e = SQLAlchemyError
             | Some _ => e = HTTPException 404
             end
         end
     end.
Proof.
  unfold evaluate_answer_endpoint.
  destruct (Api.mapping_get QUESTION_TYPE_MAPPING question_type) as [c|];
    [|split; reflexivity].
  unfold bind, Query.first_by_id, bind, Query.all, ret.
  destruct (questions_of (session w) c) as [rows|] eqn:Hr; [|split; reflexivity].
  destruct (Query.first_with_id question_id rows) as [q|] eqn:Hq;
    [|split; reflexivity].
  apply first_with_id_some in Hq. destruct Hq as [Hin Hid].
  destruct use_advanced; (split; [reflexivity|]); cbn [fst];
    exists c, rows, q; repeat split; assumption || reflexivity.
Qed.

(** X25. The lookup route of [questions.py] changes nothing and
    either returns the stored question of the given type and id, or fails
    with status 404, for an unknown type as for an unknown id, or with the
    error of the database: here the 404 reaches the caller. *)
Theorem questions_get_question_outcome (question_type question_id : str) (w : World) :
  snd (get_question question_type question_id w) = w
  /\ match fst (get_question question_type question_id w) with
     | Return q =>
         exists c rows,
           Api.mapping_get QUESTION_TYPE_MAPPING question_type = Some c
           /\ questions_of (session w) c = Some rows
           /\ In q rows /\ id q = question_id
     | Raise e =>
         match Api.mapping_get QUESTION_TYPE_MAPPING question_type with
         | None => e = HTTPException 404
         | Some c =>
             match questions_of (session w) c with
             | None => e = SQLAlchemyError
             | Some _ => e = HTTPException 404
             end
         end
     end.
Proof.
  unfold get_question.
  destruct (Api.mapping_get QUESTION_TYPE_MAPPING question_type) as [c|];
    [|split; reflexivity].
  unfold bind, Query.first_by_id, bind, Query.all, ret.
  destruct (questions_of (session w) c) as [rows|] eqn:Hr; [|split; reflexivity].
  destruct (Query.first_with_id question_id rows) as [q|] eqn:Hq;
    [|split; reflexivity].
  apply first_with_id_some in Hq. destruct Hq as [Hin Hid].
  split; [reflexivity|]. exists c, rows. auto.
Qed.

End QuestionsRouter.

(** ** A random question of one category *)

Section RandomInCategory.

Import Api.

Lemma random_choice_spec {A} (first : A) (others : list A) (w : World) :
  exists x w',
    random_choice first others w = (Return x, w')
    /\ session w' = session w /\ In x (first :: others).
Proof.
  destruct (@reads_random_choice (session w) A first others w eq_refl) as [Hs Hq].
  destruct (random_choice first others w) as [[x|e] w'] eqn:E.
  - exists x, w'. split; [reflexivity|]. split; [exact Hs | apply Hq; reflexivity].
  - unfold random_choice in E. destruct (Random.next_draw (draws w)). discriminate E.
Qed.

(** X26. With a category whose table can be read, [get_random_question]
    returns a question exactly when the table holds one of the wanted
    difficulty; otherwise it fails with status 500. *)
Theorem get_random_question_in_category (name : str) (c : Category)
    (rows : list Question) (wanted : option Z) (w : World) :
  mapping_get QUESTION_TYPE_MAPPING name = Some c ->
  questions_of (session w) c = Some rows ->
  match of_difficulty wanted rows with
  | [] => get_random_question (Some name) wanted w = (Raise (HTTPException 500), w)
  | _ :: _ =>
      exists q w',
        get_random_question (Some name) wanted w = (Return (Some q), w')
        /\ In q rows
  end.
Proof.
  intros Hm Hr. destruct (@mapping_get_named _ _ Hm) as [Hn Hc].
  unfold get_random_question, try_except. rewrite Hn, Hc, Hm.
  cbn [negb andb lift_option].
  erewrite bind_return; [|reflexivity].
  unfold query_all.
  erewrite bind_return; [|unfold bind, Query.all, ret; rewrite Hr; reflexivity].
  destruct (of_difficulty wanted rows) as [|m0 ms] eqn:Em; [reflexivity|].
  cbn [map].
  destruct (random_choice_spec (id m0) (map id ms) w) as (sel & w1 & E & Hs & Hsel).
  erewrite bind_return; [|exact E].
  assert (Hin : In sel (map id rows)).
  { change (id m0 :: map id ms) with (map id (m0 :: ms)) in Hsel.
    rewrite <- Em in Hsel. apply in_map_iff in Hsel.
    destruct Hsel as (q & <- & Hq).
    apply in_map. apply (@of_difficulty_incl wanted rows q Hq). }
  destruct (@first_with_id_in sel rows Hin) as [q Hq].
  unfold Query.first_by_id, bind, Query.all, ret. rewrite Hs, Hr, Hq.
  exists q, w1. split; [reflexivity|].
  apply first_with_id_some in Hq. tauto.
Qed.

End RandomInCategory.

Lemma get_random_question_witness :
  exists q w',
    Api.get_random_question (Some (lit "network")) None (Bank.world Bank.small [5])
    = (Return (Some q), w')
    /\ In q [Bank.abbreviation_row].
Proof.
  apply (@get_random_question_in_category (lit "network") network
           [Bank.abbreviation_row] None (Bank.world Bank.small [5]));
    reflexivity.
Defined.

(** ** One row for every pair, through the handler *)

(** X27. Whatever is submitted, and also when the request ends in an
    error, [submit_test] leaves a wrong-answer table with at most one row
    for every (user, question) pair when it found one. *)
Theorem submit_test_one_row_per_pair (rt : Runtime) (submission : Api.TestSubmission)
    (w : World) :
  table_invariant w ->
  table_invariant (snd (Api.submit_test rt submission w)).
Proof.
  assert (H : keeps table_invariant (Api.submit_test rt submission)).
  { unfold Api.submit_test. apply keeps_try_except; [|intros; apply keeps_raise].
    apply keeps_bind.
    - destruct (Api.submission_user_id submission) as [uid|]; [|apply keeps_ret].
      destruct (truthy uid); [apply keeps_user_by_id | apply keeps_ret].
    - intros user. apply keeps_bind.
      + apply grade_all_keeps. intros. apply store_miss_keeps_invariant.
      + intros [n details]. apply keeps_ret. }
  exact (H w).
Qed.

Lemma submit_test_one_row_witness :
  table_invariant
    (snd (Api.submit_test Offline.runtime identified_submission
            (Bank.world Bank.small []))).
Proof.
  apply (@submit_test_one_row_per_pair Offline.runtime identified_submission
           (Bank.world Bank.small [])).
  intros uid qid. simpl. lia.
Defined.
